(** * AI Task App: ingestion pipeline and task organizer

    A shallow embedding of [src/App.tsx]: token extraction, priority
    inference, [parseTask], the filter, the list comparator, the kanban
    buckets, the Focus card, the tag and project menus, the operations
    on the task store ([addTaskFromInput], [toggleDone], [removeTask],
    [updateTask], [bumpPriority], [moveToBucket], [importJSON] and the
    export), the edit dialog and the assistant ([callLLM] and the two
    prompts), together with the properties its specification states
    and further properties that the code shows.

    Conventions.
    - A JavaScript string is the list of its UTF-16 code units, each an [N].
    - An instant ([Date], [Date.now()], [due], [createdAt]) is a [Z]: epoch
      milliseconds.
    - What the program takes from its run time and is not written in the
      repository (the Unicode character data, the clock, the time zone
      with its clock changes, the language's conversions between
      numbers and texts, the chrono-node resolver, [Math.random],
      [JSON.parse], [fetch], the locale's date texts) is a parameter of
      the definitions that use it.
    - The filter, the menus, the edit dialog and the assistant read a
      task at its declared type ([Task]); the store, the comparators,
      the buckets and the Focus card are defined on the values the store
      holds ([StoredTask]), since [importJSON] stores fields of any
      kind. *)

From Stdlib Require Import String Ascii.
From Stdlib Require Import List ZArith NArith QArith Bool Lia.
From Stdlib Require Import Permutation Sorted.
Import ListNotations.

Set Implicit Arguments.
Local Open Scope N_scope.

(** ** JavaScript strings *)

Definition jsstring := list N.

(** A string literal of the source (all of them are ASCII). *)
Definition str (s : string) : jsstring :=
  List.map N_of_ascii (list_ascii_of_string s).

Definition ch (a : ascii) : N := N_of_ascii a.

Definition inRange (lo hi c : N) : bool := (lo <=? c) && (c <=? hi).

Definition jsstring_eqb (a b : jsstring) : bool :=
  if list_eq_dec N.eq_dec a b then true else false.

Definition isAscii (c : N) : bool := c <? 128.
Definition isUpperAZ (c : N) : bool := inRange 65 90 c.
Definition isLowerAZ (c : N) : bool := inRange 97 122 c.
Definition isDigit (c : N) : bool := inRange 48 57 c.

(** Surrogate code units and the code point of a pair. *)
Definition isHighSurrogate (c : N) : bool := inRange 55296 56319 c.
Definition isLowSurrogate (c : N) : bool := inRange 56320 57343 c.
Definition isSurrogate (c : N) : bool := inRange 55296 57343 c.
Definition codePointOfPair (hi lo : N) : N :=
  65536 + (hi - 55296) * 1024 + (lo - 56320).

(** The run time's Unicode data beyond ASCII: general categories L and N
    of a code point, default lower-casing of a string, and the upper-case
    mapping of one code unit (used by case-insensitive matching). *)
Record Unicode := {
  uniLetter : N -> bool;
  uniNumber : N -> bool;
  uniLower : jsstring -> jsstring;
  uniUpperUnit : N -> N
}.

(** A run time whose tables hold nothing beyond ASCII; the examples below
    run on ASCII text, where the tables are never consulted. *)
Definition asciiOnly : Unicode := {|
  uniLetter := fun _ => false;
  uniNumber := fun _ => false;
  uniLower := fun s => s;
  uniUpperUnit := fun c => c
|}.

(** [\s], and what [trim] removes: WhiteSpace and LineTerminator. *)
Definition isSpace (c : N) : bool :=
  inRange 9 13 c || (c =? 32) || (c =? 160) || (c =? 5760)
  || inRange 8192 8202 c || (c =? 8232) || (c =? 8233) || (c =? 8239)
  || (c =? 8287) || (c =? 12288) || (c =? 65279).

(** [\w] as [\b] sees it (no [u]+[i] flags together): [A-Za-z0-9_]. *)
Definition isWordChar (c : N) : bool :=
  isUpperAZ c || isLowerAZ c || isDigit c || (c =? 95).

Section Strings.
Variable U : Unicode.

(** [\p{L}] and [\p{N}] on a code point. Beyond ASCII the answer is the
    run time's, except for the surrogates (category Cs) and the white-space
    characters (categories Zs, Zl, Zp, Cf), which are in neither. *)
Definition isL (c : N) : bool :=
  if isAscii c then isUpperAZ c || isLowerAZ c
  else if isSurrogate c || isSpace c then false else uniLetter U c.
Definition isN (c : N) : bool :=
  if isAscii c then isDigit c
  else if isSurrogate c || isSpace c then false else uniNumber U c.

(** [String.prototype.toLowerCase]. *)
Definition toLowerCase (s : jsstring) : jsstring :=
  if forallb isAscii s
  then List.map (fun c => if isUpperAZ c then c + 32 else c) s
  else uniLower U s.

(** Canonicalize of the regular-expression semantics without the [u]
    flag: the upper-case mapping, except that a non-ASCII unit never
    maps into ASCII. *)
Definition canonicalize (c : N) : N :=
  if isAscii c then (if isLowerAZ c then c - 32 else c)
  else let cu := uniUpperUnit U c in if isAscii cu then c else cu.
End Strings.

(** [String.prototype.trim]. *)
Fixpoint trimStart (s : jsstring) : jsstring :=
  match s with
  | c :: r => if isSpace c then trimStart r else s
  | [] => []
  end.

Fixpoint trimEnd (s : jsstring) : jsstring :=
  match s with
  | [] => []
  | c :: r =>
      match trimEnd r with
      | [] => if isSpace c then [] else [c]
      | r' => c :: r'
      end
  end.

Definition trim (s : jsstring) : jsstring := trimEnd (trimStart s).

(** [s.startsWith(p)]. *)
Fixpoint startsWith (p s : jsstring) : bool :=
  match p, s with
  | [], _ => true
  | a :: p', b :: s' => (a =? b) && startsWith p' s'
  | _ :: _, [] => false
  end.

(** ** Regular expressions

    The fragment of ECMAScript regular expressions the source uses, with
    the backtracking semantics of the language: alternatives are tried
    left to right, quantifiers are greedy, and a match is the first one
    found at the leftmost position. *)

Inductive regex : Type :=
| Char (c : N)                     (* a literal character *)
| Class (p : N -> bool)            (* a character class or class escape *)
| WordBoundary                     (* \b *)
| Seq (r1 r2 : regex)
| Alt (r1 r2 : regex)
| Opt (r : regex)                  (* r? *)
| Rep (min : nat) (p : N -> bool)  (* cls{min,}; cls+ is [Rep 1 cls] *)
| Group (r : regex).               (* a capturing group; each pattern of the
                                      source has one *)

Record flags := { ignoreCase : bool; unicode : bool }.

Definition noFlags : flags := {| ignoreCase := false; unicode := false |}.
Definition flag_i : flags := {| ignoreCase := true; unicode := false |}.
Definition flag_u : flags := {| ignoreCase := false; unicode := true |}.

(** The literal word [w]: its characters in sequence. *)
Fixpoint lit (w : jsstring) : regex :=
  match w with
  | [] => Rep 0 (fun _ => false)
  | [c] => Char c
  | c :: w' => Seq (Char c) (lit w')
  end.

Definition orElse {A} (a b : option A) : option A :=
  match a with Some _ => a | None => b end.

Section Matcher.
Variable U : Unicode.
Variable fl : flags.

(** The character at the head of [s]: a code unit, or with the [u] flag
    a code point (a surrogate pair reads as one character). *)
Definition readChar (s : jsstring) : option (N * jsstring) :=
  match s with
  | [] => None
  | c :: s' =>
      if unicode fl && isHighSurrogate c then
        match s' with
        | lo :: s'' =>
            if isLowSurrogate lo then Some (codePointOfPair c lo, s'')
            else Some (c, s')
        | [] => Some (c, s')
        end
      else Some (c, s')
  end.

Definition sameChar (c x : N) : bool :=
  if ignoreCase fl then canonicalize U c =? canonicalize U x else c =? x.

Definition isWordAt (o : option N) : bool :=
  match o with Some c => isWordChar c | None => false end.

(** The greedy loop of [cls{min,}]: take one more character of the class
    while there is one, and fall back to stopping here ([n] characters
    taken) when going on fails. *)
Fixpoint repLoop {R} (min : nat) (p : N -> bool) (caps : list jsstring)
    (k : option N -> jsstring -> list jsstring -> option R)
    (prev : option N) (s : jsstring) (n : nat) {struct s} : option R :=
  let stop := if Nat.leb min n then k prev s caps else None in
  match s with
  | [] => stop
  | c :: s' =>
      let single :=
        if p c then orElse (repLoop min p caps k (Some c) s' (S n)) stop
        else stop in
      if unicode fl && isHighSurrogate c then
        match s' with
        | lo :: s'' =>
            if isLowSurrogate lo then
              if p (codePointOfPair c lo)
              then orElse (repLoop min p caps k
                             (Some (codePointOfPair c lo)) s'' (S n)) stop
              else stop
            else single
        | [] => single
        end
      else single
  end.

(** [exec r prev s caps k]: match [r] at the head of [s], where [prev]
    is the character before it, then continue with [k]; [None] makes the
    matcher backtrack. [caps] are the captures closed so far. *)
Fixpoint exec {R} (r : regex) (prev : option N) (s : jsstring)
    (caps : list jsstring)
    (k : option N -> jsstring -> list jsstring -> option R) : option R :=
  match r with
  | Char c =>
      match readChar s with
      | Some (x, s') => if sameChar c x then k (Some x) s' caps else None
      | None => None
      end
  | Class p =>
      match readChar s with
      | Some (x, s') => if p x then k (Some x) s' caps else None
      | None => None
      end
  | WordBoundary =>
      if xorb (isWordAt prev) (isWordAt (hd_error s)) then k prev s caps
      else None
  | Seq r1 r2 =>
      exec r1 prev s caps (fun prev' s' caps' => exec r2 prev' s' caps' k)
  | Alt r1 r2 => orElse (exec r1 prev s caps k) (exec r2 prev s caps k)
  | Opt r1 => orElse (exec r1 prev s caps k) (k prev s caps)
  | Rep min p => repLoop min p caps k prev s 0
  | Group r1 =>
      exec r1 prev s caps
        (fun prev' s' caps' =>
           k prev' s' (caps' ++ [firstn (length s - length s') s]))
  end.

(** A match at the head of [s]: the number of code units it spans and
    its captures. *)
Definition matchAt (r : regex) (prev : option N) (s : jsstring)
  : option (nat * list jsstring) :=
  exec r prev s [] (fun _ s' caps => Some ((length s - length s')%nat, caps)).

(** The leftmost match in [s], scanning the start positions from the
    left: its index, its length and its captures. *)
Fixpoint searchFrom (r : regex) (prev : option N) (s : jsstring) (i : nat)
  : option (nat * nat * list jsstring) :=
  match matchAt r prev s with
  | Some (n, caps) => Some (i, n, caps)
  | None =>
      match s with
      | [] => None
      | c :: s' => searchFrom r (Some c) s' (S i)
      end
  end.

(** [re.test(s)] for a regex without the [g] flag. *)
Definition test (r : regex) (s : jsstring) : bool :=
  match searchFrom r None s 0 with Some _ => true | None => false end.

(** [s.match(re)] for a regex without the [g] flag: the captures
    [m[1], m[2], ...] of the first match. *)
Definition stringMatch (r : regex) (s : jsstring) : option (list jsstring) :=
  match searchFrom r None s 0 with
  | Some (_, _, caps) => Some caps
  | None => None
  end.

(** [s.matchAll(re)] for a regex with the [g] flag: the captures of the
    successive matches. [skip] counts the units of the previous match
    still to step over. (With the [u] flag the run time steps over a
    surrogate pair at once; a match of the one [u] regex of the source
    starts with [#], so none starts at the second half of a pair.) *)
Fixpoint matchAllFrom (r : regex) (prev : option N) (s : jsstring)
    (skip : nat) : list (list jsstring) :=
  match s with
  | [] =>
      match skip, matchAt r prev [] with
      | O, Some (_, caps) => [caps]
      | _, _ => []
      end
  | c :: s' =>
      match skip with
      | S k => matchAllFrom r (Some c) s' k
      | O =>
          match matchAt r prev s with
          | Some (n, caps) => caps :: matchAllFrom r (Some c) s' (Nat.pred n)
          | None => matchAllFrom r (Some c) s' 0
          end
      end
  end.

Definition matchAll (r : regex) (s : jsstring) : list (list jsstring) :=
  matchAllFrom r None s 0.

(** [s.replace(re, repl)] for a regex with the [g] flag and a
    replacement text without [$] patterns. *)
Fixpoint replaceFrom (r : regex) (repl : jsstring) (prev : option N)
    (s : jsstring) (skip : nat) : jsstring :=
  match s with
  | [] =>
      match skip, matchAt r prev [] with
      | O, Some _ => repl
      | _, _ => []
      end
  | c :: s' =>
      match skip with
      | S k => replaceFrom r repl (Some c) s' k
      | O =>
          match matchAt r prev s with
          | Some (S n, _) => repl ++ replaceFrom r repl (Some c) s' n
          | Some (O, _) => repl ++ c :: replaceFrom r repl (Some c) s' 0
          | None => c :: replaceFrom r repl (Some c) s' 0
          end
      end
  end.

Definition replaceAll (r : regex) (repl : jsstring) (s : jsstring) : jsstring :=
  replaceFrom r repl None s 0.
End Matcher.

(** ** Types *)

Inductive Priority : Type := low | medium | high.

Definition Priority_eqb (a b : Priority) : bool :=
  match a, b with
  | low, low | medium, medium | high, high => true
  | _, _ => false
  end.

(** The name of a level, as the program writes it. *)
Definition priorityName (p : Priority) : jsstring :=
  match p with
  | low => str "low"
  | medium => str "medium"
  | high => str "high"
  end.

Record Subtask := {
  sub_id : jsstring;
  sub_title : jsstring;
  sub_done : bool
}.

(** [type Task]; an optional field ([notes?], [due?], ...) holds [None]
    when it is [undefined] or absent. *)
Record Task := {
  id : jsstring;
  title : jsstring;
  notes : option jsstring;
  createdAt : Z;
  due : option Z;
  tags : list jsstring;
  project : option jsstring;
  priority : Priority;
  done : bool;
  subtasks : option (list Subtask)
}.

(** JavaScript truthiness of an optional number: [undefined] and [0] are
    falsy. *)
Definition truthyNum (d : option Z) : bool :=
  match d with
  | Some z => negb (z =? 0)%Z
  | None => false
  end.

(** ** Token extraction and priority inference *)

(** [[\p{L}\p{N}_:-]] *)
Definition tagClass (U : Unicode) (c : N) : bool :=
  isL U c || isN U c || (c =? ch "_") || (c =? ch ":") || (c =? ch "-").

(** [/#([\p{L}\p{N}_:-]+)/gu] *)
Definition tagRe (U : Unicode) : regex :=
  Seq (Char (ch "#")) (Group (Rep 1 (tagClass U))).

(** [/!(high|med(?:ium)?|low)/i], also used with [gi] *)
Definition prRe : regex :=
  Seq (Char (ch "!"))
      (Group (Alt (lit (str "high"))
             (Alt (Seq (lit (str "med")) (Opt (lit (str "ium"))))
                  (lit (str "low"))))).

(** [/\s{2,}/g] *)
Definition spacesRe : regex := Rep 2 isSpace.

(** [/[!](high|important|urgent)/] *)
Definition bangHighRe : regex :=
  Seq (Class (fun c => c =? ch "!"))
      (Group (Alt (lit (str "high"))
             (Alt (lit (str "important")) (lit (str "urgent"))))).

(** [/\b(urgent|asap|critical|today)\b/] *)
Definition urgencyRe : regex :=
  Seq WordBoundary
      (Seq (Group (Alt (lit (str "urgent"))
                  (Alt (lit (str "asap"))
                  (Alt (lit (str "critical")) (lit (str "today"))))))
           WordBoundary).

(** [/[!](med|medium)/] *)
Definition bangMedRe : regex :=
  Seq (Class (fun c => c =? ch "!"))
      (Group (Alt (lit (str "med")) (lit (str "medium")))).

(** [/[!](low)/] *)
Definition bangLowRe : regex :=
  Seq (Class (fun c => c =? ch "!")) (Group (lit (str "low"))).

(** [/\b(review|plan|someday)\b/] *)
Definition planningRe : regex :=
  Seq WordBoundary
      (Seq (Group (Alt (lit (str "review"))
                  (Alt (lit (str "plan")) (lit (str "someday")))))
           WordBoundary).

(** [Array.from(new Set(xs))]: the first occurrence of each element, in
    order. *)
Fixpoint uniqueHelper (seen xs : list jsstring) : list jsstring :=
  match xs with
  | [] => []
  | x :: r =>
      if existsb (jsstring_eqb x) seen then uniqueHelper seen r
      else x :: uniqueHelper (x :: seen) r
  end.

Definition arrayFromSet (xs : list jsstring) : list jsstring :=
  uniqueHelper [] xs.

Record Extracted := {
  cleaned : jsstring;
  x_tags : list jsstring;
  x_priority : option Priority
}.

(** The draft [parseTask] returns ([Partial<Task>]). *)
Record Draft := {
  d_title : jsstring;
  d_due : option Z;
  d_tags : list jsstring;
  d_priority : Priority
}.

(** A result of [chrono.parse]: [index], [text] and [date().getTime()]. *)
Record ParsedResult := {
  pr_index : option nat;
  pr_text : option jsstring;
  pr_date : Z
}.

Section Ingestion.
Variable U : Unicode.
(** [Date.now()] and [new Date()]. *)
Variable now : Z.
(** [chrono.parse(text, ref, { forwardDate: true })]. *)
Variable chronoParse : jsstring -> Z -> list ParsedResult.

(** [(due - Date.now()) / 36e5] *)
Definition hoursUntil (d : Z) : Q := inject_Z (d - now) / inject_Z 3600000.

Definition inferPriority (text : jsstring) (due : option Z) : Priority :=
  let t := toLowerCase U text in
  if test U noFlags bangHighRe t || test U noFlags urgencyRe t then high
  else if test U noFlags bangMedRe t then medium
  else if test U noFlags bangLowRe t then low
  else
    let byText := if test U noFlags planningRe t then low else medium in
    match due with
    | Some d =>
        if truthyNum due then
          let hours := hoursUntil d in
          if Qle_bool hours (inject_Z 24) then high
          else if Qle_bool hours (inject_Z 72) then medium
          else byText
        else byText
    | None => byText
    end.

Definition extractTokens (text : jsstring) : Extracted :=
  let tags :=
    arrayFromSet
      (List.map (fun m => toLowerCase U (nth 0 m []))
                (matchAll U flag_u (tagRe U) text)) in
  let prMatch := stringMatch U flag_i prRe text in
  let priority :=
    match prMatch with
    | Some m =>
        let p := toLowerCase U (nth 0 m []) in
        Some (if startsWith (str "high") p then high
              else if startsWith (str "low") p then low
              else medium)
    | None => None
    end in
  let cleaned :=
    trim (replaceAll U noFlags spacesRe (str " ")
           (replaceAll U flag_i prRe []
             (replaceAll U flag_u (tagRe U) [] text))) in
  {| cleaned := cleaned; x_tags := tags; x_priority := priority |}.

Definition parseTask (input : jsstring) : Draft :=
  let x := extractTokens input in
  let parsed := chronoParse (cleaned x) now in
  let '(due, title) :=
    match parsed with
    | first :: _ =>
        let start := match pr_index first with Some i => i | None => O end in
        let len := match pr_text first with Some t => length t | None => O end in
        let end_ := (start + len)%nat in
        (Some (pr_date first),
         trim (replaceAll U noFlags spacesRe (str " ")
                 (firstn start (cleaned x) ++ str " " ++ skipn end_ (cleaned x))))
    | [] => (None, cleaned x)
    end in
  let inferred := inferPriority (cleaned x) due in
  {| d_title := match title with [] => cleaned x | _ => title end;
     d_due := due;
     d_tags := x_tags x;
     d_priority := match x_priority x with Some p => p | None => inferred end |}.
End Ingestion.

(** ** Dates

    A [Date] is its time value, and the instants at hand stay within
    the range of [Date]. The time zone is read as ECMAScript reads it,
    through two offsets of local time from UTC, in milliseconds:
    [offsetAt t] at the instant [t] ([LocalTZA(t, true)]) and
    [offsetOfLocal t] for the local time value [t]
    ([LocalTZA(t, false)]); a local time that a clock change skips or
    repeats is read with the offset before the change. *)

Local Open Scope Z_scope.

Definition msPerDay : Z := 86400000.

Record TimeZone := {
  offsetAt : Z -> Z;
  offsetOfLocal : Z -> Z
}.

(** A zone without clock changes, [tzMinutes] minutes ahead of UTC. *)
Definition localOffset (tzMinutes : Z) : Z := tzMinutes * 60000.

Definition fixedOffset (tzMinutes : Z) : TimeZone :=
  {| offsetAt := fun _ => localOffset tzMinutes;
     offsetOfLocal := fun _ => localOffset tzMinutes |}.

Section Dates.
Variable zone : TimeZone.

(** [LocalTime(t)] and [UTC(t)] *)
Definition LocalTime (t : Z) : Z := t + offsetAt zone t.
Definition UTC (t : Z) : Z := t - offsetOfLocal zone t.

(** The local calendar day of an instant (days since the epoch) and the
    local time of day in milliseconds. *)
Definition localDay (d : Z) : Z := LocalTime d / msPerDay.
Definition localTimeOfDay (d : Z) : Z := LocalTime d mod msPerDay.

(** [d.setHours(h, m, s, ms)]: the instant of the given time on the
    local day of [d]. *)
Definition setHours (d h m s ms : Z) : Z :=
  UTC (localDay d * msPerDay + (((h * 60 + m) * 60 + s) * 1000 + ms)).

Definition startOfDay (d : Z) : Z := setHours d 0 0 0 0.
Definition endOfDay (d : Z) : Z := setHours d 23 59 59 999.

(** [x.setDate(x.getDate() + days)]: the instant of the same local time
    of day, [days] local days on. *)
Definition addDays (d days : Z) : Z := UTC (LocalTime d + days * msPerDay).
End Dates.

(** ** Numbers *)

Inductive number : Type := Num (z : Z) | Infinity | NegInfinity | NaN.

(** [a - b] *)
Definition minus (a b : number) : number :=
  match a, b with
  | Num x, Num y => Num (x - y)
  | NaN, _ | _, NaN => NaN
  | Infinity, Infinity | NegInfinity, NegInfinity => NaN
  | Infinity, _ | _, NegInfinity => Infinity
  | NegInfinity, _ | _, Infinity => NegInfinity
  end.

(** [a !== b] *)
Definition strictNe (a b : number) : bool :=
  match a, b with
  | Num x, Num y => negb (x =? y)
  | Infinity, Infinity | NegInfinity, NegInfinity => false
  | _, _ => true
  end.

(** [a < b], false when either is [NaN] *)
Definition ltNumber (a b : number) : bool :=
  match a, b with
  | NaN, _ | _, NaN => false
  | Num x, Num y => x <? y
  | _, NegInfinity | Infinity, _ => false
  | NegInfinity, _ | _, Infinity => true
  end.

Definition isNaN (a : number) : bool :=
  match a with NaN => true | _ => false end.

(** [a > b], [a <= b] and [a >= b] *)
Definition gtNumber (a b : number) : bool := ltNumber b a.
Definition leNumber (a b : number) : bool :=
  negb (isNaN a) && negb (isNaN b) && negb (ltNumber b a).
Definition geNumber (a b : number) : bool := leNumber b a.

(** [v > 0], the test a sort makes on a comparator's result ([NaN] counts
    as [+0]). *)
Definition positive (v : number) : bool :=
  match v with
  | Num z => 0 <? z
  | Infinity => true
  | NegInfinity | NaN => false
  end.

(** [const pRank = { high: 0, medium: 1, low: 2 }]: its three entries. *)
Definition pRank (p : Priority) : Z :=
  match p with high => 0 | medium => 1 | low => 2 end.


(** [Array.prototype.sort(comparefn)]. ECMAScript requires the sort to be
    stable; for a consistent comparator every conforming implementation
    returns the list computed here: each element is inserted, from the
    right, before the elements it does not compare greater than. *)
Section Sort.
Variable A : Type.
Variable comparefn : A -> A -> number.

Fixpoint insertSorted (x : A) (l : list A) : list A :=
  match l with
  | [] => [x]
  | y :: l' =>
      if positive (comparefn x y) then y :: insertSorted x l'
      else x :: l
  end.

Fixpoint sort (l : list A) : list A :=
  match l with
  | [] => []
  | x :: l' => insertSorted x (sort l')
  end.
End Sort.

(** ** The filter *)

(** [s.includes(p)] *)
Fixpoint includes (p s : jsstring) : bool :=
  startsWith p s || match s with [] => false | _ :: s' => includes p s' end.

(** [xs.join(sep)] *)
Fixpoint join (sep : jsstring) (xs : list jsstring) : jsstring :=
  match xs with
  | [] => []
  | [x] => x
  | x :: r => (x ++ sep ++ join sep r)%list
  end.

Section Filter.
Variable U : Unicode.

(** [filtered], from the four filter settings, on tasks of the declared
    type; a filter that is [null] or the empty string passes every
    task. *)
Definition filtered (tasks : list Task) (showDone : bool)
    (filterText : jsstring) (filterTag filterProject : option jsstring)
  : list Task :=
  filter
    (fun t =>
       let hay := toLowerCase U
         (title t ++ str " " ++ (match notes t with Some ((_ :: _) as n) => n | _ => [] end)
          ++ str " " ++ join (str " ") (tags t))%list in
       includes (toLowerCase U filterText) hay)
  (filter
    (fun t => match filterProject with
              | Some ((_ :: _) as p) =>
                  match project t with
                  | Some q => jsstring_eqb q p
                  | None => false
                  end
              | _ => true
              end)
  (filter
    (fun t => match filterTag with
              | Some ((_ :: _) as g) => existsb (jsstring_eqb g) (tags t)
              | _ => true
              end)
  (filter (fun t => if showDone then true else negb (done t)) tasks))).
End Filter.

Set Warnings "-register-all".

(** ** Run-time values and the task store

    TypeScript's types are erased when the program runs, and
    [JSON.parse(text) as Task[]] checks nothing: what [importJSON] reads
    and stores are plain values. An object is the list of its properties
    in creation order, one entry per key. Numbers are the integers (epoch
    milliseconds are). *)

Inductive JSON : Type :=
| JNull
| JBool (b : bool)
| JNum (n : Z)
| JStr (s : jsstring)
| JArr (items : list JSON)
| JObj (fields : list (string * JSON)).

Inductive value : Type := Undefined | Val (j : JSON).

Definition VStr (s : jsstring) : value := Val (JStr s).
Definition VNum (n : Z) : value := Val (JNum n).

(** ToBoolean *)
Definition truthy (v : value) : bool :=
  match v with
  | Undefined | Val JNull => false
  | Val (JBool b) => b
  | Val (JNum n) => negb (n =? 0)
  | Val (JStr s) => match s with [] => false | _ => true end
  | Val (JArr _) | Val (JObj _) => true
  end.

(** [a || b] when evaluating [b] has no effect *)
Definition orValue (a b : value) : value := if truthy a then a else b.

(** [Array.isArray(v)] *)
Definition isArray (v : value) : bool :=
  match v with Val (JArr _) => true | _ => false end.

(** [a === b]. Arrays and objects are equal only to themselves; the
    store keeps no object identities, and two of them compare unequal
    here (an id of the program is a string). *)
Definition strictEq (a b : value) : bool :=
  match a, b with
  | Undefined, Undefined => true
  | Val JNull, Val JNull => true
  | Val (JBool x), Val (JBool y) => Bool.eqb x y
  | Val (JNum x), Val (JNum y) => x =? y
  | Val (JStr x), Val (JStr y) => jsstring_eqb x y
  | _, _ => false
  end.

(** [v === s] for a string [s] *)
Definition strictEqStr (v : value) (s : jsstring) : bool :=
  match v with Val (JStr x) => jsstring_eqb x s | _ => false end.

Fixpoint lookup (key : string) (fields : list (string * JSON)) : value :=
  match fields with
  | [] => Undefined
  | (k, v) :: r => if String.eqb k key then Val v else lookup key r
  end.

(** A task as the store holds it. *)
Record StoredTask := {
  s_id : value;
  s_title : value;
  s_notes : value;
  s_createdAt : value;
  s_due : value;
  s_tags : value;
  s_project : value;
  s_priority : value;
  s_done : bool;
  s_subtasks : value
}.

(** The [Task] of the type declaration as a stored task. *)
Definition optStr (o : option jsstring) : value :=
  match o with Some s => VStr s | None => Undefined end.
Definition optNum (o : option Z) : value :=
  match o with Some n => VNum n | None => Undefined end.
Definition subtaskJSON (s : Subtask) : JSON :=
  JObj [("id"%string, JStr (sub_id s)); ("title"%string, JStr (sub_title s));
        ("done"%string, JBool (sub_done s))].

Definition ofTask (t : Task) : StoredTask := {|
  s_id := VStr (id t);
  s_title := VStr (title t);
  s_notes := optStr (notes t);
  s_createdAt := VNum (createdAt t);
  s_due := optNum (due t);
  s_tags := Val (JArr (List.map JStr (tags t)));
  s_project := optStr (project t);
  s_priority := VStr (priorityName (priority t));
  s_done := done t;
  s_subtasks :=
    match subtasks t with
    | Some l => Val (JArr (List.map subtaskJSON l))
    | None => Undefined
    end
|}.

(** [priority] is one of the three levels. *)
Definition isLevel (v : value) : bool :=
  strictEqStr v (str "low") || strictEqStr v (str "medium")
  || strictEqStr v (str "high").

(** What [JSON.stringify] writes for a stored task: its properties in
    order, those that are [undefined] left out. *)
Definition field (k : string) (v : value) : list (string * JSON) :=
  match v with Val j => [(k, j)] | Undefined => [] end.

Definition taskJSON (t : StoredTask) : JSON :=
  JObj (field "id" (s_id t) ++ field "title" (s_title t)
        ++ field "notes" (s_notes t) ++ field "createdAt" (s_createdAt t)
        ++ field "due" (s_due t) ++ field "tags" (s_tags t)
        ++ field "project" (s_project t) ++ field "priority" (s_priority t)
        ++ [("done"%string, JBool (s_done t))]
        ++ field "subtasks" (s_subtasks t)).

Definition exportJSON (tasks : list StoredTask) : JSON :=
  JArr (List.map taskJSON tasks).

(** ** Conversions

    [String(v)] and [Number(v)] of a run-time value. The text of a
    number ([Number::toString]) and the number a text denotes
    ([StringToNumber]) are the language's; they are parameters. *)

Record Conversions := {
  numberToString : Z -> jsstring;
  stringToNumber : jsstring -> number
}.

Section Conversions.
Variable C : Conversions.

(** An array is its elements joined by commas, [null] among them as the
    empty text; an object is ["[object Object]"]. *)
Fixpoint toStringJSON (j : JSON) : jsstring :=
  match j with
  | JNull => str "null"
  | JBool b => if b then str "true" else str "false"
  | JNum n => numberToString C n
  | JStr s => s
  | JArr items =>
      join (str ",")
        (List.map (fun x => match x with
                            | JNull => []
                            | _ => toStringJSON x
                            end) items)
  | JObj _ => str "[object Object]"
  end.

Definition toString (v : value) : jsstring :=
  match v with
  | Undefined => str "undefined"
  | Val j => toStringJSON j
  end.

(** An array or an object is converted through its text. *)
Definition toNumber (v : value) : number :=
  match v with
  | Undefined => NaN
  | Val JNull => Num 0
  | Val (JBool b) => Num (if b then 1 else 0)
  | Val (JNum n) => Num n
  | Val (JStr s) => stringToNumber C s
  | Val j => stringToNumber C (toStringJSON j)
  end.
End Conversions.

(** ** Orderings

    The comparators read the stored task: [pRank[t.priority]] is a
    property read with the priority as the key, and [t.due] and
    [t.createdAt] are converted to numbers where they are subtracted or
    compared. *)

(** What a property read on [pRank] gives: the number of one of its own
    three properties, the object that a name of [Object.prototype]
    stands for, or [undefined]. *)
Inductive property : Type :=
| Own (n : Z)
| Inherited (name : jsstring)
| Missing.

(** The names [Object.prototype] defines. *)
Definition objectPrototypeNames : list jsstring :=
  [str "constructor"; str "hasOwnProperty"; str "isPrototypeOf";
   str "propertyIsEnumerable"; str "toLocaleString"; str "toString";
   str "valueOf"; str "__proto__"; str "__defineGetter__";
   str "__defineSetter__"; str "__lookupGetter__"; str "__lookupSetter__"].

(** [pRank[key]] *)
Definition pRankAt (key : jsstring) : property :=
  if jsstring_eqb key (priorityName high) then Own (pRank high)
  else if jsstring_eqb key (priorityName medium) then Own (pRank medium)
  else if jsstring_eqb key (priorityName low) then Own (pRank low)
  else if existsb (jsstring_eqb key) objectPrototypeNames then Inherited key
  else Missing.

(** [x !== y]: two inherited names stand for the same object only when
    they are the same name. *)
Definition propertyNe (x y : property) : bool :=
  match x, y with
  | Own a, Own b => negb (a =? b)
  | Inherited a, Inherited b => negb (jsstring_eqb a b)
  | Missing, Missing => false
  | _, _ => true
  end.

(** [Number(x)]: an object of [Object.prototype] and [undefined] give
    [NaN]. *)
Definition propertyNumber (x : property) : number :=
  match x with
  | Own n => Num n
  | Inherited _ | Missing => NaN
  end.

(** [v || Infinity]: the value itself when it is truthy. *)
Inductive operand : Type :=
| Kept (v : value)
| PlusInfinity.

Definition orInfinity (v : value) : operand :=
  if truthy v then Kept v else PlusInfinity.

(** [x !== y] *)
Definition operandNe (x y : operand) : bool :=
  match x, y with
  | Kept v, Kept w => negb (strictEq v w)
  | PlusInfinity, PlusInfinity => false
  | _, _ => true
  end.

Inductive BucketKey : Type := today | week | later | bdone.

Record Buckets := {
  out_today : list StoredTask;
  out_week : list StoredTask;
  out_later : list StoredTask;
  out_done : list StoredTask
}.

(** [out[k].push(t)] *)
Definition push (k : BucketKey) (t : StoredTask) (out : Buckets) : Buckets :=
  match k with
  | today => {| out_today := out_today out ++ [t]; out_week := out_week out;
                out_later := out_later out; out_done := out_done out |}
  | week => {| out_today := out_today out; out_week := out_week out ++ [t];
               out_later := out_later out; out_done := out_done out |}
  | later => {| out_today := out_today out; out_week := out_week out;
                out_later := out_later out ++ [t]; out_done := out_done out |}
  | bdone => {| out_today := out_today out; out_week := out_week out;
                out_later := out_later out; out_done := out_done out ++ [t] |}
  end.

Definition bucket (k : BucketKey) (out : Buckets) : list StoredTask :=
  match k with
  | today => out_today out
  | week => out_week out
  | later => out_later out
  | bdone => out_done out
  end.

Section Organizer.
Variable C : Conversions.
Variable zone : TimeZone.
(** [new Date()] at the time the views are computed. *)
Variable now : Z.

Definition operandNumber (x : operand) : number :=
  match x with
  | Kept v => toNumber C v
  | PlusInfinity => Infinity
  end.

(** [pRank[t.priority]] *)
Definition rankOf (t : StoredTask) : property :=
  pRankAt (toString C (s_priority t)).

(** The comparator of the list view. *)
Definition visibleCompare (a b : StoredTask) : number :=
  if negb (Bool.eqb (s_done a) (s_done b))
  then (if s_done a then Num 1 else Num (-1))
  else if propertyNe (rankOf a) (rankOf b)
  then minus (propertyNumber (rankOf a)) (propertyNumber (rankOf b))
  else if operandNe (orInfinity (s_due a)) (orInfinity (s_due b))
  then minus (operandNumber (orInfinity (s_due a)))
             (operandNumber (orInfinity (s_due b)))
  else minus (toNumber C (s_createdAt a)) (toNumber C (s_createdAt b)).

Definition visible (filtered : list StoredTask) : list StoredTask :=
  sort visibleCompare filtered.

Definition byUrgency (a b : StoredTask) : number :=
  if propertyNe (rankOf a) (rankOf b)
  then minus (propertyNumber (rankOf a)) (propertyNumber (rankOf b))
  else minus (operandNumber (orInfinity (s_due a)))
             (operandNumber (orInfinity (s_due b))).

(** The comparator of the [done] column. *)
Definition byDue (a b : StoredTask) : number :=
  minus (operandNumber (orInfinity (s_due a)))
        (operandNumber (orInfinity (s_due b))).

Definition todayStart : Z := startOfDay zone now.
Definition todayEnd : Z := endOfDay zone now.
Definition weekEnd : Z := endOfDay zone (addDays zone now 7).

(** The column one task of the loop in [buckets] is pushed to. *)
Definition bucketOf (t : StoredTask) : BucketKey :=
  if s_done t then bdone
  else if truthy (s_due t)
          && leNumber (toNumber C (s_due t)) (Num todayEnd)
          && geNumber (toNumber C (s_due t)) (Num todayStart)
  then today
  else if truthy (s_due t)
          && gtNumber (toNumber C (s_due t)) (Num todayEnd)
          && leNumber (toNumber C (s_due t)) (Num weekEnd)
  then week
  else later.

Definition buckets (filtered : list StoredTask) : Buckets :=
  let out :=
    fold_left (fun out t => push (bucketOf t) t out) filtered
      {| out_today := []; out_week := []; out_later := []; out_done := [] |} in
  {| out_today := sort byUrgency (out_today out);
     out_week := sort byUrgency (out_week out);
     out_later := sort byUrgency (out_later out);
     out_done := sort byDue (out_done out) |}.

(** The Focus card: [tasks.filter((t) => !t.done).sort(...).slice(0, 5)];
    its comparator is written as the one of the kanban columns. *)
Definition focus (tasks : list StoredTask) : list StoredTask :=
  firstn 5 (sort byUrgency (filter (fun t => negb (s_done t)) tasks)).
End Organizer.

(** *** Effects: the store, alerts, exceptions *)

Record exn := { message : jsstring }.

Record World := {
  w_tasks : list StoredTask;      (* the [tasks] state *)
  w_alerts : list jsstring;       (* the texts shown by [alert] *)
  w_uids : nat                    (* how many ids [uid] has drawn *)
}.

(** A computation changes the world and returns a value or throws. *)
Definition M (A : Type) : Type := World -> World * (A + exn).

Definition ret {A} (a : A) : M A := fun w => (w, inl a).
Definition throw {A} (e : exn) : M A := fun w => (w, inr e).
Definition bind {A B} (m : M A) (k : A -> M B) : M B :=
  fun w => match m w with
           | (w', inl a) => k a w'
           | (w', inr e) => (w', inr e)
           end.
(** [try { body } catch (e) { handler(e) }] *)
Definition tryCatch {A} (body : M A) (handler : exn -> M A) : M A :=
  fun w => match body w with
           | (w', inl a) => (w', inl a)
           | (w', inr e) => handler e w'
           end.

Notation "x <- m ;; k" := (bind m (fun x => k))
  (at level 61, m at next level, right associativity).

Fixpoint mapM {A B} (f : A -> M B) (l : list A) : M (list B) :=
  match l with
  | [] => ret []
  | a :: r => b <- f a ;; bs <- mapM f r ;; ret (b :: bs)
  end.

(** [setTasks(f)] *)
Definition setTasks (f : list StoredTask -> list StoredTask) : M unit :=
  fun w => ({| w_tasks := f (w_tasks w); w_alerts := w_alerts w;
               w_uids := w_uids w |}, inl tt).

Definition alert (msg : jsstring) : M unit :=
  fun w => ({| w_tasks := w_tasks w; w_alerts := w_alerts w ++ [msg];
               w_uids := w_uids w |}, inl tt).

(** [const clamp = (n, min, max) => Math.max(min, Math.min(max, n))] *)
Definition clamp (n min max : Z) : Z := Z.max min (Z.min max n).

(** [xs.indexOf(v)] over strings, [-1] when absent *)
Fixpoint indexOfFrom (v : value) (xs : list jsstring) (i : Z) : Z :=
  match xs with
  | [] => -1
  | x :: r => if strictEqStr v x then i else indexOfFrom v r (i + 1)
  end.
Definition indexOf (xs : list jsstring) (v : value) : Z := indexOfFrom v xs 0.

(** [xs[i]] *)
Definition at_ (xs : list jsstring) (i : Z) : value :=
  if i <? 0 then Undefined
  else match nth_error xs (Z.to_nat i) with
       | Some s => VStr s
       | None => Undefined
       end.

Section Actions.
Variable U : Unicode.
Variable zone : TimeZone.
(** [Date.now()] and [new Date()] while an action runs. *)
Variable now : Z.
Variable chronoParse : jsstring -> Z -> list ParsedResult.
(** The successive results of [Math.random().toString(36).slice(2, 10)]. *)
Variable uidStream : nat -> jsstring.
(** [JSON.parse]: the value, or the message of the [SyntaxError]. *)
Variable JSON_parse : jsstring -> JSON + jsstring.
(** The message of the [TypeError] for a property read on [null]. *)
Variable nullReadMessage : jsstring.

Definition uid : M value :=
  fun w => ({| w_tasks := w_tasks w; w_alerts := w_alerts w;
               w_uids := S (w_uids w) |}, inl (VStr (uidStream (w_uids w)))).

(** [t.key] for an element [t] of a parsed array. *)
Definition getProp (t : JSON) (key : string) : M value :=
  match t with
  | JNull => throw {| message := nullReadMessage |}
  | JObj fields => ret (lookup key fields)
  | _ => ret Undefined
  end.

Definition addTaskFromInput (input notes : jsstring) : M unit :=
  match trim input with
  | [] => ret tt
  | _ =>
      let base := parseTask U now chronoParse (trim input) in
      i <- uid ;;
      let t := {|
        s_id := i;
        s_title := VStr (match d_title base with [] => trim input | x => x end);
        s_notes := match trim notes with [] => Undefined | n => VStr n end;
        s_createdAt := VNum now;
        s_due := optNum (d_due base);
        s_tags := Val (JArr (List.map JStr (d_tags base)));
        s_project :=
          match find (startsWith (str "proj:")) (d_tags base) with
          | Some x => VStr (skipn 5 x)
          | None => Undefined
          end;
        s_priority := VStr (priorityName (d_priority base));
        s_done := false;
        s_subtasks := Val (JArr [])
      |} in
      setTasks (fun arr => t :: arr)
  end.

Definition withDone (t : StoredTask) (d : bool) : StoredTask :=
  {| s_id := s_id t; s_title := s_title t; s_notes := s_notes t;
     s_createdAt := s_createdAt t; s_due := s_due t; s_tags := s_tags t;
     s_project := s_project t; s_priority := s_priority t; s_done := d;
     s_subtasks := s_subtasks t |}.
Definition withDueDone (t : StoredTask) (v : value) (d : bool) : StoredTask :=
  {| s_id := s_id t; s_title := s_title t; s_notes := s_notes t;
     s_createdAt := s_createdAt t; s_due := v; s_tags := s_tags t;
     s_project := s_project t; s_priority := s_priority t; s_done := d;
     s_subtasks := s_subtasks t |}.
Definition withPriority (t : StoredTask) (v : value) : StoredTask :=
  {| s_id := s_id t; s_title := s_title t; s_notes := s_notes t;
     s_createdAt := s_createdAt t; s_due := s_due t; s_tags := s_tags t;
     s_project := s_project t; s_priority := v; s_done := s_done t;
     s_subtasks := s_subtasks t |}.

Definition toggleDone (i : value) : M unit :=
  setTasks (List.map (fun t =>
    if strictEq (s_id t) i then withDone t (negb (s_done t)) else t)).

(** [confirmed] is the answer to [confirm("Delete this task?")]. *)
Definition removeTask (confirmed : bool) (i : value) : M unit :=
  if confirmed
  then setTasks (filter (fun t => negb (strictEq (s_id t) i)))
  else ret tt.

Definition updateTask (updated : StoredTask) : M unit :=
  setTasks (List.map (fun t =>
    if strictEq (s_id t) (s_id updated) then updated else t)).

Definition order : list jsstring := [str "low"; str "medium"; str "high"].

(** The body of the [map] in [bumpPriority]. *)
Definition bumpOne (i : value) (dir : Z) (t : StoredTask) : StoredTask :=
  if negb (strictEq (s_id t) i) then t
  else
    let idx := indexOf order (s_priority t) in
    let next := at_ order (clamp (idx + dir) 0 (Z.of_nat (length order) - 1)) in
    withPriority t next.

Definition bumpPriority (i : value) (dir : Z) : M unit :=
  setTasks (List.map (bumpOne i dir)).

(** The body of the [map] in [moveToBucket]. *)
Definition moveOne (i : value) (b : BucketKey) (t : StoredTask) : StoredTask :=
  if negb (strictEq (s_id t) i) then t
  else
    match b with
    | bdone => withDone t true
    | later => withDueDone t Undefined false
    | today =>
        let d := setHours zone now 17 0 0 0 in
        withDueDone t (VNum d) false
    | week =>
        let d := setHours zone (addDays zone now 3) 9 0 0 0 in
        withDueDone t (VNum d) false
    end.

Definition moveToBucket (i : value) (b : BucketKey) : M unit :=
  setTasks (List.map (moveOne i b)).

(** The object [importJSON] builds from one element of the array. *)
Definition normalize (t : JSON) : M StoredTask :=
  id0 <- getProp t "id" ;;
  i <- (if truthy id0 then ret id0 else uid) ;;
  title0 <- getProp t "title" ;;
  notes0 <- getProp t "notes" ;;
  created0 <- getProp t "createdAt" ;;
  due0 <- getProp t "due" ;;
  tags0 <- getProp t "tags" ;;
  project0 <- getProp t "project" ;;
  priority0 <- getProp t "priority" ;;
  done0 <- getProp t "done" ;;
  subtasks0 <- getProp t "subtasks" ;;
  ret {|
    s_id := i;
    s_title := orValue title0 (VStr (str "Untitled"));
    s_notes := orValue notes0 (VStr []);
    s_createdAt := orValue created0 (VNum now);
    s_due := orValue due0 Undefined;
    s_tags := if isArray tags0 then tags0 else Val (JArr []);
    s_project := orValue project0 Undefined;
    s_priority := orValue priority0 (VStr (str "medium"));
    s_done := truthy done0;
    s_subtasks := if isArray subtasks0 then subtasks0 else Val (JArr [])
  |}.

Definition importJSON (jsonText : jsstring) : M unit :=
  tryCatch
    (parsed <- (match JSON_parse jsonText with
                | inl v => ret v
                | inr msg => throw {| message := msg |}
                end) ;;
     match parsed with
     | JArr items =>
         cleaned <- mapM normalize items ;;
         setTasks (fun _ => cleaned)
     | _ => throw {| message := str "Invalid format" |}
     end)
    (fun e => alert (str "Couldn't import: " ++ message e)%list).
End Actions.

(** ** The persisted schema and the actions as a transition system *)

Definition isStr (v : value) : bool :=
  match v with Val (JStr _) => true | _ => false end.
Definition isInt (v : value) : bool :=
  match v with Val (JNum _) => true | _ => false end.
Definition isBool (v : value) : bool :=
  match v with Val (JBool _) => true | _ => false end.
Definition isUndefined (v : value) : bool :=
  match v with Undefined => true | _ => false end.

(** An element of [subtasks]: [{id, title, done}]. *)
Definition isSubtask (j : JSON) : bool :=
  match j with
  | JObj fs =>
      isStr (lookup "id" fs) && isStr (lookup "title" fs)
      && isBool (lookup "done" fs)
  | _ => false
  end.

(** A stored record conforms to the persisted schema: every required key
    is present with the stated type, the tags are lowercase strings, the
    priority is one of the three levels. *)
Definition conforms (U : Unicode) (t : StoredTask) : bool :=
  isStr (s_id t) && isStr (s_title t) && isStr (s_notes t)
  && isInt (s_createdAt t)
  && (isInt (s_due t) || isUndefined (s_due t))
  && match s_tags t with
     | Val (JArr l) =>
         forallb (fun j => match j with
                           | JStr s => jsstring_eqb (toLowerCase U s) s
                           | _ => false
                           end) l
     | _ => false
     end
  && (isStr (s_project t) || isUndefined (s_project t))
  && isLevel (s_priority t)
  && match s_subtasks t with
     | Val (JArr l) => forallb isSubtask l
     | _ => false
     end.

(** No field that [importJSON] reads through [||] holds a falsy value:
    the id and the title are not empty, [createdAt] is not 0, and [due]
    and [project], when present, are not 0 and not empty. *)
Definition keepsItsFields (t : StoredTask) : bool :=
  truthy (s_id t) && truthy (s_title t) && truthy (s_createdAt t)
  && (truthy (s_due t) || isUndefined (s_due t))
  && (truthy (s_project t) || isUndefined (s_project t)).

(** The priority of an imported record is absent (or falsy), or already
    one of the three levels. *)
Definition priorityImportable (j : JSON) : bool :=
  match j with
  | JObj fs =>
      negb (truthy (lookup "priority" fs)) || isLevel (lookup "priority" fs)
  | _ => true
  end.

(** The operations on the store. *)
Inductive action : Type :=
| AddTask (input notes : jsstring)
| ToggleDone (i : value)
| RemoveTask (confirmed : bool) (i : value)
| UpdateTask (updated : StoredTask)
| BumpPriority (i : value) (dir : Z)
| MoveToBucket (i : value) (b : BucketKey)
| ImportJSON (jsonText : jsstring).

Section Transitions.
Variable U : Unicode.
Variable zone : TimeZone.
Variable now : Z.
Variable chronoParse : jsstring -> Z -> list ParsedResult.
Variable uidStream : nat -> jsstring.
Variable JSON_parse : jsstring -> JSON + jsstring.
Variable nullReadMessage : jsstring.

Definition run (a : action) : M unit :=
  match a with
  | AddTask input notes => addTaskFromInput U now chronoParse uidStream input notes
  | ToggleDone i => toggleDone i
  | RemoveTask confirmed i => removeTask confirmed i
  | UpdateTask updated => updateTask updated
  | BumpPriority i dir => bumpPriority i dir
  | MoveToBucket i b => moveToBucket zone now i b
  | ImportJSON jsonText => importJSON now uidStream JSON_parse nullReadMessage jsonText
  end.

(** What an action brings into the store from outside it has a priority
    that is one of the three levels: the record an edit saves, the
    records of an imported array. *)
Definition bringsLevels (a : action) : bool :=
  match a with
  | UpdateTask updated => isLevel (s_priority updated)
  | ImportJSON jsonText =>
      match JSON_parse jsonText with
      | inl (JArr items) => forallb priorityImportable items
      | _ => true
      end
  | _ => true
  end.
End Transitions.

(** Every stored task has a priority that is one of the three levels. *)
Definition levelsOnly (w : World) : Prop :=
  Forall (fun t => isLevel (s_priority t) = true) (w_tasks w).

(** No stored task has a priority that is [undefined], [null] or
    otherwise falsy. *)
Definition prioritiesSet (w : World) : Prop :=
  Forall (fun t => truthy (s_priority t) = true) (w_tasks w).

(** [saveToFile("ai-tasks.json", JSON.stringify(tasks, null, 2))]: the
    text written to the file. *)
Definition exportText (JSON_stringify : JSON -> jsstring)
    (tasks : list StoredTask) : jsstring :=
  JSON_stringify (exportJSON tasks).

(** ** Examples *)

(** Quoted text inside a JSON document. *)
Definition quoted (s : string) : jsstring := (34%N :: str s ++ [34%N])%list.

(** A run time whose [JSON.parse] yields [v] for the text at hand. *)
Definition parsesTo (v : JSON) : jsstring -> JSON + jsstring := fun _ => inl v.

Definition emptyWorld : World := {| w_tasks := []; w_alerts := []; w_uids := 0 |}.

Definition someIds : nat -> jsstring := fun _ => str "k3x9q2ab".

(** A run time whose [JSON.stringify] writes [text] for the value at hand. *)
Definition printsAs (text : jsstring) : JSON -> jsstring := fun _ => text.

Definition epochTask : StoredTask := {|
  s_id := VStr (str "a1");
  s_title := VStr (str "Launch");
  s_notes := VStr [];
  s_createdAt := VNum 1700000000000;
  s_due := VNum 0;
  s_tags := Val (JArr [JStr (str "work")]);
  s_project := Undefined;
  s_priority := VStr (str "high");
  s_done := false;
  s_subtasks := Val (JArr [])
|}.

(** What [addTaskFromInput] stores for the tag [#proj:]: the project is
    the empty string. *)
Definition unnamedProjectTask : StoredTask := {|
  s_id := VStr (str "b2");
  s_title := VStr (str "Tidy up");
  s_notes := VStr [];
  s_createdAt := VNum 1700000000000;
  s_due := Undefined;
  s_tags := Val (JArr [JStr (str "proj:")]);
  s_project := VStr [];
  s_priority := VStr (str "medium");
  s_done := false;
  s_subtasks := Val (JArr [])
|}.

Definition plainTask : StoredTask := {|
  s_id := VStr (str "c3");
  s_title := VStr (str "Email Alex");
  s_notes := VStr [];
  s_createdAt := VNum 1700000000000;
  s_due := VNum 1700086400000;
  s_tags := Val (JArr [JStr (str "work")]);
  s_project := Undefined;
  s_priority := VStr (str "high");
  s_done := false;
  s_subtasks := Val (JArr [])
|}.

(** ** Orders on tasks *)

(** The fields the comparators read have their declared types: the
    priority is one of the three levels, the due date is a number or
    absent, the creation time is a number. *)
Definition sortable (t : StoredTask) : bool :=
  isLevel (s_priority t)
  && (isInt (s_due t) || isUndefined (s_due t))
  && isInt (s_createdAt t).

(** The rank of the priority: high 0, medium 1, low 2. *)
Definition rankKey (t : StoredTask) : Z :=
  match s_priority t with
  | Val (JStr s) => match pRankAt s with Own n => n | _ => 0 end
  | _ => 0
  end.

(** The due date as the specification words it: absent when the field
    holds no number. *)
Definition dueAsWorded (t : StoredTask) : option Z :=
  match s_due t with
  | Val (JNum d) => Some d
  | _ => None
  end.

(** The due date as the comparators read it: [None] stands for
    [Infinity], and so does a due date of 0. *)
Definition dueKey (t : StoredTask) : option Z :=
  match s_due t with
  | Val (JNum d) => if d =? 0 then None else Some d
  | _ => None
  end.

Definition createdKey (t : StoredTask) : Z :=
  match s_createdAt t with
  | Val (JNum c) => c
  | _ => 0
  end.

(** [x] is earlier than [y], where [None] is later than every instant. *)
Definition earlier (x y : option Z) : Prop :=
  match x, y with
  | Some a, Some b => a < b
  | Some _, None => True
  | None, _ => False
  end.

(** [a] ranks strictly before [b] in the list view: incomplete before
    complete, then by priority rank, then by due date (absent or 0 last),
    then by creation time. *)
Definition ranksBefore (a b : StoredTask) : Prop :=
  (s_done a = false /\ s_done b = true)
  \/ (s_done a = s_done b
      /\ (rankKey a < rankKey b
          \/ (rankKey a = rankKey b
              /\ (earlier (dueKey a) (dueKey b)
                  \/ (dueKey a = dueKey b /\ createdKey a < createdKey b))))).

(** The same order with the due date read as the specification words it:
    only an absent due date counts as infinity. *)
Definition ranksBeforeAsWorded (a b : StoredTask) : Prop :=
  (s_done a = false /\ s_done b = true)
  \/ (s_done a = s_done b
      /\ (rankKey a < rankKey b
          \/ (rankKey a = rankKey b
              /\ (earlier (dueAsWorded a) (dueAsWorded b)
                  \/ (dueAsWorded a = dueAsWorded b
                      /\ createdKey a < createdKey b))))).

(** [a] and [b] have equal sort keys. *)
Definition sameRank (a b : StoredTask) : bool :=
  Bool.eqb (s_done a) (s_done b)
  && (rankKey a =? rankKey b)
  && match dueKey a, dueKey b with
     | Some x, Some y => x =? y
     | None, None => true
     | _, _ => false
     end
  && (createdKey a =? createdKey b).

(** [a] is strictly more urgent than [b]: a higher priority, or the same
    priority and an earlier due date (absent or 0 counts as latest). *)
Definition urgentBefore (a b : StoredTask) : Prop :=
  rankKey a < rankKey b
  \/ (rankKey a = rankKey b /\ earlier (dueKey a) (dueKey b)).

(** [a] and [b] are equally urgent: the same priority and the same due
    date as the comparators read it. *)
Definition sameUrgency (a b : StoredTask) : bool :=
  (rankKey a =? rankKey b)
  && match dueKey a, dueKey b with
     | Some x, Some y => x =? y
     | None, None => true
     | _, _ => false
     end.

(** [x] stands before [y] in the list. *)
Definition standsBefore (A : Type) (x y : A) (l : list A) : Prop :=
  exists l1 l2 l3, l = (l1 ++ x :: l2 ++ y :: l3)%list.

(** [{ ...t, due: v }] *)
Definition setDue (t : StoredTask) (v : value) : StoredTask :=
  withDueDone t v (s_done t).

(** Every field but [due] and [done] is the same in [t] and [t']. *)
Definition sameButDueDone (t t' : StoredTask) : Prop :=
  s_id t' = s_id t /\ s_title t' = s_title t /\ s_notes t' = s_notes t
  /\ s_createdAt t' = s_createdAt t /\ s_tags t' = s_tags t
  /\ s_project t' = s_project t /\ s_priority t' = s_priority t
  /\ s_subtasks t' = s_subtasks t.

(** The sort key of a task in numbers, and the order of [ranksBefore] on
    the keys. *)
Definition doneKey (t : StoredTask) : Z := if s_done t then 1 else 0.
Definition noDueKey (t : StoredTask) : Z :=
  match dueKey t with Some _ => 0 | None => 1 end.
Definition dueValue (t : StoredTask) : Z :=
  match dueKey t with Some d => d | None => 0 end.

Definition keyBefore (a b : StoredTask) : Prop :=
  doneKey a < doneKey b
  \/ (doneKey a = doneKey b
      /\ (rankKey a < rankKey b
          \/ (rankKey a = rankKey b
              /\ (noDueKey a < noDueKey b
                  \/ (noDueKey a = noDueKey b
                      /\ (dueValue a < dueValue b
                          \/ (dueValue a = dueValue b
                              /\ createdKey a < createdKey b))))))).

(** The number a due date stands for in a comparison. *)
Definition dueNumber (d : option Z) : number :=
  match d with Some z => Num z | None => Infinity end.

(** [k1 === k2] on bucket keys. *)
Definition BucketKey_eqb (a b : BucketKey) : bool :=
  match a, b with
  | today, today | week, week | later, later | bdone, bdone => true
  | _, _ => false
  end.

(** ** Local times *)

(** The zone shows the local time [t] at the instant it gives to it: no
    clock change skips [t]. *)
Definition readsBack (zone : TimeZone) (t : Z) : Prop :=
  LocalTime zone (UTC zone t) = t.

(** The zone puts the local time [t] on its own calendar day: a clock
    change may move it, but not to another day. *)
Definition keepsDay (zone : TimeZone) (t : Z) : Prop :=
  localDay zone (UTC zone t) = t / msPerDay.

(** The time of day [h:m:s.ms] in milliseconds. *)
Definition timeOfDay (h m s ms : Z) : Z := ((h * 60 + m) * 60 + s) * 1000 + ms.

(** A zone with daylight saving, for the examples: the two clock changes
    of the eastern United States in 2024. Local time is five hours
    behind UTC until 2024-03-10T07:00Z, four hours behind until
    2024-11-03T06:00Z, five hours behind after. The local hour from
    02:00 that the first change skips and the local hour from 01:00
    that the second repeats are read with the offset before the
    change. *)
Definition easternTime : TimeZone :=
  {| offsetAt := fun t =>
       if t <? 1710054000000 then -18000000
       else if t <? 1730613600000 then -14400000
       else -18000000;
     offsetOfLocal := fun t =>
       if t <? 1710039600000 then -18000000
       else if t <? 1730599200000 then -14400000
       else -18000000 |}.

(** A task as [addTaskFromInput] stores it, for the examples. *)
Definition exampleTask (i : string) (created : Z) (d : value) (p : string)
    (dn : bool) : StoredTask :=
  {| s_id := VStr (str i); s_title := VStr (str "report"); s_notes := Undefined;
     s_createdAt := VNum created; s_due := d;
     s_tags := Val (JArr []); s_project := Undefined;
     s_priority := VStr (str p); s_done := dn; s_subtasks := Val (JArr []) |}.

Local Open Scope N_scope.

(** ** The regular expressions of the source, read directly

    What each regular expression matches at the head of a string, written
    as a plain function; the lemmas below show that the matcher computes
    the same. *)

(** [s] starts with the word [w], characters compared by [eq]. *)
Fixpoint prefixBy (eq : N -> N -> bool) (w s : jsstring) : bool :=
  match w, s with
  | [], _ => true
  | a :: w', x :: s' => eq a x && prefixBy eq w' s'
  | _ :: _, [] => false
  end.

(** The character before a position, after [consumed] has been read. *)
Definition lastOf (prev : option N) (consumed : jsstring) : option N :=
  match rev consumed with x :: _ => Some x | [] => prev end.

(** The number of code units of the longest prefix of [s] made of
    characters of the class [p], a surrogate pair read as one character. *)
Fixpoint classRunU (p : N -> bool) (s : jsstring) : nat :=
  match s with
  | [] => O
  | c :: s' =>
      if isHighSurrogate c then
        match s' with
        | lo :: s'' =>
            if isLowSurrogate lo then
              if p (codePointOfPair c lo) then S (S (classRunU p s'')) else O
            else if p c then S (classRunU p s') else O
        | [] => if p c then 1%nat else O
        end
      else if p c then S (classRunU p s') else O
  end.

(** The same, every code unit read as a character. *)
Fixpoint classRun (p : N -> bool) (s : jsstring) : nat :=
  match s with
  | c :: s' => if p c then S (classRun p s') else O
  | [] => O
  end.

(** The length of the tag at the head of [s]: a [#] and the longest run
    of tag characters after it, which is not empty. *)
Definition tagLen (U : Unicode) (s : jsstring) : option nat :=
  match s with
  | c :: r =>
      if c =? ch "#" then
        match classRunU (tagClass U) r with
        | O => None
        | n => Some (S n)
        end
      else None
  | [] => None
  end.

(** The length of the priority marker at the head of [s]. *)
Definition prLen (U : Unicode) (s : jsstring) : option nat :=
  match s with
  | c :: r =>
      if sameChar U flag_i (ch "!") c then
        if prefixBy (sameChar U flag_i) (str "high") r then Some 5%nat
        else if prefixBy (sameChar U flag_i) (str "med") r then
          if prefixBy (sameChar U flag_i) (str "ium") (skipn 3 r)
          then Some 7%nat else Some 4%nat
        else if prefixBy (sameChar U flag_i) (str "low") r then Some 4%nat
        else None
      else None
  | [] => None
  end.

(** The length of the run of two or more white-space characters at the
    head of [s]. *)
Definition spacesLen (s : jsstring) : option nat :=
  if Nat.leb 2 (classRun isSpace s) then Some (classRun isSpace s) else None.

(** No match starts at any position of [s], for a matcher that gives the
    length of the match at the head of a string. *)
Fixpoint noMatch (len : jsstring -> option nat) (s : jsstring) : Prop :=
  len s = None /\ match s with [] => True | _ :: s' => noMatch len s' end.

(** The stages of the cleaning in [extractTokens]. *)
Definition removeTags (U : Unicode) (s : jsstring) : jsstring :=
  replaceAll U flag_u (tagRe U) [] s.
Definition removeMarkers (U : Unicode) (s : jsstring) : jsstring :=
  replaceAll U flag_i prRe [] s.
Definition collapseSpaces (U : Unicode) (s : jsstring) : jsstring :=
  replaceAll U noFlags spacesRe (str " ") s.

(** [s] starts with a tag character. *)
Definition tagStart (U : Unicode) (s : jsstring) : bool :=
  match classRunU (tagClass U) s with O => false | S _ => true end.

(** A text is well formed when its surrogates come in pairs: every high
    surrogate is followed by a low one, and no low one stands alone. *)
Fixpoint wellFormed (s : jsstring) : bool :=
  match s with
  | [] => true
  | c :: r =>
      if isHighSurrogate c then
        match r with
        | lo :: r' => isLowSurrogate lo && wellFormed r'
        | [] => false
        end
      else negb (isLowSurrogate c) && wellFormed r
  end.

(** [s] is empty or starts with a white-space character. *)
Definition delimited (s : jsstring) : bool :=
  match s with [] => true | c :: _ => isSpace c end.

(** Every priority marker in [s] is followed by white space or by the
    end of the text. *)
Fixpoint markersDelimited (U : Unicode) (s : jsstring) : bool :=
  match s with
  | [] => true
  | _ :: r =>
      match matchAt U flag_i prRe None s with
      | Some (n, _) => delimited (skipn n s)
      | None => true
      end
      && markersDelimited U r
  end.

(** An ASCII letter. *)
Definition isLetter (c : N) : bool := isUpperAZ c || isLowerAZ c.

(** A word of lower-case ASCII letters. *)
Definition lowerWord (w : jsstring) : bool := forallb isLowerAZ w.

(** ** Priority rules in plain terms *)

(** [w] occurs in [s] as a whole word: not preceded and not followed by
    a word character. [prev] is the character before [s]. *)
Fixpoint hasWordFrom (w : jsstring) (prev : option N) (s : jsstring) : bool :=
  (negb (isWordAt prev) && startsWith w s
   && negb (isWordAt (hd_error (skipn (length w) s))))
  || match s with
     | [] => false
     | c :: s' => hasWordFrom w (Some c) s'
     end.

Definition hasWord (w s : jsstring) : bool := hasWordFrom w None s.

(** Some suffix of [s] satisfies [h], which is told the character before
    the suffix. *)
Fixpoint existsFrom (h : option N -> jsstring -> bool) (prev : option N)
    (s : jsstring) : bool :=
  h prev s
  || match s with
     | [] => false
     | c :: s' => existsFrom h (Some c) s'
     end.

Local Open Scope Z_scope.

(** The rules of [inferPriority], first match wins: a marker [!high],
    [!important] or [!urgent], or one of the words urgent, asap, critical,
    today: high; a marker [!med]: medium; a marker [!low]: low; a due date
    that is set, not 0 and at most 24 hours away: high; at most 72 hours
    away: medium; one of the words review, plan, someday: low; otherwise
    medium. *)
Definition inferRules (U : Unicode) (now : Z) (text : jsstring)
    (due : option Z) : Priority :=
  let t := toLowerCase U text in
  let byText :=
    if hasWord (str "review") t || hasWord (str "plan") t
       || hasWord (str "someday") t
    then low else medium in
  if includes (str "!high") t || includes (str "!important") t
     || includes (str "!urgent") t
     || hasWord (str "urgent") t || hasWord (str "asap") t
     || hasWord (str "critical") t || hasWord (str "today") t
  then high
  else if includes (str "!med") t then medium
  else if includes (str "!low") t then low
  else
    match due with
    | Some d =>
        if negb (d =? 0) && (d - now <=? 24 * 3600000) then high
        else if negb (d =? 0) && (d - now <=? 72 * 3600000) then medium
        else byText
    | None => byText
    end.

(** The five rules as the specification words them, applied to a text:
    urgency words; a due date at most 24 hours away; at most 72 hours
    away; planning words; medium. *)
Definition inferAsWorded (U : Unicode) (now : Z) (text : jsstring)
    (due : option Z) : Priority :=
  let t := toLowerCase U text in
  if hasWord (str "urgent") t || hasWord (str "asap") t
     || hasWord (str "critical") t || hasWord (str "today") t
  then high
  else
    match due with
    | Some d =>
        if d - now <=? 24 * 3600000 then high
        else if d - now <=? 72 * 3600000 then medium
        else if hasWord (str "review") t || hasWord (str "plan") t
                || hasWord (str "someday") t
        then low else medium
    | None =>
        if hasWord (str "review") t || hasWord (str "plan") t
           || hasWord (str "someday") t
        then low else medium
    end.

Local Close Scope Z_scope.

(** [w1|w2|...] for literal words. *)
Fixpoint altOf (ws : list jsstring) : regex :=
  match ws with
  | [] => Class (fun _ => false)
  | [w] => lit w
  | w :: ws' => Alt (lit w) (altOf ws')
  end.

(** [w] stands at the head of [s] as a whole word. *)
Definition wordAt (w : jsstring) (prev : option N) (s : jsstring) : bool :=
  negb (isWordAt prev) && startsWith w s
  && negb (isWordAt (hd_error (skipn (length w) s))).

(** A word that begins and ends with a word character. *)
Definition wordy (w : jsstring) : bool :=
  isWordAt (hd_error w) && isWordAt (lastOf None w).

Definition isSome {A} (o : option A) : bool :=
  match o with Some _ => true | None => false end.

Local Open Scope Z_scope.

(** ** What the store operations keep *)

(** An action that rewrites tasks where they stand: it maps over the
    collection. *)
Definition inPlace (a : action) : bool :=
  match a with
  | ToggleDone _ | UpdateTask _ | BumpPriority _ _ | MoveToBucket _ _ => true
  | AddTask _ _ | RemoveTask _ _ | ImportJSON _ => false
  end.

(** The id an action is aimed at. *)
Definition targetOf (a : action) : value :=
  match a with
  | ToggleDone i | RemoveTask _ i | BumpPriority i _ | MoveToBucket i _ => i
  | UpdateTask updated => s_id updated
  | AddTask _ _ | ImportJSON _ => Undefined
  end.

(** [t'] has the id, title, notes, creation time, tags, project and
    subtasks of [t]. *)
Definition sameContent (t t' : StoredTask) : Prop :=
  s_id t' = s_id t /\ s_title t' = s_title t /\ s_notes t' = s_notes t
  /\ s_createdAt t' = s_createdAt t /\ s_tags t' = s_tags t
  /\ s_project t' = s_project t /\ s_subtasks t' = s_subtasks t.

(** What [importJSON] guarantees of a record it stores, whatever the
    element of the array was: the title, the creation time and the
    priority are truthy, the notes are truthy or the empty text, the due
    date and the project are truthy or [undefined], and [tags] and
    [subtasks] are arrays. *)
Definition imported (t : StoredTask) : bool :=
  truthy (s_title t)
  && (truthy (s_notes t) || strictEq (s_notes t) (VStr []))
  && truthy (s_createdAt t)
  && (truthy (s_due t) || isUndefined (s_due t))
  && isArray (s_tags t)
  && (truthy (s_project t) || isUndefined (s_project t))
  && truthy (s_priority t)
  && isArray (s_subtasks t).

(** The element is [null]. *)
Definition isNull (j : JSON) : bool :=
  match j with JNull => true | _ => false end.

(** A text made of white space only (the empty text too). *)
Definition blank (s : jsstring) : bool := forallb isSpace s.

(** ** The derived lists of the component *)

(** [a < b] on strings: the order of their UTF-16 code units, which
    [Array.prototype.sort()] uses when no comparator is given. *)
Fixpoint ltString (a b : jsstring) : bool :=
  match a, b with
  | _, [] => false
  | [], _ :: _ => true
  | x :: a', y :: b' => (x <? y)%N || ((x =? y)%N && ltString a' b')
  end.

(** The comparison [sort()] makes without a comparator. *)
Definition defaultCompare (a b : jsstring) : number :=
  if ltString a b then Num (-1) else if ltString b a then Num 1 else Num 0.

(** [allTags]: [Array.from(new Set(tasks.flatMap((t) => t.tags))).sort()] *)
Definition allTags (tasks : list Task) : list jsstring :=
  sort defaultCompare (arrayFromSet (flat_map tags tasks)).

(** [xs.filter(Boolean)] on optional strings: [undefined] and the empty
    string are dropped. *)
Definition filterBoolean (xs : list (option jsstring)) : list jsstring :=
  flat_map (fun o => match o with Some ((_ :: _) as p) => [p] | _ => [] end) xs.

(** [allProjects] *)
Definition allProjects (tasks : list Task) : list jsstring :=
  sort defaultCompare (arrayFromSet (filterBoolean (List.map project tasks))).

(** A text with its ASCII capitals in lower case. *)
Definition asciiLower (s : jsstring) : jsstring :=
  List.map (fun c => if isUpperAZ c then (c + 32)%N else c) s.

(** The text of a task that the search looks into:
    [t.title + " " + (t.notes || "") + " " + t.tags.join(" ")]. *)
Definition haystack (t : Task) : jsstring :=
  (title t ++ str " " ++ match notes t with Some n => n | None => [] end
   ++ str " " ++ join (str " ") (tags t))%list.

(** [{ ...t, due: d, done: b }] on a task of the declared type. *)
Definition setDueDone (t : Task) (d : option Z) (b : bool) : Task :=
  {| id := id t; title := title t; notes := notes t; createdAt := createdAt t;
     due := d; tags := tags t; project := project t; priority := priority t;
     done := b; subtasks := subtasks t |}.

Local Open Scope N_scope.

(** ** Tidy text and the tags field of the edit dialog *)

Definition isSpaceAt (o : option N) : bool :=
  match o with Some c => isSpace c | None => false end.

(** No two white-space characters stand side by side. *)
Fixpoint noSpacePair (s : jsstring) : bool :=
  match s with
  | a :: r =>
      match r with
      | b :: _ => negb (isSpace a && isSpace b) && noSpacePair r
      | [] => true
      end
  | [] => true
  end.

(** A text that neither starts nor ends with white space and has no two
    white-space characters side by side. *)
Definition tidy (s : jsstring) : bool :=
  noSpacePair s && negb (isSpaceAt (hd_error s))
  && negb (isSpaceAt (lastOf None s)).

(** The tags field of the edit dialog shows
    [editing.tags.map((t) => `#${t}`).join(" ")]. *)
Definition tagsField (tags : list jsstring) : jsstring :=
  join (str " ") (List.map (fun t => ch "#" :: t) tags).

(** What its [onBlur] handler reads back from the field. *)
Definition tagsOfField (U : Unicode) (value : jsstring) : list jsstring :=
  arrayFromSet
    (List.map (fun m => toLowerCase U (nth 0 m []))
              (matchAll U flag_u (tagRe U) value)).

(** [tags.find((x) => x.startsWith("proj:"))?.slice(5)] *)
Definition projectOfTags (tags : list jsstring) : option jsstring :=
  match find (startsWith (str "proj:")) tags with
  | Some x => Some (skipn 5 x)
  | None => None
  end.

(** A text the tag pattern takes whole: it is not empty and is made of
    characters of [[\p{L}\p{N}_:-]] only. *)
Definition isTag (U : Unicode) (t : jsstring) : bool :=
  match classRunU (tagClass U) t with
  | O => false
  | n => Nat.eqb n (length t)
  end.

Local Open Scope Z_scope.

(** ** The edit dialog *)

(** What the user does to the task held in [editing]. *)
Inductive edit : Type :=
| TypeTitle (v : jsstring)      (* [onChange] of the title *)
| TypeNotes (v : jsstring)      (* [onChange] of the notes *)
| EnterDue (v : jsstring)       (* Enter in the due-date input *)
| PickPriority (p : Priority)   (* one of the three buttons *)
| LeaveTags (v : jsstring).     (* [onBlur] of the tags input *)

Section EditDialog.
Variable U : Unicode.
Variable now : Z.
Variable chronoParse : jsstring -> Z -> list ParsedResult.

(** [setEditing({ ...editing, ... })] of each handler. *)
Definition applyEdit (e : edit) (editing : Task) : Task :=
  match e with
  | TypeTitle v =>
      {| id := id editing; title := v; notes := notes editing;
         createdAt := createdAt editing; due := due editing;
         tags := tags editing; project := project editing;
         priority := priority editing; done := done editing;
         subtasks := subtasks editing |}
  | TypeNotes v =>
      {| id := id editing; title := title editing; notes := Some v;
         createdAt := createdAt editing; due := due editing;
         tags := tags editing; project := project editing;
         priority := priority editing; done := done editing;
         subtasks := subtasks editing |}
  | EnterDue v =>
      let p := parseTask U now chronoParse v in
      {| id := id editing; title := title editing; notes := notes editing;
         createdAt := createdAt editing; due := d_due p;
         tags := tags editing; project := project editing;
         priority := priority editing; done := done editing;
         subtasks := subtasks editing |}
  | PickPriority p =>
      {| id := id editing; title := title editing; notes := notes editing;
         createdAt := createdAt editing; due := due editing;
         tags := tags editing; project := project editing;
         priority := p; done := done editing;
         subtasks := subtasks editing |}
  | LeaveTags v =>
      let tags' := tagsOfField U v in
      {| id := id editing; title := title editing; notes := notes editing;
         createdAt := createdAt editing; due := due editing;
         tags := tags'; project := projectOfTags tags';
         priority := priority editing; done := done editing;
         subtasks := subtasks editing |}
  end.

(** The task in [editing] after a sequence of edits on [t]. *)
Definition editSession (edits : list edit) (t : Task) : Task :=
  fold_left (fun editing e => applyEdit e editing) edits t.

(** The Save button: [updateTask(editing)]. *)
Definition saveEdit (editing : Task) : M unit := updateTask (ofTask editing).
End EditDialog.

(** [x.id === s.id ? { ...x, done: checked } : x] *)
Definition checkOne (sid : jsstring) (checked : bool) (x : Subtask) : Subtask :=
  if jsstring_eqb (sub_id x) sid
  then {| sub_id := sub_id x; sub_title := sub_title x; sub_done := checked |}
  else x.

(** [{ ...t, subtasks: l }] *)
Definition setSubtasks (t : Task) (l : list Subtask) : Task :=
  {| id := id t; title := title t; notes := notes t; createdAt := createdAt t;
     due := due t; tags := tags t; project := project t;
     priority := priority t; done := done t; subtasks := Some l |}.

(** The checkbox of a subtask of the task [t] shown in the list:
    [updateTask({ ...t, subtasks: t.subtasks!.map(...) })].
    [undefinedReadMessage] is the message of the [TypeError] for a
    property read on [undefined]. *)
Definition checkSubtask (undefinedReadMessage : jsstring) (t : Task)
    (sid : jsstring) (checked : bool) : M unit :=
  match subtasks t with
  | Some subs => updateTask (ofTask (setSubtasks t (List.map (checkOne sid checked) subs)))
  | None => throw {| message := undefinedReadMessage |}
  end.

(** ** The assistant *)

(** [/summarize/i] and [/break down/i] *)
Definition summarizeRe : regex := lit (str "summarize").
Definition breakDownRe : regex := lit (str "break down").

(** The three answers [callLLM] gives without an API key (the
    apostrophe of the source is U+2019). *)
Definition mockPlan : jsstring :=
  (str "Here" ++ [8217%N]
   ++ str "s a quick plan: focus on high-priority items due today, then tackle medium ones due this week. Leave low-priority tasks for later.")%list.
Definition mockSubtasks : jsstring :=
  str "Subtasks: 1) Clarify scope, 2) List resources, 3) Set milestones, 4) Schedule work blocks, 5) Review & adjust.".
Definition mockAdvice : jsstring :=
  (str "(Mock AI) I" ++ [8217%N]
   ++ str "d prioritize urgent, time-bound tasks first, then group related work for flow. Add deadlines when possible.")%list.

(** [v?.key], for a key that no prototype defines: the own property of
    an object, [undefined] for every other value. *)
Definition optGet (v : value) (key : string) : value :=
  match v with
  | Val (JObj fields) => lookup key fields
  | _ => Undefined
  end.

(** [v?.[0]]: the first element of an array, the first code unit of a
    string, the property ["0"] of an object. *)
Definition optFirst (v : value) : value :=
  match v with
  | Val (JArr (x :: _)) => Val x
  | Val (JStr (c :: _)) => VStr [c]
  | Val (JObj fields) => lookup "0" fields
  | _ => Undefined
  end.

(** [aiKey || undefined] *)
Definition keyOrUndefined (aiKey : jsstring) : option jsstring :=
  match aiKey with [] => None | _ => Some aiKey end.

Section Assistant.
Variable U : Unicode.
Variable zone : TimeZone.
(** [new Date()] when a prompt is built. *)
Variable now : Z.
(** [fetch] of the completion for a key and a prompt, then [res.json()]:
    the parsed body, or what either of them rejects with. *)
Variable fetchJSON : jsstring -> jsstring -> JSON + exn.
(** The message of the [TypeError] for calling what is not a function,
    and of the [RangeError] of [toISOString] on an invalid date. *)
Variable notAFunctionMessage : jsstring.
Variable invalidTimeMessage : jsstring.
(** [new Date(ms).toLocaleTimeString([], {hour, minute})] and
    [new Date(ms).toISOString()] on a valid date. *)
Variable toLocaleTimeString : Z -> jsstring.
Variable toISOString : Z -> jsstring.

(** [v?.trim()] *)
Definition optTrim (v : value) : M value :=
  match v with
  | Undefined | Val JNull => ret Undefined
  | Val (JStr s) => ret (VStr (trim s))
  | _ => throw {| message := notAFunctionMessage |}
  end.

Definition callLLM (prompt : jsstring) (apiKey : option jsstring) : M jsstring :=
  match apiKey with
  | Some ((_ :: _) as key) =>
      tryCatch
        (json <- (fun w => (w, fetchJSON key prompt)) ;;
         text <- optTrim
                   (optGet (optGet (optFirst (optGet (Val json) "choices"))
                                   "message") "content") ;;
         ret (match text with
              | Val (JStr ((_ :: _) as s)) => s
              | _ => str "No response from the model."
              end))
        (fun _ => ret (str "AI call failed. Using local heuristic instead."))
  | _ =>
      if test U flag_i summarizeRe prompt then ret mockPlan
      else if test U flag_i breakDownRe prompt then ret mockSubtasks
      else ret mockAdvice
  end.

(** One line of the day's list: a bullet (U+2022), the title and, for
    a task with a due date, its time. *)
Definition upcomingLine (t : Task) : jsstring :=
  ([8226%N] ++ str " " ++ title t
   ++ match due t with
      | Some d =>
          if truthyNum (due t)
          then str " (due " ++ toLocaleTimeString d ++ str ")"
          else []
      | None => []
      end)%list.

(** The tasks of [summarizeDay]: not done and due on today's local
    date ([toDateString] of the two dates is the same text). *)
Definition upcoming (tasks : list Task) : jsstring :=
  join [10%N]
    (List.map upcomingLine
       (filter (fun t => match due t with
                         | Some d =>
                             truthyNum (due t)
                             && (localDay zone d =? localDay zone now)
                         | None => false
                         end)
               (filter (fun t => negb (done t)) tasks))).

Definition summarizePrompt (tasks : list Task) : jsstring :=
  (str "Summarize my day and propose a focused 3-step plan. Today's tasks (not done):"
   ++ [10%N]
   ++ match upcoming tasks with [] => str "(none listed)" | u => u end)%list.

(** [summarizeDay]: the text it hands to [setAiOutput]. *)
Definition summarizeDay (tasks : list Task) (aiKey : jsstring) : M jsstring :=
  callLLM (summarizePrompt tasks) (keyOrUndefined aiKey).

(** [new Date(ms).toISOString()]: a [RangeError] beyond the range of
    dates, 8.64e15 milliseconds either side of the epoch. *)
Definition isoText (ms : Z) : M jsstring :=
  if Z.abs ms <=? 8640000000000000 then ret (toISOString ms)
  else throw {| message := invalidTimeMessage |}.

Definition breakDownPrompt (taskTitle dueText : jsstring) : jsstring :=
  (str "Break down this task into 3-6 clear subtasks with verbs: "
   ++ [34%N] ++ taskTitle ++ [34%N]
   ++ str ". Consider due date: " ++ dueText
   ++ str ". Return a simple list.")%list.

(** [breakDownTask]: the text it hands to [setAiOutput]. *)
Definition breakDownTask (task : Task) (aiKey : jsstring) : M jsstring :=
  dueText <- match due task with
             | Some d => if truthyNum (due task) then isoText d
                         else ret (str "none")
             | None => ret (str "none")
             end ;;
  callLLM (breakDownPrompt (title task) dueText) (keyOrUndefined aiKey).
End Assistant.

(** * Properties *)

(** ** Import *)

Section ImportFacts.
Variable now : Z.
Variable uidStream : nat -> jsstring.
Variable JSON_parse : jsstring -> JSON + jsstring.
Variable nullReadMessage : jsstring.

Let normalizeHere := normalize now uidStream nullReadMessage.
Let importHere := importJSON now uidStream JSON_parse nullReadMessage.

Lemma world_eta (w : World) :
  {| w_tasks := w_tasks w; w_alerts := w_alerts w; w_uids := w_uids w |} = w.
Proof. destruct w; reflexivity. Qed.

(** [importJSON] returns normally on every input: whatever its body
    throws is caught, and the handler only alerts. *)
Lemma importJSON_returns (jsonText : jsstring) (w : World) :
  snd (importHere jsonText w) = inl tt.
Proof.
  unfold importHere, importJSON, tryCatch, bind.
  destruct (JSON_parse jsonText) as [v | msg]; cbn.
  - destruct v; cbn; try reflexivity.
    destruct (mapM _ items w) as [w' [cleaned | e]]; reflexivity.
  - reflexivity.
Qed.

(** Reading the records of an array neither stores nor alerts. *)
Lemma normalize_frame (t : JSON) (w w' : World) (r : StoredTask + exn) :
  normalizeHere t w = (w', r) ->
  w_tasks w' = w_tasks w /\ w_alerts w' = w_alerts w.
Proof.
  unfold normalizeHere, normalize, getProp.
  destruct t; cbn; try (intros [= <- _]; split; reflexivity);
    destruct (truthy _); cbn; intros [= <- _]; split; reflexivity.
Qed.

Lemma mapM_normalize_frame (items : list JSON) (w w' : World)
    (r : list StoredTask + exn) :
  mapM normalizeHere items w = (w', r) ->
  w_tasks w' = w_tasks w /\ w_alerts w' = w_alerts w.
Proof.
  revert w w' r; induction items as [| t items IH]; intros w w' r.
  - cbn. intros [= <- _]; split; reflexivity.
  - cbn [mapM]. unfold bind.
    destruct (normalizeHere t w) as [w1 [b | e]] eqn:Hn.
    + destruct (mapM normalizeHere items w1) as [w2 [bs | e]] eqn:Hm;
        cbn; intros [= <- _];
        destruct (normalize_frame _ _ Hn), (IH _ _ _ Hm); split; congruence.
    + intros [= <- _]. exact (normalize_frame _ _ Hn).
Qed.

(** When the body throws, the store is the one before the call. *)
Lemma importJSON_alert_keeps_tasks (jsonText : jsstring) (w : World) :
  w_alerts (fst (importHere jsonText w)) <> w_alerts w ->
  w_tasks (fst (importHere jsonText w)) = w_tasks w.
Proof.
  unfold importHere, importJSON, tryCatch, bind.
  destruct (JSON_parse jsonText) as [v | msg]; cbn; [| reflexivity].
  destruct v; cbn; try reflexivity.
  destruct (mapM _ items w) as [w' [cleaned | e]] eqn:Hm; cbn.
  - intros H. destruct (mapM_normalize_frame _ _ Hm) as [_ Ha].
    contradiction.
  - intros _. exact (proj1 (mapM_normalize_frame _ _ Hm)).
Qed.

(** What [normalize] returns for an object. *)
Lemma normalize_object (fields : list (string * JSON)) (w : World) :
  exists w' i,
    normalizeHere (JObj fields) w =
      (w', inl {|
        s_id := i;
        s_title := orValue (lookup "title" fields) (VStr (str "Untitled"));
        s_notes := orValue (lookup "notes" fields) (VStr []);
        s_createdAt := orValue (lookup "createdAt" fields) (VNum now);
        s_due := orValue (lookup "due" fields) Undefined;
        s_tags := if isArray (lookup "tags" fields) then lookup "tags" fields
                  else Val (JArr []);
        s_project := orValue (lookup "project" fields) Undefined;
        s_priority := orValue (lookup "priority" fields) (VStr (str "medium"));
        s_done := truthy (lookup "done" fields);
        s_subtasks := if isArray (lookup "subtasks" fields)
                      then lookup "subtasks" fields else Val (JArr [])
      |})
    /\ (truthy (lookup "id" fields) = true -> w' = w /\ i = lookup "id" fields).
Proof.
  unfold normalizeHere, normalize, getProp, bind, ret.
  destruct (truthy (lookup "id" fields)) eqn:Hid.
  - do 2 eexists; split; [reflexivity | auto].
  - unfold uid. do 2 eexists; split; [reflexivity | discriminate].
Qed.

(** The priority [normalize] stores is never falsy, and is the record's
    own whenever that is truthy. *)
Lemma normalize_priority (t : JSON) (w w' : World) (r : StoredTask) :
  normalizeHere t w = (w', inl r) ->
  truthy (s_priority r) = true /\
  (priorityImportable t = true -> isLevel (s_priority r) = true).
Proof.
  destruct t.
  1: unfold normalizeHere, normalize, getProp, bind, throw; cbn; discriminate.
  1-4: unfold normalizeHere, normalize, getProp, bind, ret, uid; cbn;
    intros [= _ <-]; cbn; split; reflexivity.
  destruct (normalize_object fields w) as (w1 & i & -> & _).
  intros [= _ <-]; cbn [s_priority priorityImportable]. unfold orValue.
  destruct (truthy (lookup "priority" fields)) eqn:Hp; cbn.
  - split; [exact Hp | auto].
  - split; reflexivity.
Qed.

Lemma mapM_normalize_priority (items : list JSON) (w w' : World)
    (cleaned : list StoredTask) :
  mapM normalizeHere items w = (w', inl cleaned) ->
  Forall (fun t => truthy (s_priority t) = true) cleaned /\
  (forallb priorityImportable items = true ->
   Forall (fun t => isLevel (s_priority t) = true) cleaned).
Proof.
  revert w w' cleaned; induction items as [| t items IH]; intros w w' cleaned.
  - cbn. intros [= _ <-]. split; constructor.
  - cbn [mapM forallb]. unfold bind.
    destruct (normalizeHere t w) as [w1 [b | e]] eqn:Hn; [| discriminate].
    destruct (mapM normalizeHere items w1) as [w2 [bs | e]] eqn:Hm; [| discriminate].
    cbn. intros [= _ <-].
    destruct (normalize_priority _ _ Hn) as [Ht Hl].
    destruct (IH _ _ _ Hm) as [Hts Hls].
    split; [constructor; assumption |].
    intros [H1 H2]%andb_prop. constructor; auto.
Qed.

(** The store after [importJSON]: the one before, or the normalized
    records of the array. *)
Lemma importJSON_tasks (jsonText : jsstring) (w : World) :
  w_tasks (fst (importHere jsonText w)) = w_tasks w \/
  exists items w' cleaned,
    JSON_parse jsonText = inl (JArr items) /\
    mapM normalizeHere items w = (w', inl cleaned) /\
    w_tasks (fst (importHere jsonText w)) = cleaned.
Proof.
  unfold importHere, importJSON, tryCatch, bind.
  destruct (JSON_parse jsonText) as [v | msg]; cbn; [| now left].
  destruct v; cbn; try now left.
  destruct (mapM _ items w) as [w' [cleaned | e]] eqn:Hm; cbn.
  - right. exists items, w', cleaned. auto.
  - left. exact (proj1 (mapM_normalize_frame _ _ Hm)).
Qed.

End ImportFacts.

(** C6. Importing a text whose top-level JSON value is not an array
    reports the error to the user ([alert]), leaves the task collection
    as it was, and returns normally: no exception leaves [importJSON]. *)
Theorem importJSON_rejects_non_array
    (now : Z) (uidStream : nat -> jsstring)
    (JSON_parse : jsstring -> JSON + jsstring) (nullReadMessage : jsstring)
    (jsonText : jsstring) (v : JSON) (w : World) :
  JSON_parse jsonText = inl v ->
  isArray (Val v) = false ->
  importJSON now uidStream JSON_parse nullReadMessage jsonText w
  = ({| w_tasks := w_tasks w;
        w_alerts := w_alerts w ++ [str "Couldn't import: Invalid format"];
        w_uids := w_uids w |}, inl tt).
Proof.
  intros Hparse Hshape.
  unfold importJSON, tryCatch, bind. rewrite Hparse. cbn.
  destruct v; cbn in *; try reflexivity; discriminate.
Qed.

Lemma importJSON_rejects_non_array_witness :
  importJSON 0 someIds (parsesTo (JObj [("id"%string, JStr (str "a"))]))
    (str "TypeError") (str "{" ++ quoted "id" ++ str ":" ++ quoted "a" ++ str "}")%list
    emptyWorld
  = ({| w_tasks := [];
        w_alerts := [str "Couldn't import: Invalid format"];
        w_uids := 0 |}, inl tt).
Proof.
  apply (@importJSON_rejects_non_array 0 someIds
           (parsesTo (JObj [("id"%string, JStr (str "a"))])) (str "TypeError")
           _ (JObj [("id"%string, JStr (str "a"))]) emptyWorld);
    reflexivity.
Defined.

(** ** Round trip *)

Lemma lookup_field_same (k : string) (v : value) (rest : list (string * JSON)) :
  lookup k (field k v ++ rest) = match v with Val _ => v | Undefined => lookup k rest end.
Proof.
  destruct v; cbn; [reflexivity |]. now rewrite String.eqb_refl.
Qed.

Lemma lookup_field_other (k k' : string) (v : value) (rest : list (string * JSON)) :
  String.eqb k' k = false ->
  lookup k (field k' v ++ rest) = lookup k rest.
Proof.
  intros H. destruct v; cbn; [reflexivity |]. now rewrite H.
Qed.

(** A conforming record whose fields are all kept by the defaults comes
    back from [normalize] as it was, and no id is drawn. *)
Lemma normalize_taskJSON (U : Unicode) (now : Z) (uidStream : nat -> jsstring)
    (nullReadMessage : jsstring) (t : StoredTask) (w : World) :
  conforms U t = true -> keepsItsFields t = true ->
  normalize now uidStream nullReadMessage (taskJSON t) w = (w, inl t).
Proof.
  unfold conforms, keepsItsFields. intros Hc Hk.
  repeat (apply andb_prop in Hc; destruct Hc as [Hc ?]).
  repeat (apply andb_prop in Hk; destruct Hk as [Hk ?]).
  destruct t as [i ti no cr du ta pr pri dn su]; cbn [s_id s_title s_notes
    s_createdAt s_due s_tags s_project s_priority s_done s_subtasks] in *.
  destruct i as [| [| | | i | |]]; try discriminate.
  destruct ti as [| [| | | ti | |]]; try discriminate.
  destruct no as [| [| | | no | |]]; try discriminate.
  destruct cr as [| [| | cr | | |]]; try discriminate.
  destruct ta as [| [| | | | ta |]]; try discriminate.
  destruct su as [| [| | | | su |]]; try discriminate.
  destruct pri as [| [| | | pri | |]]; try discriminate.
  assert (Hpri : truthy (Val (JStr pri)) = true).
  { destruct pri; [discriminate | reflexivity]. }
  destruct du as [| [| | du | | |]]; try discriminate;
    destruct pr as [| [| | | pr | |]]; try discriminate;
    unfold normalize, getProp, bind, ret, taskJSON, orValue; cbn in *;
    rewrite ?orb_false_r in *;
    repeat match goal with
           | E : ?b = true |- context [if ?b then _ else _] => rewrite E
           end;
    destruct no; reflexivity.
Qed.

Lemma mapM_normalize_export (U : Unicode) (now : Z) (uidStream : nat -> jsstring)
    (nullReadMessage : jsstring) (tasks : list StoredTask) (w : World) :
  Forall (fun t => conforms U t = true /\ keepsItsFields t = true) tasks ->
  mapM (normalize now uidStream nullReadMessage) (List.map taskJSON tasks) w
  = (w, inl tasks).
Proof.
  induction 1 as [| t tasks [Hc Hk] _ IH]; [reflexivity |].
  cbn [List.map mapM]. unfold bind.
  rewrite normalize_taskJSON with (U := U) by assumption.
  rewrite IH. reflexivity.
Qed.

(** C7, as stated, fails: a record that conforms to the schema and has
    [due = 0] comes back without a due date, and one whose project is the
    empty string comes back without a project. *)
Lemma round_trip_drops_falsy_fields :
  (conforms asciiOnly epochTask = true /\
   s_due epochTask = VNum 0 /\
   List.map s_due
     (w_tasks (fst (importJSON 0 someIds (parsesTo (exportJSON [epochTask]))
                      (str "TypeError")
                      (exportText (printsAs (str "ai-tasks.json")) [epochTask])
                      emptyWorld)))
   = [Undefined]) /\
  (conforms asciiOnly unnamedProjectTask = true /\
   s_project unnamedProjectTask = VStr [] /\
   List.map s_project
     (w_tasks (fst (importJSON 0 someIds (parsesTo (exportJSON [unnamedProjectTask]))
                      (str "TypeError")
                      (exportText (printsAs (str "ai-tasks.json")) [unnamedProjectTask])
                      emptyWorld)))
   = [Undefined]).
Proof. repeat split; vm_compute; reflexivity. Qed.

(** C7, amended. Exporting a collection and importing the exported text
    yields the same collection, when every record conforms to the schema
    and none of the fields the import reads through [||] is falsy (id and
    title not empty, [createdAt] not 0, [due] absent or not 0, [project]
    absent or not empty), on a run time whose [JSON.parse] reads back what
    its [JSON.stringify] wrote. *)
Theorem export_import_round_trip
    (U : Unicode) (now : Z) (uidStream : nat -> jsstring)
    (JSON_parse : jsstring -> JSON + jsstring)
    (JSON_stringify : JSON -> jsstring) (nullReadMessage : jsstring)
    (tasks : list StoredTask) (w : World) :
  Forall (fun t => conforms U t = true /\ keepsItsFields t = true) tasks ->
  JSON_parse (JSON_stringify (exportJSON tasks)) = inl (exportJSON tasks) ->
  importJSON now uidStream JSON_parse nullReadMessage
    (exportText JSON_stringify tasks) w
  = ({| w_tasks := tasks; w_alerts := w_alerts w; w_uids := w_uids w |}, inl tt).
Proof.
  intros Hall Hparse.
  unfold importJSON, exportText, tryCatch, bind. rewrite Hparse.
  cbn [ret exportJSON].
  rewrite mapM_normalize_export with (U := U) by assumption. reflexivity.
Qed.

Lemma export_import_round_trip_witness :
  importJSON 0 someIds (parsesTo (exportJSON [plainTask])) (str "TypeError")
    (exportText (printsAs (str "ai-tasks.json")) [plainTask]) emptyWorld
  = ({| w_tasks := [plainTask]; w_alerts := []; w_uids := 0 |}, inl tt).
Proof.
  apply (@export_import_round_trip asciiOnly 0 someIds
           (parsesTo (exportJSON [plainTask]))
           (printsAs (str "ai-tasks.json")) (str "TypeError")
           [plainTask] emptyWorld).
  - repeat constructor.
  - reflexivity.
Defined.

(** ** The priority of stored tasks *)

Lemma isLevel_priorityName (p : Priority) : isLevel (VStr (priorityName p)) = true.
Proof. destruct p; reflexivity. Qed.

Lemma isLevel_at_order (i : Z) : 0 <= i <= 2 -> isLevel (at_ order i) = true.
Proof.
  intros Hi.
  assert (i = 0 \/ i = 1 \/ i = 2) as [-> | [-> | ->]] by lia; reflexivity.
Qed.

(** [bumpPriority] writes one of the three levels, whatever was there. *)
Lemma bumpOne_level (i : value) (dir : Z) (t : StoredTask) :
  strictEq (s_id t) i = true ->
  isLevel (s_priority (bumpOne i dir t)) = true.
Proof.
  intros Hid. unfold bumpOne. rewrite Hid. cbn [negb s_priority withPriority].
  apply isLevel_at_order. unfold clamp. cbn [length order Z.of_nat]. lia.
Qed.

Lemma bumpOne_keeps_level (i : value) (dir : Z) (t : StoredTask) :
  isLevel (s_priority t) = true ->
  isLevel (s_priority (bumpOne i dir t)) = true.
Proof.
  intros Ht. destruct (strictEq (s_id t) i) eqn:Hid.
  - now apply bumpOne_level.
  - unfold bumpOne. now rewrite Hid.
Qed.

Lemma moveOne_priority (tz : TimeZone) (now : Z) (i : value) (b : BucketKey) (t : StoredTask) :
  s_priority (moveOne tz now i b t) = s_priority t.
Proof.
  unfold moveOne. destruct (negb _); [reflexivity |]. destruct b; reflexivity.
Qed.

Section PriorityInvariant.
Variable U : Unicode.
Variable zone : TimeZone.
Variable now : Z.
Variable chronoParse : jsstring -> Z -> list ParsedResult.
Variable uidStream : nat -> jsstring.
Variable JSON_parse : jsstring -> JSON + jsstring.
Variable nullReadMessage : jsstring.

Let runHere := run U zone now chronoParse uidStream JSON_parse nullReadMessage.

Lemma run_keeps_levels (a : action) (w : World) :
  levelsOnly w -> bringsLevels JSON_parse a = true -> levelsOnly (fst (runHere a w)).
Proof.
  unfold levelsOnly. intros Hw Ha.
  destruct a as [input notes | i | confirmed i | updated | i dir | i b | jsonText];
    unfold runHere, run.
  - unfold addTaskFromInput.
    destruct (trim input); [exact Hw |].
    cbn. constructor; [apply isLevel_priorityName | exact Hw].
  - cbn. apply Forall_map. revert Hw. apply Forall_impl. intros t Ht.
    now destruct (strictEq _ _).
  - unfold removeTask. destruct confirmed; [| exact Hw].
    cbn. apply Forall_forall. intros t [Ht _]%filter_In.
    revert t Ht. now apply Forall_forall.
  - cbn. apply Forall_map. revert Hw. apply Forall_impl. intros t Ht.
    now destruct (strictEq _ _).
  - cbn. apply Forall_map. revert Hw. apply Forall_impl. intros t Ht.
    now apply bumpOne_keeps_level.
  - cbn. apply Forall_map. revert Hw. apply Forall_impl. intros t Ht.
    now rewrite moveOne_priority.
  -     destruct (importJSON_tasks now uidStream JSON_parse nullReadMessage jsonText w)
      as [-> | (items & w' & cleaned & Hp & Hm & ->)]; [exact Hw |].
    cbn in Ha. rewrite Hp in Ha.
    eapply mapM_normalize_priority; eassumption.
Qed.

Lemma importJSON_priorities_set (jsonText : jsstring) (w : World) :
  prioritiesSet w ->
  prioritiesSet (fst (importJSON now uidStream JSON_parse nullReadMessage jsonText w)).
Proof.
  unfold prioritiesSet. intros Hw.
  destruct (importJSON_tasks now uidStream JSON_parse nullReadMessage jsonText w)
    as [-> | (items & w' & cleaned & Hp & Hm & ->)]; [exact Hw |].
  eapply mapM_normalize_priority; eassumption.
Qed.
End PriorityInvariant.

(** C8, as stated, fails: importing the array
    [[{"title":"Pay rent","priority":"urgent"}]] stores a task whose
    priority is ["urgent"], which is none of the three levels. *)
Lemma import_stores_unknown_priority :
  List.map s_priority
    (w_tasks (fst (importJSON 0 someIds
       (parsesTo (JArr [JObj [("title"%string, JStr (str "Pay rent"));
                              ("priority"%string, JStr (str "urgent"))]]))
       (str "TypeError")
       (str "[{" ++ quoted "title" ++ str ":" ++ quoted "Pay rent" ++ str ","
        ++ quoted "priority" ++ str ":" ++ quoted "urgent" ++ str "}]")%list
       emptyWorld)))
  = [VStr (str "urgent")]
  /\ isLevel (VStr (str "urgent")) = false.
Proof. split; vm_compute; reflexivity. Qed.

(** C8, amended. The priority of every stored task stays one of the
    three levels under every operation (ingestion, toggling, deletion,
    edit-save, priority bump, bucket move, import), provided the record an
    edit saves has such a priority and every imported record has a
    priority that is absent, falsy or already one of the three levels;
    import never stores a priority that is [undefined], [null] or otherwise
    falsy (it stores the record's own priority when that is truthy, and
    "medium" otherwise); and a priority bump writes one of the three
    levels whatever the priority was before. *)
Theorem priority_after_operations
    (U : Unicode) (zone : TimeZone) (now : Z)
    (chronoParse : jsstring -> Z -> list ParsedResult)
    (uidStream : nat -> jsstring)
    (JSON_parse : jsstring -> JSON + jsstring) (nullReadMessage : jsstring) :
  (forall (a : action) (w : World),
      levelsOnly w -> bringsLevels JSON_parse a = true ->
      levelsOnly
        (fst (run U zone now chronoParse uidStream JSON_parse
                nullReadMessage a w)))
  /\ (forall (jsonText : jsstring) (w : World),
      prioritiesSet w ->
      prioritiesSet
        (fst (importJSON now uidStream JSON_parse nullReadMessage jsonText w)))
  /\ (forall (i : value) (dir : Z) (t : StoredTask),
      strictEq (s_id t) i = true ->
      isLevel (s_priority (bumpOne i dir t)) = true).
Proof.
  split; [| split].
  - intros a w. apply run_keeps_levels.
  - intros jsonText w. apply importJSON_priorities_set.
  - intros i dir t. apply bumpOne_level.
Qed.

Lemma priority_after_operations_witness :
  levelsOnly
    (fst (run asciiOnly (fixedOffset 0) 0 (fun _ _ => []) someIds
            (parsesTo (JArr [JObj [("title"%string, JStr (str "Pay rent"))]]))
            (str "TypeError")
            (ImportJSON (str "[{" ++ quoted "title" ++ str ":"
                         ++ quoted "Pay rent" ++ str "}]")%list)
            {| w_tasks := [plainTask]; w_alerts := []; w_uids := 0 |})).
Proof.
  apply (proj1 (priority_after_operations asciiOnly (fixedOffset 0) 0 (fun _ _ => []) someIds
                  (parsesTo (JArr [JObj [("title"%string, JStr (str "Pay rent"))]]))
                  (str "TypeError"))).
  - repeat constructor.
  - reflexivity.
Defined.

(** ** Dates *)

Lemma msPerDay_pos : 0 < msPerDay.
Proof. reflexivity. Qed.

(** A local time that the zone shows is read back with its day and its
    time of day. *)
Lemma readsBack_day (zone : TimeZone) (day time : Z) :
  readsBack zone (day * msPerDay + time) ->
  0 <= time < msPerDay ->
  localDay zone (UTC zone (day * msPerDay + time)) = day
  /\ localTimeOfDay zone (UTC zone (day * msPerDay + time)) = time.
Proof.
  unfold readsBack, localDay, localTimeOfDay. intros -> Hr.
  rewrite (Z.add_comm (day * msPerDay) time).
  rewrite Z.div_add, Z.mod_add by (unfold msPerDay; lia).
  rewrite Z.div_small, Z.mod_small by exact Hr. split; reflexivity.
Qed.

Lemma readsBack_fixedOffset (tz t : Z) : readsBack (fixedOffset tz) t.
Proof. unfold readsBack, LocalTime, UTC. cbn. ring. Qed.

(** [addDays] moves to the local day [n] days on, when the zone keeps
    the local time it computes on its day. *)
Lemma keepsDay_addDays (zone : TimeZone) (d n : Z) :
  keepsDay zone (LocalTime zone d + n * msPerDay) ->
  localDay zone (addDays zone d n) = localDay zone d + n.
Proof.
  unfold keepsDay, addDays. intros ->. unfold localDay.
  apply Z.div_add. unfold msPerDay; lia.
Qed.

Lemma setHours_fixedOffset (tz d h m s ms : Z) :
  setHours (fixedOffset tz) d h m s ms
  = (d + localOffset tz) / msPerDay * msPerDay
    + (((h * 60 + m) * 60 + s) * 1000 + ms) - localOffset tz.
Proof. reflexivity. Qed.

Lemma addDays_fixedOffset (tz d n : Z) :
  addDays (fixedOffset tz) d n = d + n * msPerDay.
Proof. unfold addDays, LocalTime, UTC. cbn. ring. Qed.

Lemma localDay_fixedOffset (tz d : Z) :
  localDay (fixedOffset tz) d = (d + localOffset tz) / msPerDay.
Proof. reflexivity. Qed.

Lemma localDay_setHours (tz d h m s ms : Z) :
  0 <= ((h * 60 + m) * 60 + s) * 1000 + ms < msPerDay ->
  localDay (fixedOffset tz) (setHours (fixedOffset tz) d h m s ms)
  = localDay (fixedOffset tz) d.
Proof.
  intros Hr. unfold setHours.
  now apply readsBack_day; [apply readsBack_fixedOffset |].
Qed.

Lemma localDay_addDays (tz d n : Z) :
  localDay (fixedOffset tz) (addDays (fixedOffset tz) d n)
  = localDay (fixedOffset tz) d + n.
Proof.
  rewrite addDays_fixedOffset, !localDay_fixedOffset.
  replace (d + n * msPerDay + localOffset tz)
    with (d + localOffset tz + n * msPerDay) by ring.
  apply Z.div_add. unfold msPerDay; lia.
Qed.

(** In a zone without clock changes an instant lies between the start
    and the end of its local day. *)
Lemma day_bounds (tz d : Z) :
  startOfDay (fixedOffset tz) d <= d <= endOfDay (fixedOffset tz) d
  /\ endOfDay (fixedOffset tz) d
     = startOfDay (fixedOffset tz) d + (msPerDay - 1).
Proof.
  unfold startOfDay, endOfDay. rewrite !setHours_fixedOffset.
  pose proof (Z.div_mod (d + localOffset tz) msPerDay) as E.
  pose proof (Z.mod_pos_bound (d + localOffset tz) msPerDay msPerDay_pos) as B.
  unfold msPerDay in *. lia.
Qed.

(** The end of a local day is never the epoch instant in such a zone: it
    ends in 59.999 seconds, and the offset is a whole number of
    minutes. *)
Lemma endOfDay_nonzero (tz d : Z) : endOfDay (fixedOffset tz) d <> 0.
Proof.
  unfold endOfDay. rewrite setHours_fixedOffset.
  unfold localOffset, msPerDay. lia.
Qed.

(** With the clock at or after the epoch, in a zone without clock
    changes, today ends after the epoch and does not end before it
    starts. *)
Lemma fixedOffset_today (tz now : Z) :
  0 <= now ->
  0 < todayEnd (fixedOffset tz) now
  /\ todayStart (fixedOffset tz) now <= todayEnd (fixedOffset tz) now.
Proof.
  intros Hnow. unfold todayEnd, todayStart.
  pose proof (day_bounds tz now) as [[H1 H2] _].
  pose proof (endOfDay_nonzero tz now). lia.
Qed.

(** In the zone with daylight saving of the examples, at every instant:
    the instant lies between the start and the end of its local day, so
    with the clock after the epoch today ends after the epoch and not
    before it starts. *)
Lemma easternTime_today (now : Z) :
  todayStart easternTime now <= now <= todayEnd easternTime now.
Proof.
  unfold todayStart, todayEnd, startOfDay, endOfDay, setHours, localDay,
    UTC, LocalTime.
  cbn [offsetAt offsetOfLocal easternTime].
  destruct (Z.ltb_spec now 1710054000000);
    [| destruct (Z.ltb_spec now 1730613600000)].
  all: match goal with
       | |- context [(?x / msPerDay)] =>
           pose proof (Z.div_mod x msPerDay ltac:(unfold msPerDay; lia)) as E;
           pose proof (Z.mod_pos_bound x msPerDay msPerDay_pos) as B;
           set (q := x / msPerDay) in *; set (r := x mod msPerDay) in *
       end.
  all: repeat match goal with
              | |- context [?a <? ?b] => destruct (Z.ltb_spec a b)
              end.
  all: unfold msPerDay in *; lia.
Qed.

(** ** Bucket moves *)

(** C5. Moving a task to a bucket, in every time zone, daylight saving
    included. [today] sets its due date to the instant of 17:00:00.000
    on the local day of [now], and [done] to false; [done] sets [done]
    to true and keeps the due date; [later] clears the due date and sets
    [done] to false; [week] sets the due date to the instant of
    09:00:00.000 on the local day of [now + 3 days], and [done] to
    false. Where the zone shows these local times (no clock change skips
    them), the due date reads back as that day at that time; and where
    it keeps the local time of [now], three days on, on its day, the
    day of [now + 3 days] is the third local day after today. Every
    other field (id, title, notes, createdAt, tags, project, priority,
    subtasks) stays as it was, and a task with another id is not
    touched. *)
Theorem moveToBucket_effect
    (zone : TimeZone) (now : Z) (i : value) (t : StoredTask) :
  strictEq (s_id t) i = true ->
  (exists d, s_due (moveOne zone now i today t) = VNum d
      /\ d = UTC zone (localDay zone now * msPerDay + timeOfDay 17 0 0 0)
      /\ (readsBack zone (localDay zone now * msPerDay + timeOfDay 17 0 0 0) ->
          localDay zone d = localDay zone now
          /\ localTimeOfDay zone d = 17 * 3600000)
      /\ s_done (moveOne zone now i today t) = false
      /\ sameButDueDone t (moveOne zone now i today t))
  /\ (s_done (moveOne zone now i bdone t) = true
      /\ s_due (moveOne zone now i bdone t) = s_due t
      /\ sameButDueDone t (moveOne zone now i bdone t))
  /\ (s_due (moveOne zone now i later t) = Undefined
      /\ s_done (moveOne zone now i later t) = false
      /\ sameButDueDone t (moveOne zone now i later t))
  /\ (exists d, s_due (moveOne zone now i week t) = VNum d
      /\ d = UTC zone (localDay zone (addDays zone now 3) * msPerDay
                       + timeOfDay 9 0 0 0)
      /\ (keepsDay zone (LocalTime zone now + 3 * msPerDay) ->
          localDay zone (addDays zone now 3) = localDay zone now + 3)
      /\ (readsBack zone (localDay zone (addDays zone now 3) * msPerDay
                          + timeOfDay 9 0 0 0) ->
          localDay zone d = localDay zone (addDays zone now 3)
          /\ localTimeOfDay zone d = 9 * 3600000)
      /\ s_done (moveOne zone now i week t) = false
      /\ sameButDueDone t (moveOne zone now i week t))
  /\ (forall (b : BucketKey) (w : World),
        moveToBucket zone now i b w
        = ({| w_tasks := List.map (moveOne zone now i b) (w_tasks w);
              w_alerts := w_alerts w; w_uids := w_uids w |}, inl tt))
  /\ (forall (b : BucketKey) (u : StoredTask),
        strictEq (s_id u) i = false -> moveOne zone now i b u = u).
Proof.
  intros Hid. unfold moveOne. rewrite Hid. cbn [negb].
  split; [| split; [| split; [| split; [| split]]]].
  - exists (setHours zone now 17 0 0 0).
    split; [reflexivity |]. split; [reflexivity |].
    split; [| split; [reflexivity | repeat split]].
    intros Hr. unfold setHours.
    apply (@readsBack_day zone (localDay zone now) _ Hr). unfold msPerDay. cbn. lia.
  - repeat split.
  - repeat split.
  - exists (setHours zone (addDays zone now 3) 9 0 0 0).
    split; [reflexivity |]. split; [reflexivity |].
    split; [| split; [| split; [reflexivity | repeat split]]].
    + apply keepsDay_addDays.
    + intros Hr. unfold setHours.
      apply (@readsBack_day zone (localDay zone (addDays zone now 3)) _ Hr).
      unfold msPerDay. cbn. lia.
  - reflexivity.
  - intros b u Hu. now rewrite Hu.
Qed.

Lemma moveToBucket_effect_witness :
  s_due (moveOne easternTime 1709917200000 (VStr (str "c3")) today plainTask)
  = VNum 1709935200000
  /\ s_due (moveOne easternTime 1709917200000 (VStr (str "c3")) week plainTask)
     = VNum 1710162000000
  /\ localDay easternTime 1710162000000 = localDay easternTime 1709917200000 + 3
  /\ localTimeOfDay easternTime 1710162000000 = 9 * 3600000
  /\ s_due (moveOne easternTime 1709917200000 (VStr (str "c3")) later plainTask)
     = Undefined
  /\ s_done (moveOne easternTime 1709917200000 (VStr (str "c3")) bdone plainTask)
     = true.
Proof.
  pose proof (@moveToBucket_effect easternTime 1709917200000 (VStr (str "c3"))
                plainTask eq_refl)
    as (_ & (Hdone & _) & (Hlater & _) & (d & Hd & Ed & H3 & Hr & _) & _).
  split; [reflexivity |]. split; [reflexivity |].
  split; [exact (H3 eq_refl) |].
  split; [| split; [exact Hlater | exact Hdone]].
  subst d. exact (proj2 (Hr eq_refl)).
Defined.

(** ** The sort *)

Section SortFacts.
Variable A : Type.
Variable comparefn : A -> A -> number.

Let after (x y : A) : bool := positive (comparefn x y).

Lemma insertSorted_perm (x : A) (l : list A) :
  Permutation (insertSorted comparefn x l) (x :: l).
Proof.
  induction l as [| y l IH]; cbn; [reflexivity |].
  destruct (positive (comparefn x y)); [| reflexivity].
  rewrite IH. apply perm_swap.
Qed.

Lemma sort_perm (l : list A) : Permutation (sort comparefn l) l.
Proof.
  induction l as [| x l IH]; cbn; [reflexivity |].
  rewrite insertSorted_perm. now constructor.
Qed.

(** The facts below hold on the elements with a property [P] on which
    the comparator is consistent. *)
Variable P : A -> Prop.

Lemma sort_Forall (l : list A) : Forall P l -> Forall P (sort comparefn l).
Proof.
  intros H. eapply Permutation_Forall; [| exact H].
  symmetry. apply sort_perm.
Qed.

(** Elements of a class within which nothing compares greater keep their
    order. *)
Lemma insertSorted_filter (p : A -> bool) (x : A) (l : list A) :
  (forall a b, P a -> P b -> p a = true -> p b = true -> after a b = false) ->
  P x -> Forall P l ->
  filter p (insertSorted comparefn x l) = filter p (x :: l).
Proof.
  intros Hp Hx Hl. induction Hl as [| y l Hy Hl IH]; [reflexivity |].
  cbn [insertSorted]. destruct (positive (comparefn x y)) eqn:Hxy; [| reflexivity].
  cbn [filter] in *. rewrite IH.
  destruct (p x) eqn:Ex; [| reflexivity].
  destruct (p y) eqn:Ey; [| reflexivity].
  specialize (Hp x y Hx Hy Ex Ey). unfold after in Hp. congruence.
Qed.

Lemma sort_stable (p : A -> bool) (l : list A) :
  (forall a b, P a -> P b -> p a = true -> p b = true -> after a b = false) ->
  Forall P l ->
  filter p (sort comparefn l) = filter p l.
Proof.
  intros Hp Hl. induction Hl as [| x l Hx Hl IH]; [reflexivity |].
  cbn [sort]. rewrite insertSorted_filter; try assumption.
  - cbn [filter]. now rewrite IH.
  - now apply sort_Forall.
Qed.

Hypothesis after_asym :
  forall a b, P a -> P b -> after a b = true -> after b a = false.
Hypothesis not_after_trans :
  forall a b c, P a -> P b -> P c ->
    after a b = false -> after b c = false -> after a c = false.

Lemma insertSorted_sorted (x : A) (l : list A) :
  P x -> Forall P l ->
  StronglySorted (fun a b => after a b = false) l ->
  StronglySorted (fun a b => after a b = false) (insertSorted comparefn x l).
Proof.
  intros Hx Hl Hs. induction Hs as [| y l Hs IH Hy]; cbn [insertSorted].
  - repeat constructor.
  - apply Forall_cons_iff in Hl as [Py Hl].
    destruct (positive (comparefn x y)) eqn:Hxy.
    + constructor; [now apply IH |].
      apply Forall_forall. intros z Hz.
      apply (Permutation_in _ (insertSorted_perm x l)) in Hz.
      destruct Hz as [<- | Hz]; [now apply after_asym |].
      revert z Hz. now apply Forall_forall.
    + constructor; [now constructor |].
      constructor; [exact Hxy |].
      rewrite Forall_forall in Hy, Hl. apply Forall_forall. intros z Hz.
      apply not_after_trans with y; auto.
Qed.

Lemma sort_sorted (l : list A) :
  Forall P l ->
  StronglySorted (fun a b => after a b = false) (sort comparefn l).
Proof.
  intros Hl. induction Hl as [| x l Hx Hl IH]; cbn; [constructor |].
  apply insertSorted_sorted; [exact Hx | now apply sort_Forall | exact IH].
Qed.
End SortFacts.

(** A sorted list splits into the elements without a property and those
    with it, when no element with it may stand before one without. *)
Lemma sorted_split (A : Type) (R : A -> A -> Prop) (p : A -> bool) (l : list A) :
  (forall a b, R a b -> p a = true -> p b = true) ->
  StronglySorted R l ->
  l = filter (fun x => negb (p x)) l ++ filter p l.
Proof.
  intros HR. induction 1 as [| x l Hs IH Hx]; [reflexivity |].
  cbn [filter]. destruct (p x) eqn:Hpx; cbn [negb].
  - assert (Hall : Forall (fun y => p y = true) l).
    { revert Hx. apply Forall_impl. intros y Hy. now apply HR with x. }
    assert (Hnone : filter (fun y => negb (p y)) l = []).
    { clear - Hall. induction Hall as [| y l Hy _ IHl]; [reflexivity |].
      cbn. now rewrite Hy. }
    assert (Hsame : filter p l = l).
    { clear - Hall. induction Hall as [| y l Hy _ IHl]; [reflexivity |].
      cbn. rewrite Hy. now f_equal. }
    now rewrite Hnone, Hsame.
  - cbn. now f_equal.
Qed.

(** A sorted list is sorted by every relation that follows, between its
    elements, from the one it is sorted by. *)
Lemma StronglySorted_impl_on (A : Type) (P : A -> Prop) (R R' : A -> A -> Prop)
    (l : list A) :
  (forall a b, P a -> P b -> R a b -> R' a b) ->
  Forall P l -> StronglySorted R l -> StronglySorted R' l.
Proof.
  intros HR Hl. induction 1 as [| a l Hs IH Hf]; constructor.
  - apply IH. now apply Forall_cons_iff in Hl as [_ Hl].
  - apply Forall_cons_iff in Hl as [Pa Hl].
    rewrite Forall_forall in Hf, Hl. apply Forall_forall. intros b Hb.
    apply HR; auto.
Qed.

Lemma StronglySorted_app (A : Type) (R : A -> A -> Prop) (l1 l2 : list A) :
  StronglySorted R (l1 ++ l2) ->
  StronglySorted R l1 /\ StronglySorted R l2
  /\ forall a b, In a l1 -> In b l2 -> R a b.
Proof.
  induction l1 as [| x l1 IH]; cbn.
  - intros H. split; [constructor |]. split; [exact H |]. intros a b [].
  - intros H. apply StronglySorted_inv in H as [Hs Hf].
    destruct (IH Hs) as (H1 & H2 & H3).
    rewrite Forall_app in Hf. destruct Hf as [Hf1 Hf2].
    split; [now constructor |]. split; [exact H2 |].
    intros a b [<- | Ha] Hb.
    + rewrite Forall_forall in Hf2. now apply Hf2.
    + now apply H3.
Qed.

(** In a list sorted by a strict order, of two of its elements the one
    that the order puts first stands first. *)
Lemma sorted_standsBefore (A : Type) (R : A -> A -> Prop) (l : list A)
    (a b : A) :
  (forall x, ~ R x x) ->
  StronglySorted (fun x y => ~ R y x) l ->
  In a l -> In b l -> R b a -> standsBefore b a l.
Proof.
  intros Hirr Hs Ha Hb Hba.
  apply in_split in Ha as (p & q & ->).
  apply StronglySorted_app in Hs as (_ & Hq & _).
  apply StronglySorted_inv in Hq as [_ Hq].
  apply in_app_or in Hb as [Hb | [<- | Hb]].
  - apply in_split in Hb as (l1 & l2 & ->).
    exists l1, l2, q. now rewrite <- app_assoc.
  - exfalso. now apply (Hirr a).
  - exfalso. rewrite Forall_forall in Hq. now apply (Hq b Hb).
Qed.

(** ** Reading a stored task *)

Lemma jsstring_eqb_eq (a b : jsstring) : jsstring_eqb a b = true <-> a = b.
Proof.
  unfold jsstring_eqb. destruct (list_eq_dec N.eq_dec a b); intuition congruence.
Qed.

Lemma jsstring_eqb_refl (a : jsstring) : jsstring_eqb a a = true.
Proof. now apply jsstring_eqb_eq. Qed.

Lemma not_true_false (b : bool) (P : Prop) :
  (b = true <-> P) -> (b = false <-> ~ P).
Proof. destruct b; intuition congruence. Qed.

Lemma pRankAt_priorityName (p : Priority) :
  pRankAt (priorityName p) = Own (pRank p).
Proof. destruct p; vm_compute; reflexivity. Qed.

Lemma isLevel_inv (v : value) :
  isLevel v = true -> exists p, v = VStr (priorityName p).
Proof.
  unfold isLevel, strictEqStr. destruct v as [| [| | | s | |]]; try discriminate.
  intros H. apply orb_prop in H as [H | H]; [apply orb_prop in H as [H | H] |];
    apply jsstring_eqb_eq in H; subst s;
    [exists low | exists medium | exists high]; reflexivity.
Qed.

(** The fields of a sortable task as the declared type has them. *)
Lemma sortable_inv (t : StoredTask) :
  sortable t = true ->
  exists p d c,
    s_priority t = VStr (priorityName p)
    /\ s_due t = optNum d /\ s_createdAt t = VNum c.
Proof.
  unfold sortable. intros H.
  apply andb_prop in H as [H Hc]. apply andb_prop in H as [Hp Hd].
  destruct (isLevel_inv _ Hp) as [p Ep]. exists p.
  destruct (s_due t) as [| [| | d | | |]]; try discriminate;
    destruct (s_createdAt t) as [| [| | c | | |]]; try discriminate.
  - now exists None, c.
  - now exists (Some d), c.
Qed.

Section Reading.
Variable C : Conversions.

Lemma rankOf_sortable (t : StoredTask) :
  sortable t = true -> rankOf C t = Own (rankKey t).
Proof.
  intros H. destruct (sortable_inv t H) as (p & d & c & Ep & _ & _).
  unfold rankOf, rankKey. rewrite Ep. cbn [toString toStringJSON VStr].
  now rewrite pRankAt_priorityName.
Qed.

Lemma due_sortable (t : StoredTask) :
  sortable t = true ->
  operandNumber C (orInfinity (s_due t)) = dueNumber (dueKey t).
Proof.
  intros H. destruct (sortable_inv t H) as (p & d & c & _ & Ed & _).
  unfold dueKey, orInfinity. rewrite Ed.
  destruct d as [d |]; [| reflexivity]. cbn.
  now destruct (d =? 0).
Qed.

Lemma dueNe_sortable (a b : StoredTask) :
  sortable a = true -> sortable b = true ->
  operandNe (orInfinity (s_due a)) (orInfinity (s_due b))
  = strictNe (dueNumber (dueKey a)) (dueNumber (dueKey b)).
Proof.
  intros Ha Hb.
  destruct (sortable_inv a Ha) as (pa & da & ca & _ & Ea & _).
  destruct (sortable_inv b Hb) as (pb & db & cb & _ & Eb & _).
  unfold dueKey, orInfinity. rewrite Ea, Eb.
  destruct da as [x |], db as [y |]; cbn;
    try destruct (x =? 0); try destruct (y =? 0); reflexivity.
Qed.

Lemma created_sortable (t : StoredTask) :
  sortable t = true -> toNumber C (s_createdAt t) = Num (createdKey t).
Proof.
  intros H. destruct (sortable_inv t H) as (p & d & c & _ & _ & Ec).
  unfold createdKey. now rewrite Ec.
Qed.

(** On sortable tasks the comparators compute on the keys. *)
Lemma visibleCompare_keys (a b : StoredTask) :
  sortable a = true -> sortable b = true ->
  visibleCompare C a b
  = if negb (Bool.eqb (s_done a) (s_done b))
    then (if s_done a then Num 1 else Num (-1))
    else if negb (rankKey a =? rankKey b)
    then Num (rankKey a - rankKey b)
    else if strictNe (dueNumber (dueKey a)) (dueNumber (dueKey b))
    then minus (dueNumber (dueKey a)) (dueNumber (dueKey b))
    else Num (createdKey a - createdKey b).
Proof.
  intros Ha Hb. unfold visibleCompare.
  rewrite !rankOf_sortable, !due_sortable, !created_sortable,
    dueNe_sortable by assumption.
  reflexivity.
Qed.

Lemma byUrgency_keys (a b : StoredTask) :
  sortable a = true -> sortable b = true ->
  byUrgency C a b
  = if negb (rankKey a =? rankKey b)
    then Num (rankKey a - rankKey b)
    else minus (dueNumber (dueKey a)) (dueNumber (dueKey b)).
Proof.
  intros Ha Hb. unfold byUrgency.
  rewrite !rankOf_sortable, !due_sortable by assumption.
  reflexivity.
Qed.

Lemma byDue_keys (a b : StoredTask) :
  sortable a = true -> sortable b = true ->
  byDue C a b = minus (dueNumber (dueKey a)) (dueNumber (dueKey b)).
Proof.
  intros Ha Hb. unfold byDue. now rewrite !due_sortable by assumption.
Qed.
End Reading.

(** ** The list order *)

Lemma ranksBefore_keyBefore (a b : StoredTask) :
  ranksBefore a b <-> keyBefore a b.
Proof.
  unfold ranksBefore, keyBefore, doneKey, noDueKey, dueValue, earlier.
  destruct (s_done a), (s_done b), (dueKey a) as [x |], (dueKey b) as [y |];
    intuition (try lia; try discriminate; try congruence).
  all: try (right; split; [reflexivity |]; right; split; [assumption |];
            right; split; [f_equal; lia | assumption]).
  all: match goal with H : Some _ = Some _ |- _ => injection H as H end; lia.
Qed.

Lemma ranksBefore_irrefl (a : StoredTask) : ~ ranksBefore a a.
Proof. rewrite ranksBefore_keyBefore. unfold keyBefore. lia. Qed.

Lemma earlier_asym (x y : option Z) : earlier x y -> ~ earlier y x.
Proof. destruct x, y; cbn; try tauto; lia. Qed.

Lemma earlier_not_trans (x y z : option Z) :
  ~ earlier y x -> ~ earlier z y -> ~ earlier z x.
Proof. destruct x, y, z; cbn; try tauto; lia. Qed.

Lemma due_minus (x y : option Z) :
  positive (minus (dueNumber x) (dueNumber y)) = true <-> earlier y x.
Proof.
  destruct x as [a |], y as [b |]; cbn; rewrite ?Z.ltb_lt;
    try tauto; try lia; split; try discriminate; tauto.
Qed.

Section Orders.
Variable C : Conversions.

Lemma visibleCompare_keyBefore (a b : StoredTask) :
  sortable a = true -> sortable b = true ->
  positive (visibleCompare C a b) = true <-> keyBefore b a.
Proof.
  intros Ha Hb. rewrite visibleCompare_keys by assumption.
  unfold keyBefore, doneKey, noDueKey, dueValue.
  destruct (s_done a), (s_done b); cbn [Bool.eqb negb].
  all: destruct (Z.eqb_spec (rankKey a) (rankKey b)) as [Hr | Hr];
    cbn [negb positive].
  all: try (rewrite Z.ltb_lt; lia).
  all: destruct (dueKey a) as [x |], (dueKey b) as [y |];
    cbn [dueNumber strictNe minus positive negb];
    try destruct (Z.eqb_spec x y); cbn [negb positive];
    rewrite ?Z.ltb_lt; try lia; intuition (try lia; try discriminate).
Qed.

Lemma visibleCompare_ranksBefore (a b : StoredTask) :
  sortable a = true -> sortable b = true ->
  positive (visibleCompare C a b) = true <-> ranksBefore b a.
Proof.
  intros Ha Hb. rewrite visibleCompare_keyBefore by assumption.
  symmetry. apply ranksBefore_keyBefore.
Qed.

Lemma visibleCompare_not_after (a b : StoredTask) :
  sortable a = true -> sortable b = true ->
  positive (visibleCompare C a b) = false <-> ~ keyBefore b a.
Proof.
  intros Ha Hb. apply not_true_false. now apply visibleCompare_keyBefore.
Qed.

Lemma visibleCompare_asym (a b : StoredTask) :
  sortable a = true -> sortable b = true ->
  positive (visibleCompare C a b) = true ->
  positive (visibleCompare C b a) = false.
Proof.
  intros Ha Hb.
  rewrite visibleCompare_keyBefore, visibleCompare_not_after by assumption.
  unfold keyBefore. lia.
Qed.

Lemma visibleCompare_trans (a b c : StoredTask) :
  sortable a = true -> sortable b = true -> sortable c = true ->
  positive (visibleCompare C a b) = false ->
  positive (visibleCompare C b c) = false ->
  positive (visibleCompare C a c) = false.
Proof.
  intros Ha Hb Hc. rewrite !visibleCompare_not_after by assumption.
  unfold keyBefore. lia.
Qed.

Lemma sameRank_not_after (z a b : StoredTask) :
  sortable a = true -> sortable b = true ->
  sameRank z a = true -> sameRank z b = true ->
  positive (visibleCompare C a b) = false.
Proof.
  unfold sameRank. intros Sa Sb Ha Hb.
  repeat (apply andb_prop in Ha; destruct Ha as [Ha ?]).
  repeat (apply andb_prop in Hb; destruct Hb as [Hb ?]).
  apply visibleCompare_not_after; try assumption.
  apply eqb_prop in Ha, Hb.
  unfold keyBefore, doneKey, noDueKey, dueValue.
  rewrite <- Ha, <- Hb.
  destruct (dueKey z), (dueKey a), (dueKey b); try discriminate; lia.
Qed.

(** The sorted list view of sortable tasks. *)
Lemma visible_sorted (l : list StoredTask) :
  Forall (fun t => sortable t = true) l ->
  StronglySorted (fun a b => ~ ranksBefore b a) (visible C l).
Proof.
  intros Hl.
  pose proof (@sort_sorted _ (visibleCompare C) (fun t => sortable t = true)
                visibleCompare_asym visibleCompare_trans l Hl) as Hs.
  pose proof (@sort_Forall _ (visibleCompare C) (fun t => sortable t = true)
                l Hl) as Hf.
  unfold visible.
  revert Hs. apply StronglySorted_impl_on with (P := fun t => sortable t = true);
    [| exact Hf].
  intros a b Sa Sb Hab. rewrite ranksBefore_keyBefore.
  now apply visibleCompare_not_after.
Qed.

(** *** The comparators of the columns *)

Lemma byDue_earlier (a b : StoredTask) :
  sortable a = true -> sortable b = true ->
  positive (byDue C a b) = true <-> earlier (dueKey b) (dueKey a).
Proof. intros Ha Hb. rewrite byDue_keys by assumption. apply due_minus. Qed.

Lemma byUrgency_urgentBefore (a b : StoredTask) :
  sortable a = true -> sortable b = true ->
  positive (byUrgency C a b) = true <-> urgentBefore b a.
Proof.
  intros Ha Hb. rewrite byUrgency_keys by assumption. unfold urgentBefore.
  destruct (rankKey a =? rankKey b) eqn:E; cbn [negb].
  - apply Z.eqb_eq in E. rewrite due_minus.
    split; [intros H; right; split; [lia | exact H] |].
    intros [H | [_ H]]; [lia | exact H].
  - apply Z.eqb_neq in E. cbn. rewrite Z.ltb_lt. split; [lia |].
    intros [H | [H _]]; lia.
Qed.

Lemma byDue_asym (a b : StoredTask) :
  sortable a = true -> sortable b = true ->
  positive (byDue C a b) = true -> positive (byDue C b a) = false.
Proof.
  intros Ha Hb.
  rewrite (not_true_false (@byDue_earlier b a Hb Ha)), byDue_earlier by assumption.
  apply earlier_asym.
Qed.

Lemma byDue_trans (a b c : StoredTask) :
  sortable a = true -> sortable b = true -> sortable c = true ->
  positive (byDue C a b) = false -> positive (byDue C b c) = false ->
  positive (byDue C a c) = false.
Proof.
  intros Ha Hb Hc.
  rewrite (not_true_false (@byDue_earlier a b Ha Hb)),
    (not_true_false (@byDue_earlier b c Hb Hc)),
    (not_true_false (@byDue_earlier a c Ha Hc)).
  apply earlier_not_trans.
Qed.

Lemma urgentBefore_asym (a b : StoredTask) :
  urgentBefore a b -> ~ urgentBefore b a.
Proof.
  unfold urgentBefore. intros [H | [H He]] [H' | [H' He']]; try lia.
  now apply (earlier_asym _ _ He).
Qed.

Lemma urgentBefore_irrefl (a : StoredTask) : ~ urgentBefore a a.
Proof. intros H. exact (urgentBefore_asym H H). Qed.

Lemma urgentBefore_not_trans (a b c : StoredTask) :
  ~ urgentBefore b a -> ~ urgentBefore c b -> ~ urgentBefore c a.
Proof.
  unfold urgentBefore. intros H1 H2 [H | [H He]].
  - assert (rankKey b < rankKey a \/ rankKey c < rankKey b) as [K | K] by lia;
      tauto.
  - destruct (Z.lt_total (rankKey b) (rankKey a))
      as [K | [K | K]]; [tauto | | apply H2; left; lia].
    apply (@earlier_not_trans (dueKey a) (dueKey b) (dueKey c)); try exact He.
    + intros E. apply H1. right. split; [exact K | exact E].
    + intros E. apply H2. right. split; [lia | exact E].
Qed.

Lemma byUrgency_asym (a b : StoredTask) :
  sortable a = true -> sortable b = true ->
  positive (byUrgency C a b) = true -> positive (byUrgency C b a) = false.
Proof.
  intros Ha Hb.
  rewrite (not_true_false (@byUrgency_urgentBefore b a Hb Ha)),
    byUrgency_urgentBefore by assumption.
  apply urgentBefore_asym.
Qed.

Lemma byUrgency_trans (a b c : StoredTask) :
  sortable a = true -> sortable b = true -> sortable c = true ->
  positive (byUrgency C a b) = false -> positive (byUrgency C b c) = false ->
  positive (byUrgency C a c) = false.
Proof.
  intros Ha Hb Hc.
  rewrite (not_true_false (@byUrgency_urgentBefore a b Ha Hb)),
    (not_true_false (@byUrgency_urgentBefore b c Hb Hc)),
    (not_true_false (@byUrgency_urgentBefore a c Ha Hc)).
  apply urgentBefore_not_trans.
Qed.

Lemma sameUrgency_not_after (z a b : StoredTask) :
  sortable a = true -> sortable b = true ->
  sameUrgency z a = true -> sameUrgency z b = true ->
  positive (byUrgency C a b) = false.
Proof.
  unfold sameUrgency. intros Sa Sb [Ha Da]%andb_prop [Hb Db]%andb_prop.
  apply (not_true_false (@byUrgency_urgentBefore a b Sa Sb)).
  apply Z.eqb_eq in Ha, Hb. unfold urgentBefore.
  intros [H | [_ H]]; [lia |].
  destruct (dueKey z), (dueKey a), (dueKey b); cbn in *;
    try discriminate; try tauto.
  apply Z.eqb_eq in Da, Db. lia.
Qed.

(** A sorted column of sortable tasks. *)
Lemma byUrgency_sorted (l : list StoredTask) :
  Forall (fun t => sortable t = true) l ->
  StronglySorted (fun a b => ~ urgentBefore b a) (sort (byUrgency C) l).
Proof.
  intros Hl.
  pose proof (@sort_sorted _ (byUrgency C) (fun t => sortable t = true)
                byUrgency_asym byUrgency_trans l Hl) as Hs.
  pose proof (@sort_Forall _ (byUrgency C) (fun t => sortable t = true)
                l Hl) as Hf.
  revert Hs. apply StronglySorted_impl_on with (P := fun t => sortable t = true);
    [| exact Hf].
  intros a b Sa Sb Hab.
  now apply (not_true_false (@byUrgency_urgentBefore a b Sa Sb)).
Qed.

Lemma byDue_sorted (l : list StoredTask) :
  Forall (fun t => sortable t = true) l ->
  StronglySorted (fun a b => ~ earlier (dueKey b) (dueKey a))
    (sort (byDue C) l).
Proof.
  intros Hl.
  pose proof (@sort_sorted _ (byDue C) (fun t => sortable t = true)
                byDue_asym byDue_trans l Hl) as Hs.
  pose proof (@sort_Forall _ (byDue C) (fun t => sortable t = true)
                l Hl) as Hf.
  revert Hs. apply StronglySorted_impl_on with (P := fun t => sortable t = true);
    [| exact Hf].
  intros a b Sa Sb Hab.
  now apply (not_true_false (@byDue_earlier a b Sa Sb)).
Qed.
End Orders.


(** Why the amended claim asks for a priority among the three levels.
    A priority such as "urgent", which import stores, is no key of
    [pRank]. Against a task with such a priority the comparator of the
    list view, like the one of the columns, returns [NaN] whichever way
    round, which a sort reads as "equal", while it does order the other
    tasks: it is not consistent, and ECMAScript leaves the order of the
    result to the implementation. The insertion sort above leaves a
    low task before a high one when the task with the unknown priority
    stands between them. *)
Lemma urgent_has_no_rank (C : Conversions) (t : StoredTask) :
  s_priority t = VStr (str "urgent") -> rankOf C t = Missing.
Proof. intros E. unfold rankOf. now rewrite E. Qed.

Lemma unknown_priority_compares_NaN (C : Conversions) (a b : StoredTask) :
  s_done a = s_done b ->
  rankOf C a = Missing ->
  sortable b = true ->
  visibleCompare C a b = NaN /\ visibleCompare C b a = NaN
  /\ byUrgency C a b = NaN /\ byUrgency C b a = NaN.
Proof.
  intros Hd Ha Hb. unfold visibleCompare, byUrgency.
  rewrite Ha, (rankOf_sortable C b Hb), Hd, eqb_reflx. cbn.
  repeat split; reflexivity.
Qed.

Lemma unknown_priority_breaks_order (C : Conversions) :
  let l := exampleTask "l" 1 Undefined "low" false in
  let u := exampleTask "u" 2 Undefined "urgent" false in
  let h := exampleTask "h" 3 Undefined "high" false in
  ranksBefore h l
  /\ visible C [l; u; h] = [l; u; h]
  /\ sort (byUrgency C) [l; u; h] = [l; u; h].
Proof.
  split; [| split; reflexivity].
  right. split; [reflexivity |]. left. vm_compute. reflexivity.
Qed.



(** ** Buckets *)

Lemma BucketKey_eqb_eq (a b : BucketKey) : BucketKey_eqb a b = true <-> a = b.
Proof. destruct a, b; cbn; intuition congruence. Qed.

Section BucketFacts.
Variable C : Conversions.
Variable zone : TimeZone.
Variable now : Z.

Lemma fold_push (l : list StoredTask) (init : Buckets) (k : BucketKey) :
  bucket k (fold_left (fun out t => push (bucketOf C zone now t) t out) l init)
  = bucket k init
    ++ filter (fun t => BucketKey_eqb (bucketOf C zone now t) k) l.
Proof.
  revert init; induction l as [| t l IH]; intros init; cbn [fold_left filter].
  - now rewrite app_nil_r.
  - rewrite IH.
    destruct (bucketOf C zone now t), k; cbn; rewrite <- ?app_assoc; reflexivity.
Qed.

(** A column is the sorted list of the tasks the chain of tests sends to
    it. *)
Lemma bucket_buckets (l : list StoredTask) (k : BucketKey) :
  bucket k (buckets C zone now l)
  = sort (match k with bdone => byDue C | _ => byUrgency C end)
      (filter (fun t => BucketKey_eqb (bucketOf C zone now t) k) l).
Proof.
  unfold buckets.
  set (out := fold_left _ l _).
  pose proof (fun k => fold_push l
                {| out_today := []; out_week := []; out_later := [];
                   out_done := [] |} k) as E.
  fold out in E. clearbody out.
  pose proof (E today) as Et. pose proof (E week) as Ew.
  pose proof (E later) as El. pose proof (E bdone) as Ed.
  cbn in Et, Ew, El, Ed.
  destruct k; cbn [bucket out_today out_week out_later out_done]; congruence.
Qed.

(** A task is in a column exactly when it is one of the filtered tasks
    and the chain of tests sends it there. *)
Lemma buckets_In (l : list StoredTask) (k : BucketKey) (t : StoredTask) :
  In t (bucket k (buckets C zone now l))
  <-> In t l /\ bucketOf C zone now t = k.
Proof.
  rewrite bucket_buckets.
  assert (Hin : In t (filter (fun t => BucketKey_eqb (bucketOf C zone now t) k) l)
                <-> In t l /\ bucketOf C zone now t = k).
  { rewrite filter_In, BucketKey_eqb_eq. reflexivity. }
  rewrite <- Hin.
  split; apply Permutation_in;
    solve [apply sort_perm | symmetry; apply sort_perm].
Qed.

(** The tests of the chain on a due date that is a number. *)
Lemma bucketOf_number (t : StoredTask) (d : Z) :
  s_due t = VNum d ->
  bucketOf C zone now t
  = if s_done t then bdone
    else if negb (d =? 0) && (d <=? todayEnd zone now)
            && (todayStart zone now <=? d)
    then today
    else if negb (d =? 0) && (todayEnd zone now <? d)
            && (d <=? weekEnd zone now)
    then week
    else later.
Proof.
  intros E. unfold bucketOf. rewrite E. cbn.
  unfold leNumber, geNumber, gtNumber, leNumber. cbn.
  rewrite <- !Z.leb_antisym. reflexivity.
Qed.

Lemma bucketOf_undefined (t : StoredTask) :
  s_due t = Undefined ->
  bucketOf C zone now t = if s_done t then bdone else later.
Proof. intros E. unfold bucketOf. now rewrite E. Qed.
End BucketFacts.

(** C4. In every time zone, when today's end is after the epoch (as with
    every clock set to 1970 or later) and not before today's start:
    [todayEnd] is the instant of 23:59:59.999 on the local day of [now]
    and [weekEnd] the instant of 23:59:59.999 on the local day of
    [now + 7 days]. A complete task goes to [done]. An open task due
    exactly at [todayEnd] goes to [today]. An open task due one
    millisecond after [todayEnd] goes to [week] when that instant is at
    or before [weekEnd] and to [later] otherwise, and so does every open
    task due after [todayEnd]. An open task with no due date goes to
    [later]. The columns of [buckets] hold exactly the tasks so
    assigned. *)
Theorem bucketing
    (C : Conversions) (zone : TimeZone) (now : Z) (t : StoredTask) :
  0 < todayEnd zone now ->
  todayStart zone now <= todayEnd zone now ->
  (todayEnd zone now
   = UTC zone (localDay zone now * msPerDay + timeOfDay 23 59 59 999)
   /\ weekEnd zone now
      = UTC zone (localDay zone (addDays zone now 7) * msPerDay
                  + timeOfDay 23 59 59 999)
   /\ (readsBack zone (localDay zone now * msPerDay + timeOfDay 23 59 59 999) ->
       localDay zone (todayEnd zone now) = localDay zone now
       /\ localTimeOfDay zone (todayEnd zone now) = msPerDay - 1)
   /\ (keepsDay zone (LocalTime zone now + 7 * msPerDay) ->
       localDay zone (addDays zone now 7) = localDay zone now + 7))
  /\ (s_done t = true -> bucketOf C zone now t = bdone)
  /\ (s_done t = false -> s_due t = VNum (todayEnd zone now) ->
      bucketOf C zone now t = today)
  /\ (s_done t = false -> s_due t = VNum (todayEnd zone now + 1) ->
      bucketOf C zone now t
      = if todayEnd zone now + 1 <=? weekEnd zone now then week else later)
  /\ (forall d, s_done t = false -> s_due t = VNum d ->
      todayEnd zone now < d ->
      (d <= weekEnd zone now -> bucketOf C zone now t = week)
      /\ (weekEnd zone now < d -> bucketOf C zone now t = later))
  /\ (s_done t = false -> s_due t = Undefined ->
      bucketOf C zone now t = later)
  /\ (forall l k, In t (bucket k (buckets C zone now l))
                  <-> In t l /\ bucketOf C zone now t = k).
Proof.
  intros Hpos Hday.
  assert (Hafter : forall d, s_done t = false -> s_due t = VNum d ->
            todayEnd zone now < d ->
            bucketOf C zone now t
            = if d <=? weekEnd zone now then week else later).
  { intros d Hd Hdue Hlt. rewrite (bucketOf_number C zone now t Hdue), Hd.
    destruct (Z.eqb_spec d 0) as [| _]; [lia |]. cbn [negb andb].
    destruct (Z.leb_spec d (todayEnd zone now)); [lia |]. cbn [andb].
    destruct (Z.ltb_spec (todayEnd zone now) d); [| lia]. reflexivity. }
  split; [split; [reflexivity | split; [reflexivity | split]] |].
  - intros Hr. unfold todayEnd, endOfDay, setHours.
    apply (@readsBack_day zone (localDay zone now) _ Hr). unfold msPerDay. cbn. lia.
  - apply keepsDay_addDays.
  - split; [| split; [| split; [| split; [| split]]]].
    + intros Hd. unfold bucketOf. now rewrite Hd.
    + intros Hd Hdue. rewrite (bucketOf_number C zone now t Hdue), Hd.
      destruct (Z.eqb_spec (todayEnd zone now) 0) as [| _]; [lia |].
      cbn [negb andb]. rewrite Z.leb_refl. cbn [andb].
      destruct (Z.leb_spec (todayStart zone now) (todayEnd zone now));
        [reflexivity | lia].
    + intros Hd Hdue. apply Hafter; [assumption | assumption | lia].
    + intros d Hd Hdue Hlt. rewrite (Hafter d Hd Hdue Hlt).
      destruct (Z.leb_spec d (weekEnd zone now)); split; intros;
        (reflexivity || lia).
    + intros Hd Hdue. rewrite (bucketOf_undefined C zone now t Hdue).
      now rewrite Hd.
    + intros l k. apply buckets_In.
Qed.

Lemma bucketing_witness :
  let t := exampleTask "a" 1709000000000 (VNum 1709960400000) "medium" false in
  (0 < todayEnd easternTime 1709917200000
   /\ todayStart easternTime 1709917200000 <= todayEnd easternTime 1709917200000
   /\ s_due t = VNum (todayEnd easternTime 1709917200000 + 1)
   /\ weekEnd easternTime 1709917200000
      <> todayEnd easternTime 1709917200000 + 7 * msPerDay)
  /\ forall C, bucketOf C easternTime 1709917200000 t = week.
Proof.
  intros t.
  assert (H1 : 0 < todayEnd easternTime 1709917200000) by reflexivity.
  assert (H2 : todayStart easternTime 1709917200000
               <= todayEnd easternTime 1709917200000) by (vm_compute; discriminate).
  split; [split; [exact H1 | split; [exact H2 | split; [reflexivity |]]] |].
  - vm_compute. discriminate.
  - intros C.
    exact (proj1 (proj2 (proj2 (proj2 (@bucketing C easternTime 1709917200000 t
                                         H1 H2)))) eq_refl eq_refl).
Defined.

(** ** A due date of 0 *)

Lemma propertyNe_same (x : property) : propertyNe x x = false.
Proof.
  destruct x; cbn; [now rewrite Z.eqb_refl | now rewrite jsstring_eqb_refl
                   | reflexivity].
Qed.

(** A task with a due date that is a number other than 0 ranks before a
    task of its tier that is due at 0 or has no due date. *)
Lemma ranksBefore_no_due (a b : StoredTask) (d : Z) :
  s_due a = VNum 0 \/ s_due a = Undefined ->
  s_due b = VNum d -> d <> 0 ->
  s_done a = s_done b -> s_priority a = s_priority b ->
  ranksBefore b a.
Proof.
  intros Ha Hb Hd Hdone Hp.
  assert (Ka : dueKey a = None)
    by (unfold dueKey; destruct Ha as [-> | ->]; reflexivity).
  assert (Kb : dueKey b = Some d).
  { unfold dueKey. rewrite Hb. cbn.
    destruct (Z.eqb_spec d 0); [contradiction | reflexivity]. }
  assert (Kr : rankKey b = rankKey a) by (unfold rankKey; now rewrite Hp).
  unfold ranksBefore. rewrite Ka, Kb, Kr. cbn.
  right; split; [congruence |]; right; split; [reflexivity |]; now left.
Qed.


Local Open Scope N_scope.

(** ** The matcher on literal words and classes *)

Lemma prefixBy_length (eq : N -> N -> bool) (w s : jsstring) :
  prefixBy eq w s = true -> (length w <= length s)%nat.
Proof.
  revert s; induction w as [| a w IH]; intros [| x s]; cbn;
    try lia; try discriminate.
  intros [_ H]%andb_prop. apply IH in H. lia.
Qed.

Lemma lastOf_cons (prev : option N) (x : N) (l : jsstring) :
  lastOf prev (x :: l) = lastOf (Some x) l.
Proof.
  unfold lastOf. cbn [rev].
  destruct (rev l) as [| y l'] eqn:E; reflexivity.
Qed.

Section MatcherFacts.
Variable U : Unicode.

Lemma readChar_units (fl : flags) (s : jsstring) :
  unicode fl = false ->
  readChar fl s = match s with [] => None | c :: s' => Some (c, s') end.
Proof. intros H. unfold readChar. rewrite H. reflexivity. Qed.

Lemma repLoop_nothing (fl : flags) (R : Type) (caps : list jsstring)
    (k : option N -> jsstring -> list jsstring -> option R)
    (prev : option N) (s : jsstring) :
  unicode fl = false ->
  repLoop fl 0 (fun _ => false) caps k prev s 0 = k prev s caps.
Proof. intros H. destruct s; cbn; rewrite ?H; reflexivity. Qed.

(** A literal word matches when the text starts with it. *)
Lemma exec_lit (fl : flags) (R : Type) (w : jsstring) (prev : option N)
    (s : jsstring) (caps : list jsstring)
    (k : option N -> jsstring -> list jsstring -> option R) :
  unicode fl = false ->
  exec U fl (lit w) prev s caps k
  = if prefixBy (sameChar U fl) w s
    then k (lastOf prev (firstn (length w) s)) (skipn (length w) s) caps
    else None.
Proof.
  intros Hu. revert prev s. induction w as [| c w IH]; intros prev s.
  - cbn [lit exec]. now rewrite repLoop_nothing.
  - destruct w as [| c2 w].
    + cbn [lit exec]. rewrite readChar_units by exact Hu.
      destruct s as [| x s]; [reflexivity |]. cbn.
      rewrite andb_true_r. reflexivity.
    + change (lit (c :: c2 :: w)) with (Seq (Char c) (lit (c2 :: w))).
      cbn [exec]. rewrite readChar_units by exact Hu.
      destruct s as [| x s]; [reflexivity |].
      cbn [prefixBy]. destruct (sameChar U fl c x); [| reflexivity].
      rewrite IH. cbn [andb]. cbn [length firstn skipn].
      rewrite lastOf_cons. reflexivity.
Qed.

(** The greedy loop over code units, under a continuation that accepts
    wherever it is called and does not look at the previous character. *)
Lemma repLoop_units (fl : flags) (R : Type) (min : nat) (p : N -> bool)
    (caps : list jsstring)
    (k : option N -> jsstring -> list jsstring -> option R)
    (prev : option N) (s : jsstring) (n : nat) :
  unicode fl = false ->
  (forall q s' c, k q s' c <> None) ->
  (forall q q' s' c, k q s' c = k q' s' c) ->
  repLoop fl min p caps k prev s n
  = if Nat.leb min (n + classRun p s)
    then k None (skipn (classRun p s) s) caps else None.
Proof.
  intros Hu Hk Hq. revert prev n. induction s as [| c s IH]; intros prev n.
  - cbn. rewrite Nat.add_0_r. destruct (Nat.leb min n); [apply Hq | reflexivity].
  - cbn [repLoop classRun]. rewrite Hu. cbn [andb].
    destruct (p c).
    + rewrite IH. rewrite <- plus_n_Sm. cbn [plus skipn].
      destruct (Nat.leb min (S (n + classRun p s))) eqn:E.
      * destruct (k None (skipn (classRun p s) s) caps) eqn:Ek; [reflexivity |].
        now apply Hk in Ek.
      * cbn [orElse]. destruct (Nat.leb_spec min n); [| reflexivity].
        apply Nat.leb_gt in E. lia.
    + rewrite Nat.add_0_r. cbn [skipn].
      destruct (Nat.leb min n); [apply Hq | reflexivity].
Qed.

(** The same loop over code points, once the minimum is reached. *)
Lemma repLoop_points (R : Type) (min : nat) (p : N -> bool)
    (caps : list jsstring)
    (k : option N -> jsstring -> list jsstring -> option R)
    (prev : option N) (s : jsstring) (n : nat) :
  (min <= n)%nat ->
  (forall q s' c, k q s' c <> None) ->
  (forall q q' s' c, k q s' c = k q' s' c) ->
  repLoop flag_u min p caps k prev s n
  = k None (skipn (classRunU p s) s) caps.
Proof.
  intros Hn Hk Hq.
  assert (Hor : forall a b : option R, a <> None -> orElse a b = a).
  { intros [x |] b Ha; [reflexivity | contradiction]. }
  remember (length s) as m eqn:Hm. revert s Hm prev n Hn.
  induction m as [m IH] using lt_wf_ind. intros s Hm prev n Hn.
  assert (Hstop : (if Nat.leb min n then k prev s caps else None) = k None s caps).
  { apply Nat.leb_le in Hn. rewrite Hn. apply Hq. }
  destruct s as [| c s]; [exact Hstop |].
  cbn [repLoop classRunU]. cbn [unicode flag_u andb]. rewrite Hstop.
  assert (Hsingle :
    (if p c then orElse (repLoop flag_u min p caps k (Some c) s (S n)) (k None (c :: s) caps)
     else k None (c :: s) caps)
    = k None (skipn (if p c then S (classRunU p s) else O) (c :: s)) caps).
  { destruct (p c); [| reflexivity].
    rewrite (IH (length s)) by (cbn in Hm; lia).
    cbn [skipn]. apply Hor, Hk. }
  destruct (isHighSurrogate c).
  - destruct s as [| lo s].
    + exact Hsingle.
    + destruct (isLowSurrogate lo).
      * destruct (p (codePointOfPair c lo)); [| reflexivity].
        rewrite (IH (length s)) by (cbn in Hm; lia).
        cbn [skipn]. apply Hor, Hk.
      * exact Hsingle.
  - exact Hsingle.
Qed.
End MatcherFacts.

(** ** Scanning a text for matches *)

Section ScanFacts.
Variable U : Unicode.
Variable fl : flags.
Variable r : regex.
Variable len : jsstring -> option nat.

Hypothesis matchAt_len :
  forall prev s, option_map fst (matchAt U fl r prev s) = len s.
Hypothesis len_bounds :
  forall s n, len s = Some n -> (1 <= n <= length s)%nat.

Lemma len_nil : len [] = None.
Proof.
  destruct (len []) as [n |] eqn:E; [| reflexivity].
  apply len_bounds in E. cbn in E. lia.
Qed.

Lemma matchAt_none (prev : option N) (s : jsstring) :
  len s = None -> matchAt U fl r prev s = None.
Proof.
  intros H. pose proof (matchAt_len prev s) as E. rewrite H in E.
  destruct (matchAt U fl r prev s); [discriminate | reflexivity].
Qed.

Lemma matchAt_some (prev : option N) (s : jsstring) (n : nat) :
  len s = Some n -> exists caps, matchAt U fl r prev s = Some (n, caps).
Proof.
  intros H. pose proof (matchAt_len prev s) as E. rewrite H in E.
  destruct (matchAt U fl r prev s) as [[m caps] |]; [| discriminate].
  injection E as ->. now exists caps.
Qed.

Variable repl : jsstring.

Lemma replaceFrom_skip (prev : option N) (s : jsstring) (skip : nat) :
  (skip <= length s)%nat ->
  replaceFrom U fl r repl prev s skip
  = replaceFrom U fl r repl None (skipn skip s) 0.
Proof.
  revert prev skip. induction s as [| c s IH]; intros prev skip Hs.
  - assert (skip = O) as -> by (cbn in Hs; lia). cbn.
    now rewrite !matchAt_none by apply len_nil.
  - destruct skip as [| skip].
    + cbn [skipn replaceFrom].
      destruct (len (c :: s)) as [n |] eqn:E.
      * destruct (matchAt_some prev E) as [caps ->].
        destruct (matchAt_some None E) as [caps' ->]. reflexivity.
      * now rewrite !matchAt_none by exact E.
    + cbn [skipn replaceFrom]. apply IH. cbn in Hs. lia.
Qed.

Lemma replaceAll_nil : replaceAll U fl r repl [] = [].
Proof.
  unfold replaceAll. cbn. now rewrite matchAt_none by apply len_nil.
Qed.

(** The replacement, read from the head of the text: a match is replaced
    and the scan goes on after it; otherwise the character is kept. *)
Lemma replaceAll_cons (c : N) (s : jsstring) :
  replaceAll U fl r repl (c :: s)
  = match len (c :: s) with
    | Some n => repl ++ replaceAll U fl r repl (skipn n (c :: s))
    | None => c :: replaceAll U fl r repl s
    end.
Proof.
  unfold replaceAll. cbn [replaceFrom].
  destruct (len (c :: s)) as [n |] eqn:E.
  - destruct (matchAt_some None E) as [caps ->].
    apply len_bounds in E. destruct n as [| n]; [lia |].
    cbn [skipn]. f_equal. apply replaceFrom_skip. cbn in E. lia.
  - rewrite matchAt_none by exact E. f_equal.
    rewrite replaceFrom_skip with (skip := O) by lia. reflexivity.
Qed.

Lemma matchAllFrom_none (prev : option N) (s : jsstring) :
  noMatch len s -> matchAllFrom U fl r prev s 0 = [].
Proof.
  revert prev. induction s as [| c s IH]; intros prev [Hs Hrest]; cbn.
  - now rewrite matchAt_none.
  - rewrite matchAt_none by exact Hs. now apply IH.
Qed.

Lemma searchFrom_none (prev : option N) (s : jsstring) (i : nat) :
  noMatch len s -> searchFrom U fl r prev s i = None.
Proof.
  revert prev i. induction s as [| c s IH]; intros prev i [Hs Hrest]; cbn.
  - now rewrite matchAt_none.
  - rewrite matchAt_none by exact Hs. now apply IH.
Qed.
End ScanFacts.

(** ** The three patterns of [extractTokens] *)

Lemma classRunU_le (p : N -> bool) (s : jsstring) :
  (classRunU p s <= length s)%nat.
Proof.
  remember (length s) as m eqn:Hm. revert s Hm.
  induction m as [m IH] using lt_wf_ind. intros s Hm.
  destruct s as [| c s]; [cbn; lia |]. cbn [classRunU]. cbn in Hm.
  assert (Hone : ((if p c then S (classRunU p s) else O) <= m)%nat).
  { destruct (p c); [| lia]. specialize (IH (length s) ltac:(lia) s eq_refl). lia. }
  destruct (isHighSurrogate c); [| exact Hone].
  destruct s as [| lo s]; [destruct (p c); lia |].
  destruct (isLowSurrogate lo); [| exact Hone].
  destruct (p (codePointOfPair c lo)); [| lia].
  cbn in Hm. specialize (IH (length s) ltac:(lia) s eq_refl). lia.
Qed.

Lemma classRun_le (p : N -> bool) (s : jsstring) :
  (classRun p s <= length s)%nat.
Proof.
  induction s as [| c s IH]; cbn; [lia |]. destruct (p c); lia.
Qed.

Lemma length_skipn_le (n : nat) (s : jsstring) :
  (n <= length s)%nat -> (length s - length (skipn n s) = n)%nat.
Proof. intros H. rewrite length_skipn. lia. Qed.

Ltac same_match :=
  f_equal; f_equal; [lia | f_equal; f_equal; lia].

Section PatternFacts.
Variable U : Unicode.

(** [cls+] with the [u] flag. *)
Lemma repLoop_plus (R : Type) (p : N -> bool) (caps : list jsstring)
    (k : option N -> jsstring -> list jsstring -> option R)
    (prev : option N) (s : jsstring) :
  (forall q s' c, k q s' c <> None) ->
  (forall q q' s' c, k q s' c = k q' s' c) ->
  repLoop flag_u 1 p caps k prev s 0
  = match classRunU p s with
    | O => None
    | m => k None (skipn m s) caps
    end.
Proof.
  intros Hk Hq.
  assert (Hor : forall a b : option R, a <> None -> orElse a b = a).
  { intros [x |] b Ha; [reflexivity | contradiction]. }
  destruct s as [| c s]; [reflexivity |].
  cbn [repLoop classRunU]. cbn [unicode flag_u andb Nat.leb].
  assert (Hsingle :
    (if p c then orElse (repLoop flag_u 1 p caps k (Some c) s 1) None else None)
    = match (if p c then S (classRunU p s) else O) with
      | O => None
      | m => k None (skipn m (c :: s)) caps
      end).
  { destruct (p c); [| reflexivity].
    rewrite repLoop_points by (auto; lia). cbn [skipn]. apply Hor, Hk. }
  destruct (isHighSurrogate c); [| exact Hsingle].
  destruct s as [| lo s]; [exact Hsingle |].
  destruct (isLowSurrogate lo); [| exact Hsingle].
  destruct (p (codePointOfPair c lo)); [| reflexivity].
  rewrite repLoop_points by (auto; lia). cbn [skipn]. apply Hor, Hk.
Qed.

Lemma matchAt_tagRe (prev : option N) (s : jsstring) :
  matchAt U flag_u (tagRe U) prev s
  = match tagLen U s with
    | Some n => Some (n, [firstn (n - 1) (tl s)])
    | None => None
    end.
Proof.
  unfold matchAt, tagRe, tagLen. cbn [exec].
  destruct s as [| c s]; [reflexivity |].
  unfold readChar, sameChar. cbn [unicode ignoreCase flag_u andb].
  rewrite (N.eqb_sym c).
  assert (Hhi : isHighSurrogate c = true -> (ch "#" =? c) = false).
  { unfold isHighSurrogate, inRange. intros [H _]%andb_prop.
    apply N.leb_le in H. apply N.eqb_neq. change (ch "#") with 35. lia. }
  assert (Hpair : forall lo, (ch "#" =? codePointOfPair c lo) = false).
  { intros lo. apply N.eqb_neq. unfold codePointOfPair.
    change (ch "#") with 35. lia. }
  assert (Hmain :
    (if ch "#" =? c
     then repLoop flag_u 1 (tagClass U) []
            (fun prev' s' caps' =>
               Some ((length (c :: s) - length s')%nat,
                     caps' ++ [firstn (length s - length s') s]))
            (Some c) s 0
     else None)
    = (if ch "#" =? c
       then match classRunU (tagClass U) s with
            | O => None
            | S n => Some (S (S n), [firstn (S (S n) - 1) (tl (c :: s))])
            end
       else None)).
  { destruct (ch "#" =? c); [| reflexivity].
    rewrite repLoop_plus by (intros; first [discriminate | reflexivity]).
    pose proof (classRunU_le (tagClass U) s) as Hle.
    destruct (classRunU (tagClass U) s) as [| n]; [reflexivity |].
    cbn [length tl app]. rewrite length_skipn.
    same_match. }
  destruct (isHighSurrogate c) eqn:Hc.
  - rewrite (Hhi eq_refl).
    destruct s as [| lo s]; [now rewrite (Hhi eq_refl) |].
    destruct (isLowSurrogate lo); [now rewrite Hpair | now rewrite (Hhi eq_refl)].
  - rewrite Hmain. destruct (ch "#" =? c); [| reflexivity].
    destruct (classRunU (tagClass U) s); reflexivity.
Qed.

Lemma matchAt_spacesRe (prev : option N) (s : jsstring) :
  matchAt U noFlags spacesRe prev s
  = match spacesLen s with Some n => Some (n, []) | None => None end.
Proof.
  unfold matchAt, spacesRe, spacesLen. cbn [exec].
  rewrite repLoop_units by (intros; first [reflexivity | discriminate]).
  cbn [plus]. destruct (Nat.leb 2 (classRun isSpace s)); [| reflexivity].
  now rewrite length_skipn_le by apply classRun_le.
Qed.

(** The captured word of a marker, by its length. *)
Lemma matchAt_prRe (prev : option N) (s : jsstring) :
  matchAt U flag_i prRe prev s
  = match prLen U s with
    | Some n => Some (n, [firstn (n - 1) (tl s)])
    | None => None
    end.
Proof.
  unfold matchAt, prRe, prLen. cbn [exec].
  rewrite readChar_units by reflexivity.
  destruct s as [| c s]; [reflexivity |].
  destruct (sameChar U flag_i (ch "!") c); [| reflexivity].
  rewrite !exec_lit by reflexivity.
  cbn [tl]. change (length (str "high")) with 4%nat.
  change (length (str "med")) with 3%nat. change (length (str "low")) with 3%nat.
  destruct (prefixBy (sameChar U flag_i) (str "high") s) eqn:Hh.
  { apply prefixBy_length in Hh. change (length (str "high")) with 4%nat in Hh.
    cbn [orElse app length]. rewrite !length_skipn.
    same_match. }
  cbn [orElse].
  destruct (prefixBy (sameChar U flag_i) (str "med") s) eqn:Hm.
  { apply prefixBy_length in Hm. change (length (str "med")) with 3%nat in Hm.
    cbv beta. rewrite ?exec_lit by reflexivity.
    change (length (str "ium")) with 3%nat.
    destruct (prefixBy (sameChar U flag_i) (str "ium") (skipn 3 s)) eqn:Hi.
    - apply prefixBy_length in Hi. change (length (str "ium")) with 3%nat in Hi.
      rewrite length_skipn in Hi.
      cbn [orElse app length]. rewrite !length_skipn.
      same_match.
    - cbn [orElse app length]. rewrite !length_skipn.
      same_match. }
  cbn [orElse].
  destruct (prefixBy (sameChar U flag_i) (str "low") s) eqn:Hl; [| reflexivity].
  apply prefixBy_length in Hl. change (length (str "low")) with 3%nat in Hl.
  cbn [orElse app length]. rewrite !length_skipn.
  same_match.
Qed.
End PatternFacts.

(** ** Characters *)

Ltac bool_hyp H :=
  repeat first
    [ rewrite orb_true_iff in H | rewrite andb_true_iff in H
    | rewrite orb_false_iff in H | rewrite andb_false_iff in H
    | rewrite negb_true_iff in H | rewrite negb_false_iff in H
    | rewrite N.leb_le in H | rewrite N.leb_gt in H
    | rewrite N.ltb_lt in H | rewrite N.ltb_ge in H
    | rewrite N.eqb_eq in H | rewrite N.eqb_neq in H ].

Ltac char_facts :=
  unfold isLetter, isWordChar, isSpace, isSurrogate, isHighSurrogate,
    isLowSurrogate, isUpperAZ, isLowerAZ, isDigit, isAscii, inRange in *;
  change (ch "#") with 35 in *; change (ch "!") with 33 in *;
  change (ch "_") with 95 in *; change (ch ":") with 58 in *;
  change (ch "-") with 45 in *;
  repeat match goal with
         | H : _ = true |- _ => progress bool_hyp H
         | H : _ = false |- _ => progress bool_hyp H
         end.

Ltac char_false := match goal with |- ?b = false =>
  let E := fresh "E" in destruct b eqn:E; [exfalso; char_facts; lia | reflexivity] end.
Ltac char_true := match goal with |- ?b = true =>
  let E := fresh "E" in destruct b eqn:E; [reflexivity | exfalso; char_facts; lia] end.

Lemma letter_not_space (c : N) : isLetter c = true -> isSpace c = false.
Proof. intros H. char_false. Qed.

Lemma letter_not_surrogate (c : N) : isLetter c = true -> isSurrogate c = false.
Proof. intros H. char_false. Qed.

Lemma space_not_surrogate (c : N) : isSpace c = true -> isSurrogate c = false.
Proof. intros H. char_false. Qed.

Lemma high_is_surrogate (c : N) : isHighSurrogate c = true -> isSurrogate c = true.
Proof. intros H. char_true. Qed.

Lemma low_is_surrogate (c : N) : isLowSurrogate c = true -> isSurrogate c = true.
Proof. intros H. char_true. Qed.

Lemma high_not_low (c : N) : isHighSurrogate c = true -> isLowSurrogate c = false.
Proof. intros H. char_false. Qed.

Section ClassFacts.
Variable U : Unicode.

Lemma tagClass_letter (c : N) : isLetter c = true -> tagClass U c = true.
Proof.
  intros H. unfold tagClass, isL.
  assert (isAscii c = true) as -> by char_true.
  unfold isLetter in H. now rewrite H.
Qed.

Lemma tagClass_surrogate (c : N) : isSurrogate c = true -> tagClass U c = false.
Proof.
  intros H. unfold tagClass, isL, isN.
  assert (isAscii c = false) as -> by char_false.
  rewrite H. cbn [orb].
  assert ((c =? ch "_") = false) as -> by char_false.
  assert ((c =? ch ":") = false) as -> by char_false.
  assert ((c =? ch "-") = false) as -> by char_false.
  reflexivity.
Qed.

Lemma tagClass_space (c : N) : isSpace c = true -> tagClass U c = false.
Proof.
  intros H. unfold tagClass, isL, isN. rewrite H, !orb_true_r.
  assert ((c =? ch "_") = false) as -> by char_false.
  assert ((c =? ch ":") = false) as -> by char_false.
  assert ((c =? ch "-") = false) as -> by char_false.
  destruct (isAscii c) eqn:Ha; [| reflexivity].
  assert (isUpperAZ c = false) as -> by char_false.
  assert (isLowerAZ c = false) as -> by char_false.
  assert (isDigit c = false) as -> by char_false.
  reflexivity.
Qed.

Lemma tagClass_hash : tagClass U (ch "#") = false.
Proof. reflexivity. Qed.

Lemma tagClass_bang : tagClass U (ch "!") = false.
Proof. reflexivity. Qed.

(** Case-insensitive comparison with a lower-case ASCII letter accepts
    that letter and its upper case, nothing else. *)
Lemma sameChar_lower (a x : N) :
  isLowerAZ a = true -> sameChar U flag_i a x = true -> isLetter x = true.
Proof.
  intros Ha. unfold sameChar, canonicalize. cbn [ignoreCase flag_i].
  assert (isAscii a = true) as -> by char_true. rewrite Ha.
  destruct (isAscii x) eqn:Hx.
  - destruct (isLowerAZ x) eqn:Hl; intros H; apply N.eqb_eq in H;
      char_true.
  - intros H. apply N.eqb_eq in H. exfalso.
    destruct (isAscii (uniUpperUnit U x)) eqn:Hu; char_facts; lia.
Qed.

Lemma sameChar_bang (x : N) : sameChar U flag_i (ch "!") x = (x =? ch "!").
Proof.
  unfold sameChar, canonicalize. cbn [ignoreCase flag_i].
  change (isAscii (ch "!")) with true. change (isLowerAZ (ch "!")) with false.
  cbv iota.
  destruct (N.eqb_spec x (ch "!")) as [-> | Hne]; [reflexivity |].
  apply N.eqb_neq. intros H. apply Hne.
  destruct (isAscii x) eqn:Hx.
  - destruct (isLowerAZ x) eqn:Hl; char_facts; lia.
  - destruct (isAscii (uniUpperUnit U x)) eqn:Hu; char_facts; lia.
Qed.
End ClassFacts.

(** ** The stages of the cleaning *)

Section Stages.
Variable U : Unicode.

Lemma matchAt_tagLen (prev : option N) (s : jsstring) :
  option_map fst (matchAt U flag_u (tagRe U) prev s) = tagLen U s.
Proof. rewrite matchAt_tagRe. now destruct (tagLen U s). Qed.

Lemma matchAt_prLen (prev : option N) (s : jsstring) :
  option_map fst (matchAt U flag_i prRe prev s) = prLen U s.
Proof. rewrite matchAt_prRe. now destruct (prLen U s). Qed.

Lemma matchAt_spacesLen (prev : option N) (s : jsstring) :
  option_map fst (matchAt U noFlags spacesRe prev s) = spacesLen s.
Proof. rewrite matchAt_spacesRe. now destruct (spacesLen s). Qed.

Lemma tagLen_bounds (s : jsstring) (n : nat) :
  tagLen U s = Some n -> (1 <= n <= length s)%nat.
Proof.
  unfold tagLen. destruct s as [| c r]; [discriminate |].
  destruct (c =? ch "#"); [| discriminate].
  pose proof (classRunU_le (tagClass U) r) as H.
  destruct (classRunU (tagClass U) r); [discriminate |].
  intros [= <-]. cbn [length]. lia.
Qed.

Lemma prLen_bounds (s : jsstring) (n : nat) :
  prLen U s = Some n -> (1 <= n <= length s)%nat.
Proof.
  unfold prLen. destruct s as [| c r]; [discriminate |].
  destruct (sameChar U flag_i (ch "!") c); [| discriminate].
  destruct (prefixBy _ (str "high") r) eqn:Hh.
  { apply prefixBy_length in Hh. change (length (str "high")) with 4%nat in Hh.
    intros [= <-]. cbn [length]. lia. }
  destruct (prefixBy _ (str "med") r) eqn:Hm.
  { apply prefixBy_length in Hm. change (length (str "med")) with 3%nat in Hm.
    destruct (prefixBy _ (str "ium") (skipn 3 r)) eqn:Hi.
    - apply prefixBy_length in Hi. rewrite length_skipn in Hi.
      change (length (str "ium")) with 3%nat in Hi.
      intros [= <-]. cbn [length]. lia.
    - intros [= <-]. cbn [length]. lia. }
  destruct (prefixBy _ (str "low") r) eqn:Hl; [| discriminate].
  apply prefixBy_length in Hl. change (length (str "low")) with 3%nat in Hl.
  intros [= <-]. cbn [length]. lia.
Qed.

Lemma spacesLen_bounds (s : jsstring) (n : nat) :
  spacesLen s = Some n -> (1 <= n <= length s)%nat.
Proof.
  unfold spacesLen. pose proof (classRun_le isSpace s) as H.
  destruct (Nat.leb_spec 2 (classRun isSpace s)); [| discriminate].
  intros [= <-]. lia.
Qed.

Lemma removeTags_nil : removeTags U [] = [].
Proof.
  unfold removeTags. apply replaceAll_nil with (len := tagLen U);
    [apply matchAt_tagLen | apply tagLen_bounds].
Qed.

Lemma removeTags_cons (c : N) (s : jsstring) :
  removeTags U (c :: s)
  = match tagLen U (c :: s) with
    | Some n => removeTags U (skipn n (c :: s))
    | None => c :: removeTags U s
    end.
Proof.
  unfold removeTags.
  rewrite replaceAll_cons with (len := tagLen U);
    [reflexivity | apply matchAt_tagLen | apply tagLen_bounds].
Qed.

Lemma removeMarkers_nil : removeMarkers U [] = [].
Proof.
  unfold removeMarkers. apply replaceAll_nil with (len := prLen U);
    [apply matchAt_prLen | apply prLen_bounds].
Qed.

Lemma removeMarkers_cons (c : N) (s : jsstring) :
  removeMarkers U (c :: s)
  = match prLen U (c :: s) with
    | Some n => removeMarkers U (skipn n (c :: s))
    | None => c :: removeMarkers U s
    end.
Proof.
  unfold removeMarkers.
  rewrite replaceAll_cons with (len := prLen U);
    [reflexivity | apply matchAt_prLen | apply prLen_bounds].
Qed.

Lemma collapseSpaces_nil : collapseSpaces U [] = [].
Proof.
  unfold collapseSpaces. apply replaceAll_nil with (len := spacesLen);
    [apply matchAt_spacesLen | apply spacesLen_bounds].
Qed.

Lemma collapseSpaces_cons (c : N) (s : jsstring) :
  collapseSpaces U (c :: s)
  = match spacesLen (c :: s) with
    | Some n => 32 :: collapseSpaces U (skipn n (c :: s))
    | None => c :: collapseSpaces U s
    end.
Proof.
  unfold collapseSpaces.
  rewrite replaceAll_cons with (len := spacesLen);
    [reflexivity | apply matchAt_spacesLen | apply spacesLen_bounds].
Qed.

Lemma markersDelimited_cons (c : N) (s : jsstring) :
  markersDelimited U (c :: s)
  = match prLen U (c :: s) with
    | Some n => delimited (skipn n (c :: s))
    | None => true
    end && markersDelimited U s.
Proof.
  cbn [markersDelimited]. rewrite matchAt_prRe.
  now destruct (prLen U (c :: s)).
Qed.

(** *** Suffixes *)

Lemma noMatch_skipn (len : jsstring -> option nat) (n : nat) (s : jsstring) :
  noMatch len s -> noMatch len (skipn n s).
Proof.
  revert s. induction n as [| n IH]; intros s H; [exact H |].
  destruct s as [| c s]; [exact H |]. cbn [skipn]. apply IH. apply H.
Qed.

Lemma markersDelimited_skipn (n : nat) (s : jsstring) :
  markersDelimited U s = true -> markersDelimited U (skipn n s) = true.
Proof.
  revert s. induction n as [| n IH]; intros s H; [exact H |].
  destruct s as [| c s]; [exact H |]. cbn [skipn]. apply IH.
  rewrite markersDelimited_cons in H. now apply andb_prop in H.
Qed.
End Stages.

(** ** Removing the tags *)

Section TagFacts.
Variable U : Unicode.

Let tagRun := classRunU (tagClass U).

Lemma tagRun_high (c : N) (s : jsstring) :
  isHighSurrogate c = true ->
  tagRun (c :: s)
  = match s with
    | lo :: s' =>
        if isLowSurrogate lo && tagClass U (codePointOfPair c lo)
        then S (S (tagRun s')) else O
    | [] => O
    end.
Proof.
  intros Hc. unfold tagRun. cbn [classRunU]. rewrite Hc.
  rewrite (tagClass_surrogate U c (high_is_surrogate c Hc)).
  destruct s as [| lo s]; [reflexivity |].
  destruct (isLowSurrogate lo); [| reflexivity].
  now destruct (tagClass U (codePointOfPair c lo)).
Qed.

Lemma tagRun_plain (c : N) (s : jsstring) :
  isHighSurrogate c = false ->
  tagRun (c :: s) = if tagClass U c then S (tagRun s) else O.
Proof. intros Hc. unfold tagRun. cbn [classRunU]. now rewrite Hc. Qed.

(** After the longest run of tag characters there is no tag character,
    and a well-formed text is still well formed. *)
Lemma tagRun_stop (s : jsstring) :
  tagRun (skipn (tagRun s) s) = O
  /\ (wellFormed s = true -> wellFormed (skipn (tagRun s) s) = true).
Proof.
  remember (length s) as m eqn:Hm. revert s Hm.
  induction m as [m IH] using lt_wf_ind. intros s Hm.
  destruct s as [| c s]; [split; reflexivity |]. cbn in Hm.
  destruct (isHighSurrogate c) eqn:Hc.
  - rewrite (tagRun_high c s Hc).
    destruct s as [| lo s]; [split; [apply (tagRun_high c [] Hc) | auto] |].
    destruct (isLowSurrogate lo && tagClass U (codePointOfPair c lo)) eqn:Hp.
    + cbn [skipn]. destruct (IH (length s) ltac:(cbn in Hm; lia) s eq_refl)
        as [H1 H2].
      split; [exact H1 |]. cbn [wellFormed]. rewrite Hc.
      intros [_ Hw]%andb_prop. auto.
    + cbn [skipn]. split; [| auto]. rewrite (tagRun_high c (lo :: s) Hc).
      now rewrite Hp.
  - rewrite (tagRun_plain c s Hc).
    destruct (tagClass U c) eqn:Hp.
    + cbn [skipn]. destruct (IH (length s) ltac:(lia) s eq_refl) as [H1 H2].
      split; [exact H1 |]. cbn [wellFormed]. rewrite Hc.
      intros [_ Hw]%andb_prop. auto.
    + cbn [skipn]. split; [| auto]. rewrite (tagRun_plain c s Hc).
      now rewrite Hp.
Qed.

Lemma tagStart_nil : tagStart U [] = false.
Proof. reflexivity. Qed.

Lemma tagStart_plain (c : N) (s : jsstring) :
  isHighSurrogate c = false -> tagStart U (c :: s) = tagClass U c.
Proof.
  intros Hc. unfold tagStart. fold tagRun. rewrite (tagRun_plain c s Hc).
  now destruct (tagClass U c).
Qed.

Lemma tagStart_high (c : N) (s : jsstring) :
  isHighSurrogate c = true ->
  tagStart U (c :: s)
  = match s with
    | lo :: _ => isLowSurrogate lo && tagClass U (codePointOfPair c lo)
    | [] => false
    end.
Proof.
  intros Hc. unfold tagStart. fold tagRun. rewrite (tagRun_high c s Hc).
  destruct s as [| lo s]; [reflexivity |].
  now destruct (isLowSurrogate lo && tagClass U (codePointOfPair c lo)).
Qed.

Lemma tagLen_cons (c : N) (s : jsstring) :
  tagLen U (c :: s)
  = if (c =? ch "#") && tagStart U s then Some (S (tagRun s)) else None.
Proof.
  unfold tagLen, tagStart. fold tagRun.
  destruct (c =? ch "#"); [| reflexivity].
  now destruct (tagRun s).
Qed.

Lemma tagLen_not_hash (c : N) (s : jsstring) :
  (c =? ch "#") = false -> tagLen U (c :: s) = None.
Proof. intros H. rewrite tagLen_cons. now rewrite H. Qed.

Lemma removeTags_keep (c : N) (s : jsstring) :
  (c =? ch "#") = false -> removeTags U (c :: s) = c :: removeTags U s.
Proof. intros H. rewrite removeTags_cons. now rewrite tagLen_not_hash. Qed.

Lemma surrogate_not_hash (c : N) : isSurrogate c = true -> (c =? ch "#") = false.
Proof. intros H. char_false. Qed.

Lemma not_surrogate (c : N) :
  isHighSurrogate c = false -> isLowSurrogate c = false -> isSurrogate c = false.
Proof. intros H1 H2. char_false. Qed.

(** What a well-formed text looks like at its head. *)
Lemma wellFormed_cases (c : N) (s : jsstring) :
  wellFormed (c :: s) = true ->
  (isHighSurrogate c = true
   /\ exists lo s', s = lo :: s' /\ isLowSurrogate lo = true
                    /\ wellFormed s' = true)
  \/ (isSurrogate c = false /\ wellFormed s = true).
Proof.
  cbn [wellFormed]. destruct (isHighSurrogate c) eqn:Hc.
  - destruct s as [| lo s]; [discriminate |].
    intros [H1 H2]%andb_prop. left. split; [reflexivity |].
    now exists lo, s.
  - intros [H1 H2]%andb_prop. right. split; [| exact H2].
    apply not_surrogate; [exact Hc |]. now apply negb_true_iff.
Qed.

(** Removing the tags of a well-formed text puts no tag character at the
    head of a text that had none there. *)
Lemma removeTags_tagStart (s : jsstring) :
  wellFormed s = true -> tagStart U s = false ->
  tagStart U (removeTags U s) = false.
Proof.
  remember (length s) as m eqn:Hm. revert s Hm.
  induction m as [m IH] using lt_wf_ind. intros s Hm Hw Hs.
  destruct s as [| c s]; [now rewrite removeTags_nil |]. cbn in Hm.
  destruct (wellFormed_cases c s Hw)
    as [(Hc & lo & s' & -> & Hlo & Hw') | (Hc & Hw')].
  - rewrite removeTags_keep
      by (apply surrogate_not_hash; now apply high_is_surrogate).
    rewrite removeTags_keep
      by (apply surrogate_not_hash; now apply low_is_surrogate).
    rewrite tagStart_high in * by exact Hc. exact Hs.
  - assert (Hhi : isHighSurrogate c = false).
    { destruct (isHighSurrogate c) eqn:E; [| reflexivity].
      apply high_is_surrogate in E. congruence. }
    rewrite removeTags_cons, tagLen_cons.
    destruct ((c =? ch "#") && tagStart U s) eqn:Hmatch.
    + cbn [skipn]. destruct (tagRun_stop s) as [Hstop Hwf].
      apply (IH (length (skipn (tagRun s) s))).
      * rewrite length_skipn. lia.
      * reflexivity.
      * auto.
      * unfold tagStart. fold tagRun. now rewrite Hstop.
    + rewrite tagStart_plain in * by exact Hhi. exact Hs.
Qed.

(** No tag is left in a well-formed text once its tags are removed. *)
Lemma removeTags_noMatch (s : jsstring) :
  wellFormed s = true -> noMatch (tagLen U) (removeTags U s).
Proof.
  remember (length s) as m eqn:Hm. revert s Hm.
  induction m as [m IH] using lt_wf_ind. intros s Hm Hw.
  destruct s as [| c s]; [rewrite removeTags_nil; now split |]. cbn in Hm.
  destruct (wellFormed_cases c s Hw)
    as [(Hc & lo & s' & -> & Hlo & Hw') | (Hc & Hw')].
  - rewrite removeTags_keep
      by (apply surrogate_not_hash; now apply high_is_surrogate).
    rewrite removeTags_keep
      by (apply surrogate_not_hash; now apply low_is_surrogate).
    cbn [noMatch]. repeat split.
    + apply tagLen_not_hash, surrogate_not_hash. now apply high_is_surrogate.
    + apply tagLen_not_hash, surrogate_not_hash. now apply low_is_surrogate.
    + apply (IH (length s')); [cbn in Hm; lia | reflexivity | exact Hw'].
  - rewrite removeTags_cons, tagLen_cons.
    destruct ((c =? ch "#") && tagStart U s) eqn:Hmatch.
    + cbn [skipn]. destruct (tagRun_stop s) as [Hstop Hwf].
      apply (IH (length (skipn (tagRun s) s))); auto.
      rewrite length_skipn. lia.
    + cbn [noMatch]. split.
      * rewrite tagLen_cons.
        destruct (c =? ch "#"); [| reflexivity]. cbn [andb] in *.
        now rewrite removeTags_tagStart.
      * apply (IH (length s)); [lia | reflexivity | exact Hw'].
Qed.
End TagFacts.

(** ** Words across a rewriting

    A rewriting [f] of texts that keeps every ASCII letter in place, and
    whose result starts with the first character of its argument unless
    it starts with a character that is no letter, shows the same words at
    its head as its argument does. *)

Lemma prefixBy_app (eq : N -> N -> bool) (w1 w2 s : jsstring) :
  prefixBy eq (w1 ++ w2) s
  = prefixBy eq w1 s && prefixBy eq w2 (skipn (length w1) s).
Proof.
  revert s. induction w1 as [| a w1 IH]; intros s; [reflexivity |].
  destruct s as [| x s]; cbn [app prefixBy length skipn].
  - reflexivity.
  - rewrite IH. now rewrite andb_assoc.
Qed.

Section Words.
Variable U : Unicode.

Let eqI := sameChar U flag_i.

(** The marker at the head of a text, by the word after the [!]. *)
Lemma prLen_words (c : N) (r : jsstring) :
  prLen U (c :: r)
  = if negb (c =? ch "!") then None
    else if prefixBy eqI (str "high") r then Some 5%nat
    else if prefixBy eqI (str "medium") r then Some 7%nat
    else if prefixBy eqI (str "med") r then Some 4%nat
    else if prefixBy eqI (str "low") r then Some 4%nat
    else None.
Proof.
  unfold prLen. rewrite sameChar_bang. fold eqI.
  destruct (c =? ch "!"); [| reflexivity]. cbn [negb].
  destruct (prefixBy eqI (str "high") r); [reflexivity |].
  change (str "medium") with (str "med" ++ str "ium")%list.
  rewrite prefixBy_app. change (length (str "med")) with 3%nat.
  destruct (prefixBy eqI (str "med") r); [| reflexivity].
  now destruct (prefixBy eqI (str "ium") (skipn 3 r)).
Qed.

Lemma prLen_some (c : N) (r : jsstring) (n : nat) :
  prLen U (c :: r) = Some n ->
  c = ch "!"
  /\ exists w, lowerWord w = true /\ n = S (length w)
               /\ prefixBy eqI w r = true.
Proof.
  rewrite prLen_words.
  destruct (N.eqb_spec c (ch "!")) as [-> | Hc]; [| discriminate]. cbn [negb].
  intros H. split; [reflexivity |].
  destruct (prefixBy eqI (str "high") r) eqn:Hh.
  { injection H as <-. now exists (str "high"). }
  destruct (prefixBy eqI (str "medium") r) eqn:Hm.
  { injection H as <-. now exists (str "medium"). }
  destruct (prefixBy eqI (str "med") r) eqn:Hd.
  { injection H as <-. now exists (str "med"). }
  destruct (prefixBy eqI (str "low") r) eqn:Hl; [| discriminate].
  injection H as <-. now exists (str "low").
Qed.

Lemma prLen_not_bang (c : N) (r : jsstring) :
  (c =? ch "!") = false -> prLen U (c :: r) = None.
Proof. intros H. rewrite prLen_words. now rewrite H. Qed.

Variable f : jsstring -> jsstring.
Variable I : jsstring -> Prop.

Hypothesis f_nil : f [] = [].
Hypothesis f_letter :
  forall x t, I (x :: t) -> isLetter x = true ->
              I t /\ f (x :: t) = x :: f t.
Hypothesis f_head :
  forall t, I t ->
    f t = []
    \/ exists y Y, f t = y :: Y /\ (isLetter y = false \/ exists u, t = y :: u).

Lemma prefix_agrees (w : jsstring) (t : jsstring) :
  lowerWord w = true -> I t ->
  prefixBy eqI w (f t) = prefixBy eqI w t.
Proof.
  revert t. induction w as [| a w IH]; intros t Hw Ht; [reflexivity |].
  cbn [lowerWord forallb] in Hw. apply andb_prop in Hw as [Ha Hw].
  assert (Hletter : forall x, eqI a x = true -> isLetter x = true).
  { intros x. apply sameChar_lower. exact Ha. }
  assert (Hjunction :
    forall t', I t' -> (forall x u, t' = x :: u -> eqI a x = false) ->
               prefixBy eqI (a :: w) (f t') = false).
  { intros t' Ht' Hno.
    destruct (f_head Ht') as [-> | (y & Y & -> & [Hy | (u & ->)])];
      [reflexivity | |]; cbn [prefixBy].
    - destruct (eqI a y) eqn:E; [| reflexivity].
      apply Hletter in E. congruence.
    - now rewrite (Hno y u eq_refl). }
  destruct t as [| x t].
  - now rewrite f_nil.
  - cbn [prefixBy]. destruct (eqI a x) eqn:Hx.
    + destruct (f_letter Ht (Hletter x Hx)) as [Ht' ->].
      cbn [prefixBy]. rewrite Hx. cbn [andb]. now apply IH.
    + cbn [andb]. apply Hjunction; [exact Ht |].
      intros x' u [= <- <-]. exact Hx.
Qed.

Lemma prefix_kept (w : jsstring) (t : jsstring) :
  lowerWord w = true -> I t -> prefixBy eqI w t = true ->
  I (skipn (length w) t)
  /\ skipn (length w) (f t) = f (skipn (length w) t).
Proof.
  revert t. induction w as [| a w IH]; intros t Hw Ht Hp; [now split |].
  cbn [lowerWord forallb] in Hw. apply andb_prop in Hw as [Ha Hw].
  destruct t as [| x t]; [discriminate |].
  cbn [prefixBy] in Hp. apply andb_prop in Hp as [Hx Hp].
  destruct (f_letter Ht (sameChar_lower U a x Ha Hx)) as [Ht' ->].
  cbn [length skipn]. now apply IH.
Qed.

(** The marker found after a kept character is the marker that was
    there, and what follows it is the rewriting of what followed it. *)
Lemma prLen_agrees (c : N) (t : jsstring) :
  I t -> prLen U (c :: f t) = prLen U (c :: t).
Proof.
  intros Ht. rewrite !prLen_words.
  now rewrite !prefix_agrees by (reflexivity || exact Ht).
Qed.

Lemma prLen_rest (c : N) (t : jsstring) (n : nat) :
  I t -> prLen U (c :: t) = Some n ->
  I (skipn n (c :: t))
  /\ skipn n (c :: f t) = f (skipn n (c :: t)).
Proof.
  intros Ht Hn. destruct (prLen_some c t Hn) as (_ & w & Hw & -> & Hp).
  cbn [skipn]. now apply prefix_kept.
Qed.
End Words.

Section TagsAndMarkers.
Variable U : Unicode.

Lemma letter_not_hash (x : N) : isLetter x = true -> (x =? ch "#") = false.
Proof. intros H. char_false. Qed.

Lemma letter_not_bang (x : N) : isLetter x = true -> (x =? ch "!") = false.
Proof. intros H. char_false. Qed.

Lemma space_not_hash (x : N) : isSpace x = true -> (x =? ch "#") = false.
Proof. intros H. char_false. Qed.

Lemma space_not_bang (x : N) : isSpace x = true -> (x =? ch "!") = false.
Proof. intros H. char_false. Qed.

Lemma surrogate_not_bang (c : N) : isSurrogate c = true -> (c =? ch "!") = false.
Proof. intros H. char_false. Qed.

Lemma removeTags_letter (x : N) (t : jsstring) :
  wellFormed (x :: t) = true -> isLetter x = true ->
  wellFormed t = true /\ removeTags U (x :: t) = x :: removeTags U t.
Proof.
  intros Hw Hx. split.
  - destruct (wellFormed_cases x t Hw) as [(Hc & _) | (_ & Hw')]; [| exact Hw'].
    apply high_is_surrogate in Hc.
    rewrite (letter_not_surrogate x Hx) in Hc. discriminate.
  - apply removeTags_keep. now apply letter_not_hash.
Qed.

Lemma removeTags_head (t : jsstring) :
  wellFormed t = true ->
  removeTags U t = []
  \/ exists y Y, removeTags U t = y :: Y
                 /\ (isLetter y = false \/ exists u, t = y :: u).
Proof.
  intros Hw. destruct t as [| c r]; [left; apply removeTags_nil |].
  rewrite removeTags_cons. destruct (tagLen U (c :: r)) as [n |] eqn:Hn.
  - rewrite tagLen_cons in Hn.
    destruct ((c =? ch "#") && tagStart U r) eqn:Hm; [| discriminate].
    injection Hn as <-. cbn [skipn].
    apply andb_prop in Hm as [Hc _]. apply N.eqb_eq in Hc. subst c.
    destruct (tagRun_stop U r) as [Hstop Hwf].
    assert (Hs : tagStart U (removeTags U (skipn (classRunU (tagClass U) r) r)) = false).
    { apply removeTags_tagStart.
      - apply Hwf. cbn [wellFormed] in Hw.
        change (isHighSurrogate (ch "#")) with false in Hw.
        now apply andb_prop in Hw.
      - unfold tagStart. now rewrite Hstop. }
    destruct (removeTags U (skipn (classRunU (tagClass U) r) r)) as [| y Y];
      [now left |].
    right. exists y, Y. split; [reflexivity |]. left.
    destruct (isLetter y) eqn:Hy; [| reflexivity].
    rewrite tagStart_plain in Hs.
    + now rewrite (tagClass_letter U y Hy) in Hs.
    + destruct (isHighSurrogate y) eqn:E; [| reflexivity].
      apply high_is_surrogate in E.
      now rewrite (letter_not_surrogate y Hy) in E.
  - right. exists c, (removeTags U r). split; [reflexivity |].
    right. now exists r.
Qed.

Lemma delimited_removeTags (u : jsstring) :
  delimited u = true -> delimited (removeTags U u) = true.
Proof.
  destruct u as [| c u]; [now rewrite removeTags_nil |]. cbn [delimited].
  intros Hc. rewrite removeTags_keep by now apply space_not_hash.
  exact Hc.
Qed.

(** Removing the tags of a well-formed text leaves every marker
    delimited that was. *)
Lemma removeTags_markersDelimited (s : jsstring) :
  wellFormed s = true -> markersDelimited U s = true ->
  markersDelimited U (removeTags U s) = true.
Proof.
  remember (length s) as m eqn:Hm. revert s Hm.
  induction m as [m IH] using lt_wf_ind. intros s Hm Hw Hd.
  destruct s as [| c s]; [now rewrite removeTags_nil |]. cbn in Hm.
  destruct (wellFormed_cases c s Hw)
    as [(Hc & lo & s' & -> & Hlo & Hw') | (Hc & Hw')].
  - rewrite removeTags_keep
      by (apply surrogate_not_hash; now apply high_is_surrogate).
    rewrite removeTags_keep
      by (apply surrogate_not_hash; now apply low_is_surrogate).
    rewrite !markersDelimited_cons.
    rewrite !prLen_not_bang
      by (apply surrogate_not_bang;
          first [now apply high_is_surrogate | now apply low_is_surrogate]).
    cbn [andb]. apply (IH (length s')); [cbn in Hm; lia | reflexivity | exact Hw' |].
    now apply (markersDelimited_skipn U 2 (c :: lo :: s')).
  - rewrite removeTags_cons.
    destruct (tagLen U (c :: s)) as [n |] eqn:Hn.
    + apply (IH (length (skipn n (c :: s)))).
      * apply tagLen_bounds in Hn. rewrite length_skipn. cbn [length]. lia.
      * reflexivity.
      * rewrite tagLen_cons in Hn.
        destruct ((c =? ch "#") && tagStart U s); [| discriminate].
        injection Hn as <-. cbn [skipn]. now apply tagRun_stop.
      * now apply markersDelimited_skipn.
    + rewrite markersDelimited_cons in Hd |- *.
      apply andb_prop in Hd as [Hhere Hrest].
      apply andb_true_intro. split.
      * rewrite prLen_agrees with (I := fun t => wellFormed t = true);
          [| apply removeTags_nil | apply removeTags_letter
           | apply removeTags_head | exact Hw'].
        destruct (prLen U (c :: s)) as [k |] eqn:Hk; [| reflexivity].
        destruct (@prLen_rest U (removeTags U)
                    (fun t => wellFormed t = true)
                    removeTags_letter c s k Hw' Hk) as [_ ->].
        now apply delimited_removeTags.
      * apply (IH (length s)); [lia | reflexivity | exact Hw' | exact Hrest].
Qed.
End TagsAndMarkers.

(** ** Rewritings that join text only at white space

    A rewriting [f] that keeps letters, tag characters and surrogates in
    place, and whose result otherwise resumes with a white-space
    character, creates no tag and no marker. *)

Section Joins.
Variable U : Unicode.
Variable f : jsstring -> jsstring.
Variable I : jsstring -> Prop.

Hypothesis f_nil : f [] = [].
Hypothesis I_tail : forall y t, I (y :: t) -> I t.
Hypothesis f_keep :
  forall y t, I (y :: t) ->
    isLetter y = true \/ tagClass U y = true \/ isSurrogate y = true ->
    f (y :: t) = y :: f t.
Hypothesis f_law :
  forall t, I t ->
    f t = []
    \/ exists y u, f t = y :: f u /\ I u /\ (length u < length t)%nat
         /\ (isSpace y = true
             \/ (t = y :: u /\ tagLen U t = None /\ prLen U t = None)).

Lemma joins_letter (x : N) (t : jsstring) :
  I (x :: t) -> isLetter x = true -> I t /\ f (x :: t) = x :: f t.
Proof.
  intros Ht Hx. split; [now apply I_tail with x |]. apply f_keep; auto.
Qed.

Lemma joins_head (t : jsstring) :
  I t ->
  f t = []
  \/ exists y Y, f t = y :: Y /\ (isLetter y = false \/ exists u, t = y :: u).
Proof.
  intros Ht.
  destruct (f_law Ht) as [-> | (y & u & -> & _ & _ & [Hy | (-> & _)])].
  - now left.
  - right. exists y, (f u). split; [reflexivity |]. left.
    destruct (isLetter y) eqn:E; [| reflexivity].
    now rewrite (letter_not_space y E) in Hy.
  - right. exists y, (f u). split; [reflexivity |]. right. now exists u.
Qed.

(** The low surrogate at the head, if any, is the same before and after. *)
Lemma joins_low_head (g : N -> bool) (t : jsstring) :
  I t ->
  match f t with lo :: _ => isLowSurrogate lo && g lo | [] => false end
  = match t with lo :: _ => isLowSurrogate lo && g lo | [] => false end.
Proof.
  intros Ht. destruct t as [| z t]; [now rewrite f_nil |].
  destruct (isLowSurrogate z) eqn:Hz.
  - rewrite f_keep; [now rewrite Hz | exact Ht |].
    right; right. now apply low_is_surrogate.
  - cbn [andb].
    destruct (f_law Ht) as [-> | (y & u & -> & _ & _ & [Hy | ([= <- <-] & _)])].
    + reflexivity.
    + destruct (isLowSurrogate y) eqn:E; [| reflexivity].
      apply low_is_surrogate in E.
      now rewrite (space_not_surrogate y Hy) in E.
    + now rewrite Hz.
Qed.

Lemma joins_tagStart (t : jsstring) :
  I t -> tagStart U (f t) = tagStart U t.
Proof.
  intros Ht. destruct t as [| x t]; [now rewrite f_nil |].
  destruct (isHighSurrogate x) eqn:Hx.
  - rewrite f_keep; [| exact Ht | right; right; now apply high_is_surrogate].
    rewrite !tagStart_high by exact Hx.
    apply (joins_low_head (fun lo => tagClass U (codePointOfPair x lo))).
    now apply I_tail with x.
  - rewrite (tagStart_plain U x t Hx).
    destruct (tagClass U x) eqn:Hp.
    + rewrite f_keep by auto. now rewrite tagStart_plain.
    + destruct (f_law Ht) as [-> | (y & u & -> & _ & _ & [Hy | ([= <- <-] & _)])].
      * reflexivity.
      * rewrite tagStart_plain.
        -- now apply tagClass_space.
        -- destruct (isHighSurrogate y) eqn:E; [| reflexivity].
           apply high_is_surrogate in E.
           now rewrite (space_not_surrogate y Hy) in E.
      * now rewrite tagStart_plain.
Qed.

(** No tag and no marker is left after the rewriting, when none stood at
    a kept position before. *)
Lemma joins_noMatch (t : jsstring) :
  I t -> noMatch (tagLen U) (f t) /\ noMatch (prLen U) (f t).
Proof.
  remember (length t) as m eqn:Hm. revert t Hm.
  induction m as [m IH] using lt_wf_ind. intros t Hm Ht.
  destruct (f_law Ht) as [-> | (y & u & -> & Hu & Hlen & Hy)].
  - now repeat split.
  - destruct (IH (length u) ltac:(lia) u eq_refl Hu) as [IHt IHp].
    cbn [noMatch]. repeat split; try assumption.
    + destruct Hy as [Hy | (-> & Hnt & _)].
      * apply tagLen_not_hash. now apply space_not_hash.
      * rewrite tagLen_cons in Hnt |- *. rewrite joins_tagStart by exact Hu.
        destruct ((y =? ch "#") && tagStart U u); [discriminate | reflexivity].
    + destruct Hy as [Hy | (-> & _ & Hnp)].
      * apply prLen_not_bang. now apply space_not_bang.
      * rewrite prLen_agrees with (I := I);
          [exact Hnp | exact f_nil | exact joins_letter | exact joins_head
           | exact Hu].
Qed.
End Joins.

(** ** Removing the markers, collapsing white space, trimming *)

Section Cleaning.
Variable U : Unicode.

Lemma keeps_not_bang (y : N) :
  isLetter y = true \/ tagClass U y = true \/ isSurrogate y = true ->
  (y =? ch "!") = false.
Proof.
  intros [H | [H | H]].
  - now apply letter_not_bang.
  - destruct (N.eqb_spec y (ch "!")) as [-> | _]; [| reflexivity].
    now rewrite tagClass_bang in H.
  - now apply surrogate_not_bang.
Qed.

Lemma keeps_not_space (y : N) :
  isLetter y = true \/ tagClass U y = true \/ isSurrogate y = true ->
  isSpace y = false.
Proof.
  intros [H | [H | H]].
  - now apply letter_not_space.
  - destruct (isSpace y) eqn:E; [| reflexivity].
    now rewrite (tagClass_space U y E) in H.
  - destruct (isSpace y) eqn:E; [| reflexivity].
    now rewrite (space_not_surrogate y E) in H.
Qed.

Lemma removeMarkers_noMatch (t : jsstring) :
  markersDelimited U t = true -> noMatch (tagLen U) t ->
  noMatch (tagLen U) (removeMarkers U t)
  /\ noMatch (prLen U) (removeMarkers U t).
Proof.
  intros Hd Hn.
  apply joins_noMatch
    with (I := fun t => markersDelimited U t = true /\ noMatch (tagLen U) t).
  - apply removeMarkers_nil.
  - intros y u [H1 H2]. split.
    + now apply (markersDelimited_skipn U 1 (y :: u)).
    + apply H2.
  - intros y u _ Hy. rewrite removeMarkers_cons.
    now rewrite prLen_not_bang by now apply keeps_not_bang.
  - intros u [H1 H2]. destruct u as [| c u]; [left; apply removeMarkers_nil |].
    rewrite removeMarkers_cons.
    destruct (prLen U (c :: u)) as [n |] eqn:Hp.
    + pose proof H1 as Hall.
      rewrite markersDelimited_cons, Hp in H1.
      apply andb_prop in H1 as [Hdel _].
      pose proof (prLen_bounds U _ Hp) as Hb.
      assert (Hlen : (length (skipn n (c :: u)) < length (c :: u))%nat).
      { rewrite length_skipn. lia. }
      assert (Hrest : markersDelimited U (skipn n (c :: u)) = true
                      /\ noMatch (tagLen U) (skipn n (c :: u))).
      { split; [now apply markersDelimited_skipn | now apply noMatch_skipn]. }
      destruct (skipn n (c :: u)) as [| sp v] eqn:Hs;
        [left; apply removeMarkers_nil |].
      right. exists sp, v. cbn [delimited] in Hdel.
      rewrite removeMarkers_cons.
      rewrite prLen_not_bang by now apply space_not_bang.
      split; [reflexivity |]. destruct Hrest as [R1 R2]. split.
      * split; [now apply (markersDelimited_skipn U 1 (sp :: v)) | apply R2].
      * split; [cbn [length] in *; lia | now left].
    + right. exists c, u. split; [reflexivity |]. split.
      * split; [now apply (markersDelimited_skipn U 1 (c :: u)) | apply H2].
      * split; [cbn; lia |]. right. split; [reflexivity |].
        split; [apply H2 | reflexivity].
  - now split.
Qed.

Lemma spacesLen_keep (y : N) (t : jsstring) :
  isSpace y = false -> spacesLen (y :: t) = None.
Proof. intros H. unfold spacesLen. cbn [classRun]. now rewrite H. Qed.

Lemma collapseSpaces_noMatch (t : jsstring) :
  noMatch (tagLen U) t -> noMatch (prLen U) t ->
  noMatch (tagLen U) (collapseSpaces U t)
  /\ noMatch (prLen U) (collapseSpaces U t).
Proof.
  intros Ht Hp.
  apply joins_noMatch
    with (I := fun t => noMatch (tagLen U) t /\ noMatch (prLen U) t).
  - apply collapseSpaces_nil.
  - intros y u [H1 H2]. split; [apply H1 | apply H2].
  - intros y u _ Hy. rewrite collapseSpaces_cons.
    now rewrite spacesLen_keep by now apply keeps_not_space.
  - intros u [H1 H2]. destruct u as [| c u]; [left; apply collapseSpaces_nil |].
    rewrite collapseSpaces_cons. right.
    destruct (spacesLen (c :: u)) as [n |] eqn:Hs.
    + exists 32, (skipn n (c :: u)). split; [reflexivity |].
      pose proof (spacesLen_bounds _ Hs) as Hb.
      split; [split; now apply noMatch_skipn |].
      split; [rewrite length_skipn; lia | now left].
    + exists c, u. split; [reflexivity |].
      split; [split; [apply H1 | apply H2] |].
      split; [cbn; lia |]. right. split; [reflexivity |].
      split; [apply H1 | apply H2].
  - now split.
Qed.

Lemma noMatch_trimStart (len : jsstring -> option nat) (s : jsstring) :
  noMatch len s -> noMatch len (trimStart s).
Proof.
  induction s as [| c s IH]; intros H; [exact H |].
  cbn [trimStart]. destruct (isSpace c); [apply IH, H | exact H].
Qed.

Lemma trimEnd_prefix (s : jsstring) : exists w, s = (trimEnd s ++ w)%list.
Proof.
  induction s as [| c s [w IH]]; [now exists [] |].
  cbn [trimEnd]. destruct (trimEnd s) as [| d r] eqn:E.
  - destruct (isSpace c).
    + now exists (c :: s).
    + exists s. reflexivity.
  - exists w. cbn [app] in *. now rewrite <- IH.
Qed.

Lemma noMatch_prefix (len : jsstring -> option nat) (p w : jsstring) :
  (forall q v, len (q ++ v)%list = None -> len q = None) ->
  noMatch len (p ++ w)%list -> noMatch len p.
Proof.
  intros Hmono. induction p as [| c p IH]; intros H.
  - cbn. split; [| exact I]. apply (Hmono [] w). cbn.
    destruct w; apply H.
  - cbn [noMatch app] in *. destruct H as [H1 H2]. split.
    + now apply (Hmono (c :: p) w).
    + now apply IH.
Qed.

Lemma tagStart_app (r w : jsstring) :
  tagStart U r = true -> tagStart U (r ++ w)%list = true.
Proof.
  destruct r as [| x r]; [discriminate |]. cbn [app].
  destruct (isHighSurrogate x) eqn:Hx.
  - rewrite !tagStart_high by exact Hx.
    destruct r as [| lo r]; [discriminate | exact (fun H => H)].
  - now rewrite !tagStart_plain by exact Hx.
Qed.

Lemma tagLen_app (q v : jsstring) :
  tagLen U (q ++ v)%list = None -> tagLen U q = None.
Proof.
  destruct q as [| c q]; [reflexivity |]. cbn [app].
  rewrite !tagLen_cons. destruct (c =? ch "#"); [| reflexivity].
  cbn [andb]. destruct (tagStart U q) eqn:E; [| reflexivity].
  now rewrite (tagStart_app q v E).
Qed.

Lemma prefixBy_extend (eq : N -> N -> bool) (w r v : jsstring) :
  prefixBy eq w r = true -> prefixBy eq w (r ++ v)%list = true.
Proof.
  revert r. induction w as [| a w IH]; intros r; [reflexivity |].
  destruct r as [| x r]; [discriminate |]. cbn [prefixBy app].
  intros [H1 H2]%andb_prop. rewrite H1. now apply IH.
Qed.

Lemma prLen_app (q v : jsstring) :
  prLen U (q ++ v)%list = None -> prLen U q = None.
Proof.
  destruct q as [| c q]; [reflexivity |]. cbn [app].
  rewrite !prLen_words. destruct (negb (c =? ch "!")); [reflexivity |].
  destruct (prefixBy _ (str "high") q) eqn:E1.
  { now rewrite (prefixBy_extend _ _ _ v E1). }
  destruct (prefixBy _ (str "medium") q) eqn:E2.
  { rewrite (prefixBy_extend _ _ _ v E2).
    now destruct (prefixBy _ (str "high") (q ++ v)). }
  destruct (prefixBy _ (str "med") q) eqn:E3.
  { rewrite (prefixBy_extend _ _ _ v E3).
    destruct (prefixBy _ (str "high") (q ++ v)); [discriminate |].
    now destruct (prefixBy _ (str "medium") (q ++ v)). }
  destruct (prefixBy _ (str "low") q) eqn:E4; [| reflexivity].
  rewrite (prefixBy_extend _ _ _ v E4).
  destruct (prefixBy _ (str "high") (q ++ v)); [discriminate |].
  destruct (prefixBy _ (str "medium") (q ++ v)); [discriminate |].
  now destruct (prefixBy _ (str "med") (q ++ v)).
Qed.

Lemma trim_noMatch (s : jsstring) :
  noMatch (tagLen U) s -> noMatch (prLen U) s ->
  noMatch (tagLen U) (trim s) /\ noMatch (prLen U) (trim s).
Proof.
  intros Ht Hp. unfold trim.
  destruct (trimEnd_prefix (trimStart s)) as [w Hw].
  apply (noMatch_trimStart (tagLen U)) in Ht.
  apply (noMatch_trimStart (prLen U)) in Hp.
  rewrite Hw in Ht, Hp. split.
  - exact (noMatch_prefix (tagLen U) _ w tagLen_app Ht).
  - exact (noMatch_prefix (prLen U) _ w prLen_app Hp).
Qed.

(** The cleaned text of a well-formed input whose markers are delimited
    holds no tag and no marker. *)
Lemma cleaned_noMatch (text : jsstring) :
  wellFormed text = true -> markersDelimited U text = true ->
  noMatch (tagLen U) (cleaned (extractTokens U text))
  /\ noMatch (prLen U) (cleaned (extractTokens U text)).
Proof.
  intros Hw Hd.
  change (cleaned (extractTokens U text))
    with (trim (collapseSpaces U (removeMarkers U (removeTags U text)))).
  pose proof (removeTags_noMatch U text Hw) as H1.
  pose proof (removeTags_markersDelimited U text Hw Hd) as H2.
  destruct (removeMarkers_noMatch _ H2 H1) as [H3 H4].
  destruct (collapseSpaces_noMatch _ H3 H4) as [H5 H6].
  now apply trim_noMatch.
Qed.

(** A text without tags and markers yields none. *)
Lemma extractTokens_nothing (s : jsstring) :
  noMatch (tagLen U) s -> noMatch (prLen U) s ->
  x_tags (extractTokens U s) = [] /\ x_priority (extractTokens U s) = None.
Proof.
  intros Ht Hp. unfold extractTokens. cbn [x_tags x_priority]. split.
  - unfold matchAll.
    rewrite matchAllFrom_none with (len := tagLen U);
      [reflexivity | apply matchAt_tagLen | exact Ht].
  - unfold stringMatch.
    rewrite searchFrom_none with (len := prLen U);
      [reflexivity | apply matchAt_prLen | exact Hp].
Qed.
End Cleaning.

(** C9, as stated, fails: the tag [#a] of the cleaned text of ["#!lowa"]
    and the marker [!low] of the cleaned text of ["!l!lowow"] are
    formed by the removal of a marker. *)
Lemma extractTokens_not_idempotent :
  cleaned (extractTokens asciiOnly (str "#!lowa")) = str "#a"
  /\ x_tags (extractTokens asciiOnly
               (cleaned (extractTokens asciiOnly (str "#!lowa"))))
     = [str "a"]
  /\ cleaned (extractTokens asciiOnly (str "!l!lowow")) = str "!low"
  /\ x_priority (extractTokens asciiOnly
                   (cleaned (extractTokens asciiOnly (str "!l!lowow"))))
     = Some low.
Proof. repeat split; vm_compute; reflexivity. Qed.

(** C9, amended. For every well-formed input text in which every
    priority marker is followed by white space or by the end of the text,
    running [extractTokens] again on its own cleaned text yields no tag
    and no explicit priority. *)
Theorem extractTokens_again (U : Unicode) (text : jsstring) :
  wellFormed text = true ->
  markersDelimited U text = true ->
  x_tags (extractTokens U (cleaned (extractTokens U text))) = []
  /\ x_priority (extractTokens U (cleaned (extractTokens U text))) = None.
Proof.
  intros Hw Hd.
  destruct (cleaned_noMatch U text Hw Hd) as [Ht Hp].
  now apply extractTokens_nothing.
Qed.

Lemma extractTokens_again_witness :
  x_tags (extractTokens asciiOnly
            (cleaned (extractTokens asciiOnly
                        (str "Email Alex tomorrow 3pm #work !high")))) = []
  /\ x_priority (extractTokens asciiOnly
                   (cleaned (extractTokens asciiOnly
                               (str "Email Alex tomorrow 3pm #work !high")))) = None.
Proof.
  apply (@extractTokens_again asciiOnly (str "Email Alex tomorrow 3pm #work !high"));
    reflexivity.
Defined.

(** ** Testing a text against a pattern *)

Lemma test_existsFrom (U : Unicode) (fl : flags) (r : regex)
    (h : option N -> jsstring -> bool) (s : jsstring) :
  (forall prev s', isSome (matchAt U fl r prev s') = h prev s') ->
  test U fl r s = existsFrom h None s.
Proof.
  intros Hh. unfold test. generalize (@None N) as prev. generalize O as i.
  induction s as [| c s IH]; intros i prev; cbn [searchFrom existsFrom];
    rewrite <- (Hh prev).
  - destruct (matchAt U fl r prev []) as [[n caps] |]; reflexivity.
  - destruct (matchAt U fl r prev (c :: s)) as [[n caps] |]; [reflexivity |].
    cbn [isSome orb]. apply IH.
Qed.

Lemma existsFrom_or (h1 h2 : option N -> jsstring -> bool) (prev : option N)
    (s : jsstring) :
  existsFrom (fun p x => h1 p x || h2 p x) prev s
  = existsFrom h1 prev s || existsFrom h2 prev s.
Proof.
  revert prev. induction s as [| c s IH]; intros prev; cbn [existsFrom].
  - now rewrite !orb_false_r.
  - rewrite IH. destruct (h1 prev (c :: s)), (h2 prev (c :: s)); cbn;
      rewrite ?orb_true_r; try reflexivity.
Qed.

Lemma existsFrom_ext (h1 h2 : option N -> jsstring -> bool) (prev : option N)
    (s : jsstring) :
  (forall p x, h1 p x = h2 p x) ->
  existsFrom h1 prev s = existsFrom h2 prev s.
Proof.
  intros H. revert prev. induction s as [| c s IH]; intros prev;
    cbn [existsFrom]; rewrite H; [reflexivity | now rewrite IH].
Qed.

Lemma includes_existsFrom (p : jsstring) (prev : option N) (s : jsstring) :
  existsFrom (fun _ x => startsWith p x) prev s = includes p s.
Proof.
  revert prev. induction s as [| c s IH]; intros prev; cbn [existsFrom includes].
  - reflexivity.
  - now rewrite IH.
Qed.

Lemma hasWordFrom_existsFrom (w : jsstring) (prev : option N) (s : jsstring) :
  existsFrom (fun q x => negb (isWordAt q) && startsWith w x
                         && negb (isWordAt (hd_error (skipn (length w) x))))
    prev s
  = hasWordFrom w prev s.
Proof.
  revert prev. induction s as [| c s IH]; intros prev;
    cbn [existsFrom hasWordFrom]; [reflexivity | now rewrite IH].
Qed.

Lemma prefixBy_startsWith (U : Unicode) (w s : jsstring) :
  prefixBy (sameChar U noFlags) w s = startsWith w s.
Proof.
  revert s. induction w as [| a w IH]; intros [| x s]; cbn; try reflexivity.
  now rewrite IH.
Qed.

Lemma startsWith_firstn (w s : jsstring) :
  startsWith w s = true -> firstn (length w) s = w.
Proof.
  revert s. induction w as [| a w IH]; intros [| x s]; cbn;
    try reflexivity; try discriminate.
  intros [H1 H2]%andb_prop. apply N.eqb_eq in H1. subst x.
  f_equal. now apply IH.
Qed.

(** [startsWith], [includes] and [hasWord] say what their names say. *)
Lemma startsWith_spec (p s : jsstring) :
  startsWith p s = true <-> exists post, s = (p ++ post)%list.
Proof.
  split.
  - intros H. exists (skipn (length p) s).
    rewrite <- (startsWith_firstn p s H) at 1. now rewrite firstn_skipn.
  - intros [post ->]. induction p as [| a p IH]; [reflexivity |].
    cbn. now rewrite N.eqb_refl.
Qed.

Lemma includes_here (p s : jsstring) :
  startsWith p s = true -> includes p s = true.
Proof. intros H. destruct s; cbn [includes]; now rewrite H. Qed.

Lemma hasWordFrom_here (w : jsstring) (prev : option N) (s : jsstring) :
  negb (isWordAt prev) && startsWith w s
  && negb (isWordAt (hd_error (skipn (length w) s))) = true ->
  hasWordFrom w prev s = true.
Proof. intros H. destruct s; cbn [hasWordFrom]; now rewrite H. Qed.

Lemma includes_spec (p s : jsstring) :
  includes p s = true <-> exists pre post, s = (pre ++ p ++ post)%list.
Proof.
  split.
  - induction s as [| c s IH]; cbn [includes].
    + rewrite orb_false_r. intros [post ->]%startsWith_spec. now exists [], post.
    + intros [H | H]%orb_prop.
      * apply startsWith_spec in H as [post ->]. now exists [], post.
      * destruct (IH H) as (pre & post & ->). now exists (c :: pre), post.
  - intros (pre & post & ->). induction pre as [| c pre IH].
    + cbn [app]. apply includes_here, startsWith_spec. now exists post.
    + cbn [app includes]. rewrite IH. apply orb_true_r.
Qed.

Lemma hasWordFrom_spec (w : jsstring) (prev : option N) (s : jsstring) :
  hasWordFrom w prev s = true
  <-> exists pre post, s = (pre ++ w ++ post)%list
        /\ isWordAt (lastOf prev pre) = false
        /\ isWordAt (hd_error post) = false.
Proof.
  split.
  - revert prev. induction s as [| c s IH]; intros prev; cbn [hasWordFrom].
    + rewrite orb_false_r. intros H.
      apply andb_prop in H as [H H3]. apply andb_prop in H as [H1 H2].
      exists [], (skipn (length w) []). repeat split.
      * cbn [app]. rewrite <- (startsWith_firstn w [] H2) at 1.
        now rewrite firstn_skipn.
      * now apply negb_true_iff.
      * now apply negb_true_iff.
    + intros [H | H]%orb_prop.
      * apply andb_prop in H as [H H3]. apply andb_prop in H as [H1 H2].
        exists [], (skipn (length w) (c :: s)). repeat split.
        -- cbn [app]. rewrite <- (startsWith_firstn w (c :: s) H2) at 1.
           now rewrite firstn_skipn.
        -- now apply negb_true_iff.
        -- now apply negb_true_iff.
      * destruct (IH _ H) as (pre & post & -> & Hp & Hq).
        exists (c :: pre), post. repeat split; [| exact Hq].
        now rewrite lastOf_cons.
  - intros (pre & post & -> & Hp & Hq). revert prev Hp.
    induction pre as [| c pre IH]; intros prev Hp.
    + cbn [app]. apply hasWordFrom_here.
      cbn in Hp. rewrite Hp. cbn [negb andb].
      replace (startsWith w (w ++ post)) with true
        by (symmetry; apply startsWith_spec; now exists post).
      rewrite skipn_app, skipn_all, Nat.sub_diag. cbn [skipn app andb].
      now rewrite Hq.
    + cbn [app hasWordFrom]. rewrite lastOf_cons in Hp.
      rewrite (IH _ Hp). apply orb_true_r.
Qed.

Lemma startsWith_app (w1 w2 s : jsstring) :
  startsWith (w1 ++ w2) s = true -> startsWith w1 s = true.
Proof.
  revert s. induction w1 as [| a w1 IH]; intros [| x s]; cbn;
    try reflexivity; try discriminate.
  intros [H1 H2]%andb_prop. rewrite H1. now apply IH.
Qed.

Section TestFacts.
Variable U : Unicode.

(** A literal word under a continuation, as a test. *)
Lemma exec_word (R : Type) (w : jsstring) (prev : option N) (s : jsstring)
    (caps : list jsstring)
    (k : option N -> jsstring -> list jsstring -> option R) :
  exec U noFlags (lit w) prev s caps k
  = if startsWith w s
    then k (lastOf prev w) (skipn (length w) s) caps
    else None.
Proof.
  rewrite exec_lit by reflexivity. rewrite prefixBy_startsWith.
  destruct (startsWith w s) eqn:E; [| reflexivity].
  now rewrite (startsWith_firstn w s E).
Qed.

Lemma orElse_isSome (A : Type) (a b : option A) :
  isSome (orElse a b) = isSome a || isSome b.
Proof. destruct a; reflexivity. Qed.

Lemma if_isSome (A : Type) (c : bool) (x : A) :
  isSome (if c then Some x else None) = c.
Proof. now destruct c. Qed.

(** [[!](w1|w2|w3)] *)
Lemma test_bangHigh (s : jsstring) :
  test U noFlags bangHighRe s
  = includes (str "!high") s || includes (str "!important") s
    || includes (str "!urgent") s.
Proof.
  rewrite test_existsFrom
    with (h := fun _ x => startsWith (str "!high") x
                          || startsWith (str "!important") x
                          || startsWith (str "!urgent") x).
  - rewrite (existsFrom_or (fun _ x => startsWith (str "!high") x
                                       || startsWith (str "!important") x)).
    rewrite (existsFrom_or (fun _ x => startsWith (str "!high") x)).
    now rewrite !includes_existsFrom.
  - intros prev x. unfold matchAt, bangHighRe. cbn [exec].
    rewrite readChar_units by reflexivity.
    destruct x as [| c x]; [reflexivity |].
    rewrite !exec_word.
    change (startsWith (str "!high") (c :: x))
      with ((33 =? c) && startsWith (str "high") x).
    change (startsWith (str "!important") (c :: x))
      with ((33 =? c) && startsWith (str "important") x).
    change (startsWith (str "!urgent") (c :: x))
      with ((33 =? c) && startsWith (str "urgent") x).
    change (ch "!") with 33. rewrite (N.eqb_sym c 33).
    destruct (33 =? c); [| reflexivity]. cbn [andb].
    rewrite !orElse_isSome.
    destruct (startsWith (str "high") x), (startsWith (str "important") x),
      (startsWith (str "urgent") x); reflexivity.
Qed.

(** [[!](med|medium)] *)
Lemma test_bangMed (s : jsstring) :
  test U noFlags bangMedRe s = includes (str "!med") s.
Proof.
  rewrite test_existsFrom with (h := fun _ x => startsWith (str "!med") x).
  - apply includes_existsFrom.
  - intros prev x. unfold matchAt, bangMedRe. cbn [exec].
    rewrite readChar_units by reflexivity.
    destruct x as [| c x]; [reflexivity |].
    rewrite !exec_word.
    change (startsWith (str "!med") (c :: x))
      with ((33 =? c) && startsWith (str "med") x).
    change (ch "!") with 33. rewrite (N.eqb_sym c 33).
    destruct (33 =? c); [| reflexivity]. cbn [andb].
    rewrite !orElse_isSome.
    change (str "medium") with (str "med" ++ str "ium")%list.
    destruct (startsWith (str "med") x) eqn:E; [reflexivity |].
    cbn [orb isSome].
    destruct (startsWith (str "med" ++ str "ium") x) eqn:E2; [| reflexivity].
    apply startsWith_app in E2. congruence.
Qed.

(** [[!](low)] *)
Lemma test_bangLow (s : jsstring) :
  test U noFlags bangLowRe s = includes (str "!low") s.
Proof.
  rewrite test_existsFrom with (h := fun _ x => startsWith (str "!low") x).
  - apply includes_existsFrom.
  - intros prev x. unfold matchAt, bangLowRe. cbn [exec].
    rewrite readChar_units by reflexivity.
    destruct x as [| c x]; [reflexivity |].
    rewrite !exec_word.
    change (startsWith (str "!low") (c :: x))
      with ((33 =? c) && startsWith (str "low") x).
    change (ch "!") with 33. rewrite (N.eqb_sym c 33).
    destruct (33 =? c); [| reflexivity]. cbn [andb].
    now destruct (startsWith (str "low") x).
Qed.
End TestFacts.

Section WordFacts.
Variable U : Unicode.

Lemma startsWith_head (w s : jsstring) :
  startsWith w s = true -> w <> [] -> hd_error s = hd_error w.
Proof.
  destruct w as [| a w]; [congruence |]. destruct s as [| x s]; [discriminate |].
  cbn. intros [H _]%andb_prop _. apply N.eqb_eq in H. now subst.
Qed.

Lemma lastOf_nonempty (prev : option N) (w : jsstring) :
  w <> [] -> lastOf prev w = lastOf None w.
Proof.
  intros Hw. unfold lastOf. destruct (rev w) as [| x l] eqn:E; [| reflexivity].
  apply (f_equal (@rev N)) in E. rewrite rev_involutive in E. now subst.
Qed.

Lemma wordy_nonempty (w : jsstring) : wordy w = true -> w <> [].
Proof. intros H ->. discriminate. Qed.

(** One of the words, then a word boundary. *)
Lemma exec_altOf (ws : list jsstring) (prev : option N) (s : jsstring)
    (caps : list jsstring) (R : Type)
    (k : option N -> jsstring -> list jsstring -> option R) :
  isSome (exec U noFlags (altOf ws) prev s caps k)
  = existsb (fun w => startsWith w s
                      && isSome (k (lastOf prev w) (skipn (length w) s) caps)) ws.
Proof.
  induction ws as [| w ws IH]; [now destruct s |].
  destruct ws as [| w2 ws].
  - cbn [altOf existsb]. rewrite exec_word, orb_false_r.
    now destruct (startsWith w s).
  - change (altOf (w :: w2 :: ws)) with (Alt (lit w) (altOf (w2 :: ws))).
    cbn [exec]. rewrite orElse_isSome, IH, exec_word.
    cbn [existsb]. now destruct (startsWith w s).
Qed.

(** [\b(w1|w2|...)\b] at the head of a text. *)
Lemma matchAt_words (ws : list jsstring) (prev : option N) (s : jsstring) :
  forallb wordy ws = true ->
  isSome (matchAt U noFlags (Seq WordBoundary
                              (Seq (Group (altOf ws)) WordBoundary)) prev s)
  = existsb (fun w => wordAt w prev s) ws.
Proof.
  intros Hws. unfold matchAt. cbn [exec].
  assert (Hin : forall w, In w ws -> wordy w = true).
  { now apply forallb_forall. }
  destruct (existsb (fun w => startsWith w s) ws) eqn:Hany.
  - apply existsb_exists in Hany as (w0 & Hw0 & Hs0).
    pose proof (Hin w0 Hw0) as Hy.
    unfold wordy in Hy. apply andb_prop in Hy as [Hfirst _].
    rewrite <- (@startsWith_head w0 s Hs0 (@wordy_nonempty w0 (Hin w0 Hw0))) in Hfirst.
    rewrite Hfirst, xorb_true_r.
    destruct (isWordAt prev) eqn:Hp; cbn [negb].
    + symmetry. apply not_true_is_false. intros H.
      apply existsb_exists in H as (w & _ & H). unfold wordAt in H.
      rewrite Hp in H. discriminate.
    + rewrite exec_altOf. apply eq_true_iff_eq. rewrite !existsb_exists.
      split; intros (w & Hw & H); exists w; (split; [exact Hw |]).
      * apply andb_prop in H as [H1 H2]. unfold wordAt. rewrite Hp, H1.
        cbn [negb andb]. rewrite if_isSome in H2.
        pose proof (Hin w Hw) as Hy. unfold wordy in Hy.
        apply andb_prop in Hy as [_ Hlast].
        rewrite lastOf_nonempty in H2 by (apply wordy_nonempty; auto).
        rewrite Hlast in H2. now rewrite xorb_true_l in H2.
      * unfold wordAt in H. rewrite Hp in H. cbn [negb andb] in H.
        apply andb_prop in H as [H1 H2]. rewrite H1. cbn [andb].
        rewrite if_isSome.
        pose proof (Hin w Hw) as Hy. unfold wordy in Hy.
        apply andb_prop in Hy as [_ Hlast].
        rewrite lastOf_nonempty by (apply wordy_nonempty; auto).
        rewrite Hlast. now rewrite xorb_true_l.
  - assert (Hnone : existsb (fun w => wordAt w prev s) ws = false).
    { apply not_true_is_false. intros H.
      apply existsb_exists in H as (w & Hw & H). unfold wordAt in H.
      apply andb_prop in H as [H _]. apply andb_prop in H as [_ H].
      assert (existsb (fun w => startsWith w s) ws = true) by
        (apply existsb_exists; now exists w).
      congruence. }
    rewrite Hnone.
    destruct (xorb (isWordAt prev) (isWordAt (hd_error s))); [| reflexivity].
    rewrite exec_altOf. apply not_true_is_false. intros H.
    apply existsb_exists in H as (w & Hw & H).
    apply andb_prop in H as [H _].
    assert (existsb (fun w => startsWith w s) ws = true) by
      (apply existsb_exists; now exists w).
    congruence.
Qed.

Lemma test_urgency (s : jsstring) :
  test U noFlags urgencyRe s
  = hasWord (str "urgent") s || hasWord (str "asap") s
    || hasWord (str "critical") s || hasWord (str "today") s.
Proof.
  change urgencyRe
    with (Seq WordBoundary
            (Seq (Group (altOf [str "urgent"; str "asap"; str "critical";
                                str "today"])) WordBoundary)).
  rewrite test_existsFrom
    with (h := fun p x => wordAt (str "urgent") p x || wordAt (str "asap") p x
                          || wordAt (str "critical") p x
                          || wordAt (str "today") p x).
  - rewrite (existsFrom_or (fun p x => wordAt (str "urgent") p x
                                       || wordAt (str "asap") p x
                                       || wordAt (str "critical") p x)).
    rewrite (existsFrom_or (fun p x => wordAt (str "urgent") p x
                                       || wordAt (str "asap") p x)).
    rewrite (existsFrom_or (fun p x => wordAt (str "urgent") p x)).
    unfold hasWord. now rewrite <- !hasWordFrom_existsFrom.
  - intros prev x. rewrite matchAt_words by reflexivity.
    cbn [existsb]. now rewrite orb_false_r, !orb_assoc.
Qed.

Lemma test_planning (s : jsstring) :
  test U noFlags planningRe s
  = hasWord (str "review") s || hasWord (str "plan") s
    || hasWord (str "someday") s.
Proof.
  change planningRe
    with (Seq WordBoundary
            (Seq (Group (altOf [str "review"; str "plan"; str "someday"]))
                 WordBoundary)).
  rewrite test_existsFrom
    with (h := fun p x => wordAt (str "review") p x || wordAt (str "plan") p x
                          || wordAt (str "someday") p x).
  - rewrite (existsFrom_or (fun p x => wordAt (str "review") p x
                                       || wordAt (str "plan") p x)).
    rewrite (existsFrom_or (fun p x => wordAt (str "review") p x)).
    unfold hasWord. now rewrite <- !hasWordFrom_existsFrom.
  - intros prev x. rewrite matchAt_words by reflexivity.
    cbn [existsb]. now rewrite orb_false_r, !orb_assoc.
Qed.
End WordFacts.

(** ** Priority inference *)

Local Open Scope Z_scope.

(** [(due - now) / 36e5 <= h], in milliseconds. *)
Lemma hoursUntil_le (now d h : Z) :
  Qle_bool (hoursUntil now d) (inject_Z h) = (d - now <=? h * 3600000).
Proof.
  unfold hoursUntil, Qle_bool, Qdiv, Qmult, Qinv, inject_Z. cbn.
  apply eq_true_iff_eq. rewrite !Z.leb_le. lia.
Qed.

Lemma inferPriority_rules (U : Unicode) (now : Z) (text : jsstring)
    (due : option Z) :
  inferPriority U now text due = inferRules U now text due.
Proof.
  unfold inferPriority, inferRules.
  rewrite test_bangHigh, test_urgency, test_bangMed, test_bangLow, test_planning.
  set (t := toLowerCase U text).
  rewrite <- !orb_assoc.
  destruct (includes (str "!high") t || _); [reflexivity |].
  destruct (includes (str "!med") t); [reflexivity |].
  destruct (includes (str "!low") t); [reflexivity |].
  destruct due as [d |]; [| reflexivity].
  cbn [truthyNum]. rewrite !hoursUntil_le.
  destruct (negb (d =? 0)); reflexivity.
Qed.

(** C1. For the input "Email Alex tomorrow 3pm #work !high", and a
    resolver that returns for the cleaned text "Email Alex tomorrow 3pm"
    the single match "tomorrow 3pm" at index 11, dated tomorrow at 15:00
    local time, [parseTask] yields the tags {"work"}, the priority high,
    that due date, and the title "Email Alex". *)
Theorem parseTask_example
    (U : Unicode) (zone : TimeZone) (now : Z)
    (chronoParse : jsstring -> Z -> list ParsedResult) :
  chronoParse (str "Email Alex tomorrow 3pm") now
  = [{| pr_index := Some 11%nat; pr_text := Some (str "tomorrow 3pm");
        pr_date := setHours zone (addDays zone now 1) 15 0 0 0 |}] ->
  cleaned (extractTokens U (str "Email Alex tomorrow 3pm #work !high"))
  = str "Email Alex tomorrow 3pm"
  /\ parseTask U now chronoParse (str "Email Alex tomorrow 3pm #work !high")
     = {| d_title := str "Email Alex";
          d_due := Some (setHours zone (addDays zone now 1) 15 0 0 0);
          d_tags := [str "work"];
          d_priority := high |}.
Proof.
  intros Hresolve.
  assert (Hx : extractTokens U (str "Email Alex tomorrow 3pm #work !high")
               = {| cleaned := str "Email Alex tomorrow 3pm";
                    x_tags := [str "work"];
                    x_priority := Some high |}).
  { vm_compute. reflexivity. }
  split; [now rewrite Hx |].
  unfold parseTask. rewrite Hx. cbn [cleaned x_tags x_priority].
  rewrite Hresolve. cbn [pr_index pr_text pr_date].
  assert (Htitle :
    trim (replaceAll U noFlags spacesRe (str " ")
            (firstn 11 (str "Email Alex tomorrow 3pm") ++ str " "
             ++ skipn (11 + length (str "tomorrow 3pm"))
                  (str "Email Alex tomorrow 3pm"))%list)
    = str "Email Alex").
  { vm_compute. reflexivity. }
  rewrite Htitle. reflexivity.
Qed.

Lemma parseTask_example_witness :
  parseTask asciiOnly 1700000000000
    (fun _ _ => [{| pr_index := Some 11%nat;
                    pr_text := Some (str "tomorrow 3pm");
                    pr_date := 1700060400000 |}])
    (str "Email Alex tomorrow 3pm #work !high")
  = {| d_title := str "Email Alex";
       d_due := Some 1700060400000;
       d_tags := [str "work"];
       d_priority := high |}.
Proof.
  apply (proj2 (@parseTask_example asciiOnly (fixedOffset 0) 1700000000000
                  (fun _ _ => [{| pr_index := Some 11%nat;
                                  pr_text := Some (str "tomorrow 3pm");
                                  pr_date := 1700060400000 |}])
                  eq_refl)).
Defined.

(** C2, as stated, fails: [inferPriority] answers high for the text
    "!important", which holds no urgency keyword and has no due date (the
    five rules give medium); and a keyword that stands only in a stripped
    tag does not count, because [parseTask] infers from the cleaned text:
    "Buy milk #today" gets medium. *)
Lemma inferPriority_beyond_five_rules :
  inferPriority asciiOnly 1700000000000 (str "!important") None = high
  /\ inferAsWorded asciiOnly 1700000000000 (str "!important") None = medium
  /\ cleaned (extractTokens asciiOnly (str "Buy milk #today")) = str "Buy milk"
  /\ d_priority (parseTask asciiOnly 1700000000000 (fun _ _ => [])
                   (str "Buy milk #today")) = medium
  /\ inferAsWorded asciiOnly 1700000000000 (str "Buy milk #today") None = high.
Proof. repeat split; vm_compute; reflexivity. Qed.

(** C2, amended. [inferPriority] follows these rules, first match wins,
    on the lower-cased text it is given: a marker [!high], [!important] or
    [!urgent], or one of the words urgent, asap, critical, today as a whole
    word: high; a marker [!med]: medium; a marker [!low]: low; a due date
    that is set, not 0, and at most 24 hours after now: high; at most 72
    hours after now: medium; one of the words review, plan, someday as a
    whole word: low; otherwise medium. In [parseTask] an explicit marker
    wins, and otherwise the text given to [inferPriority] is the cleaned
    text, after the tags and markers are stripped and before the date is
    cut out. *)
Theorem inferPriority_precedence
    (U : Unicode) (now : Z) (chronoParse : jsstring -> Z -> list ParsedResult)
    (text : jsstring) (due : option Z) :
  inferPriority U now text due = inferRules U now text due
  /\ d_priority (parseTask U now chronoParse text)
     = match x_priority (extractTokens U text) with
       | Some p => p
       | None =>
           inferRules U now (cleaned (extractTokens U text))
             (d_due (parseTask U now chronoParse text))
       end.
Proof.
  split; [apply inferPriority_rules |].
  unfold parseTask.
  destruct (chronoParse (cleaned (extractTokens U text)) now) as [| first rest];
    cbn [d_priority d_due]; now rewrite inferPriority_rules.
Qed.

(** ** Further properties of the code *)

(** X1. A priority bump writes one of the three levels; from high a bump up
    stays at high and from low a bump down stays at low; otherwise it
    moves one step along low, medium, high. *)
Theorem bumpPriority_clamps (i : value) (t : StoredTask) :
  strictEq (s_id t) i = true ->
  (forall dir, isLevel (s_priority (bumpOne i dir t)) = true)
  /\ (s_priority t = VStr (str "high") ->
      s_priority (bumpOne i 1 t) = VStr (str "high")
      /\ s_priority (bumpOne i (-1) t) = VStr (str "medium"))
  /\ (s_priority t = VStr (str "medium") ->
      s_priority (bumpOne i 1 t) = VStr (str "high")
      /\ s_priority (bumpOne i (-1) t) = VStr (str "low"))
  /\ (s_priority t = VStr (str "low") ->
      s_priority (bumpOne i 1 t) = VStr (str "medium")
      /\ s_priority (bumpOne i (-1) t) = VStr (str "low")).
Proof.
  intros Hid. split; [intros dir; now apply bumpOne_level |].
  unfold bumpOne. rewrite Hid. cbn [negb s_priority withPriority].
  repeat split; match goal with H : s_priority t = _ |- _ => rewrite H end;
    reflexivity.
Qed.

Lemma bumpPriority_clamps_witness :
  s_priority (bumpOne (VStr (str "c3")) 1 plainTask) = VStr (str "high").
Proof.
  apply (proj1 (proj1 (proj2 (@bumpPriority_clamps (VStr (str "c3")) plainTask
                                 eq_refl)) eq_refl)).
Defined.

(** X2. [importJSON] returns normally on every text, and whenever it alerts
    the task collection is the one before the call. *)
Theorem importJSON_total
    (now : Z) (uidStream : nat -> jsstring)
    (JSON_parse : jsstring -> JSON + jsstring) (nullReadMessage : jsstring)
    (jsonText : jsstring) (w : World) :
  snd (importJSON now uidStream JSON_parse nullReadMessage jsonText w) = inl tt
  /\ (w_alerts (fst (importJSON now uidStream JSON_parse nullReadMessage
                       jsonText w)) = w_alerts w
      \/ w_tasks (fst (importJSON now uidStream JSON_parse nullReadMessage
                         jsonText w)) = w_tasks w).
Proof.
  split; [apply importJSON_returns |].
  destruct (list_eq_dec (list_eq_dec N.eq_dec)
              (w_alerts (fst (importJSON now uidStream JSON_parse
                                nullReadMessage jsonText w)))
              (w_alerts w)) as [E | E]; [now left | right].
  now apply importJSON_alert_keeps_tasks.
Qed.

(** X3. An earlier due date never gives a lower priority: for the same text
    and two due instants, the earlier not being 0, the priority inferred
    for the earlier one ranks at least as high as for the later one, and
    any due date gives a priority at least as high as none; a due
    instant of 0 is read as no due date. *)
Theorem inferPriority_earlier_due
    (U : Unicode) (now : Z) (text : jsstring) (d d' : Z) :
  (d <> 0 -> d <= d' ->
   pRank (inferPriority U now text (Some d))
   <= pRank (inferPriority U now text (Some d')))
  /\ pRank (inferPriority U now text (Some d))
     <= pRank (inferPriority U now text None)
  /\ inferPriority U now text (Some 0) = inferPriority U now text None.
Proof.
  rewrite !inferPriority_rules. unfold inferRules.
  destruct (_ || _ || _ || _ || _ || _ || _); [cbn; repeat split; lia |].
  destruct (includes (str "!med") _); [cbn; repeat split; lia |].
  destruct (includes (str "!low") _); [cbn; repeat split; lia |].
  destruct (_ || _ || _);
    destruct (d =? 0) eqn:E0, (d' =? 0) eqn:E0',
      (d - now <=? 24 * 3600000) eqn:L1, (d - now <=? 72 * 3600000) eqn:L2,
      (d' - now <=? 24 * 3600000) eqn:L1', (d' - now <=? 72 * 3600000) eqn:L2';
    cbn; (split; [intros Hd Hle | split; [| reflexivity]]); try lia;
    exfalso;
    repeat match goal with
           | H : (_ <=? _) = true |- _ => apply Z.leb_le in H
           | H : (_ <=? _) = false |- _ => apply Z.leb_gt in H
           | H : (_ =? _) = true |- _ => apply Z.eqb_eq in H
           | H : (_ =? _) = false |- _ => apply Z.eqb_neq in H
           end; lia.
Qed.

Lemma inferPriority_earlier_due_witness :
  pRank (inferPriority asciiOnly 1700000000000 (str "Ship the report")
           (Some (1700000000000 + 10 * 3600000)))
  <= pRank (inferPriority asciiOnly 1700000000000 (str "Ship the report")
              (Some (1700000000000 + 50 * 3600000))).
Proof.
  apply (proj1 (@inferPriority_earlier_due asciiOnly 1700000000000
                  (str "Ship the report") (1700000000000 + 10 * 3600000)
                  (1700000000000 + 50 * 3600000))); lia.
Defined.

Lemma uniqueHelper_spec (seen xs : list jsstring) :
  NoDup (uniqueHelper seen xs)
  /\ forall x, In x (uniqueHelper seen xs) <-> In x xs /\ ~ In x seen.
Proof.
  revert seen. induction xs as [| y xs IH]; intros seen.
  - split; [constructor | cbn; intuition].
  - cbn [uniqueHelper]. destruct (existsb (jsstring_eqb y) seen) eqn:E.
    + destruct (IH seen) as [Hn Hin]. split; [exact Hn |].
      intros x. rewrite Hin. cbn [In].
      apply existsb_exists in E as (z & Hz & Hyz).
      apply jsstring_eqb_eq in Hyz. subst z.
      intuition (subst; contradiction).
    + destruct (IH (y :: seen)) as [Hn Hin].
      assert (Hy : ~ In y seen).
      { intros Hy. apply not_true_iff_false in E. apply E.
        apply existsb_exists. exists y. split; [exact Hy |].
        now apply jsstring_eqb_eq. }
      split.
      * constructor; [| exact Hn]. rewrite Hin. cbn [In]. intuition.
      * intros x. cbn [In]. rewrite Hin. cbn [In].
        destruct (list_eq_dec N.eq_dec y x) as [-> | Hne]; intuition.
Qed.

(** X4. The tags [extractTokens] returns are distinct, and they are the
    lower-cased captures of the tag pattern. *)
Theorem extractTokens_tags_unique (U : Unicode) (text : jsstring) :
  NoDup (x_tags (extractTokens U text))
  /\ forall t, In t (x_tags (extractTokens U text))
               <-> exists m, In m (matchAll U flag_u (tagRe U) text)
                             /\ t = toLowerCase U (nth 0 m []).
Proof.
  unfold extractTokens. cbn [x_tags]. unfold arrayFromSet.
  destruct (uniqueHelper_spec []
              (List.map (fun m => toLowerCase U (nth 0 m []))
                        (matchAll U flag_u (tagRe U) text))) as [Hn Hin].
  split; [exact Hn |]. intros t. rewrite Hin, in_map_iff. cbn [In].
  split.
  - intros [(m & <- & Hm) _]. now exists m.
  - intros (m & Hm & ->). split; [now exists m | tauto].
Qed.

(** ** The store operations *)

Lemma strictEq_eq (a b : value) : strictEq a b = true -> a = b.
Proof.
  destruct a as [| [| x | x | x | x | x]], b as [| [| y | y | y | y | y]];
    cbn; try discriminate; try reflexivity.
  - intros H. apply Bool.eqb_prop in H. now subst.
  - intros H. apply Z.eqb_eq in H. now subst.
  - intros H. apply jsstring_eqb_eq in H. now subst.
Qed.

Lemma withDone_same (t : StoredTask) : withDone t (s_done t) = t.
Proof. now destruct t. Qed.

(** X5. Toggling the same id twice restores the collection; one toggle flips
    the [done] flag of the tasks with that id and changes nothing else. *)
Theorem toggleDone_twice (i : value) (w : World) :
  bind (toggleDone i) (fun _ => toggleDone i) w = (w, inl tt)
  /\ Forall2
       (fun t t' =>
          s_done t' = (if strictEq (s_id t) i then negb (s_done t) else s_done t)
          /\ withDone t' (s_done t) = t)
       (w_tasks w) (w_tasks (fst (toggleDone i w)))
  /\ w_alerts (fst (toggleDone i w)) = w_alerts w.
Proof.
  split; [| split; [| reflexivity]].
  - unfold bind, toggleDone, setTasks. cbn. f_equal.
    destruct w as [ts al us]. cbn. f_equal.
    rewrite map_map. rewrite <- (map_id ts) at 2. apply map_ext.
    intros t. destruct (strictEq (s_id t) i) eqn:E; cbn; rewrite E.
    + destruct t; cbn. now rewrite negb_involutive.
    + reflexivity.
  - cbn. induction (w_tasks w) as [| t ts IH]; cbn; constructor; [| exact IH].
    destruct (strictEq (s_id t) i); cbn; split;
      try reflexivity; now destruct t.
Qed.

(** X6. Declining the confirmation changes nothing. Confirming removes every
    task with that id and no other, the rest keep their order; removing
    the same id again, or an id no task has, changes nothing. *)
Theorem removeTask_effect (i : value) (w : World) :
  removeTask false i w = (w, inl tt)
  /\ (forall t, In t (w_tasks (fst (removeTask true i w)))
                <-> In t (w_tasks w) /\ strictEq (s_id t) i = false)
  /\ (exists gone,
        Permutation (w_tasks w) (w_tasks (fst (removeTask true i w)) ++ gone)
        /\ Forall (fun t => strictEq (s_id t) i = true) gone)
  /\ removeTask true i (fst (removeTask true i w))
     = (fst (removeTask true i w), inl tt)
  /\ ((forall t, In t (w_tasks w) -> strictEq (s_id t) i = false) ->
      removeTask true i w = (w, inl tt))
  /\ w_alerts (fst (removeTask true i w)) = w_alerts w.
Proof.
  assert (Hsame : forall l : list StoredTask,
            (forall t, In t l -> strictEq (s_id t) i = false) ->
            filter (fun t => negb (strictEq (s_id t) i)) l = l).
  { induction l as [| t l IH]; intros H; [reflexivity |].
    cbn. rewrite (H t (or_introl eq_refl)). cbn.
    f_equal. apply IH. intros u Hu. apply H. now right. }
  split; [reflexivity |]. split; [| split; [| split; [| split]]].
  - intros t. cbn. rewrite filter_In, negb_true_iff. tauto.
  - exists (filter (fun t => strictEq (s_id t) i) (w_tasks w)). split.
    + cbn. induction (w_tasks w) as [| t ts IH]; [constructor |].
      cbn. destruct (strictEq (s_id t) i); cbn.
      * now apply Permutation_cons_app.
      * now constructor.
    + apply Forall_forall. intros t Ht. now apply filter_In in Ht.
  - unfold removeTask, setTasks. cbn. f_equal. f_equal.
    apply Hsame. intros t Ht. apply filter_In in Ht.
    now apply negb_true_iff.
  - intros H. unfold removeTask, setTasks. rewrite (Hsame _ H).
    now destruct w.
  - reflexivity.
Qed.

(** X7. Saving an edit never changes the number of tasks: every task with
    the id of the saved record is replaced by it, the others stay, and
    when no task has that id nothing changes. *)
Theorem updateTask_effect (updated : StoredTask) (w : World) :
  length (w_tasks (fst (updateTask updated w))) = length (w_tasks w)
  /\ Forall2
       (fun t t' =>
          t' = (if strictEq (s_id t) (s_id updated) then updated else t)
          /\ s_id t' = s_id t)
       (w_tasks w) (w_tasks (fst (updateTask updated w)))
  /\ ((forall t, In t (w_tasks w) -> strictEq (s_id t) (s_id updated) = false) ->
      updateTask updated w = (w, inl tt))
  /\ w_alerts (fst (updateTask updated w)) = w_alerts w.
Proof.
  split; [| split; [| split]].
  - cbn. apply length_map.
  - cbn. induction (w_tasks w) as [| t ts IH]; cbn; constructor; [| exact IH].
    split; [reflexivity |].
    destruct (strictEq (s_id t) (s_id updated)) eqn:E; [| reflexivity].
    symmetry. now apply strictEq_eq.
  - intros H. unfold updateTask, setTasks. destruct w as [ts al us]. cbn in *.
    f_equal. f_equal. rewrite <- (map_id ts) at 2. apply map_ext_in.
    intros t Ht. now rewrite (H t Ht).
  - reflexivity.
Qed.

Lemma bumpOne_id (i : value) (dir : Z) (t : StoredTask) :
  s_id (bumpOne i dir t) = s_id t.
Proof. unfold bumpOne. now destruct (negb _). Qed.

Lemma moveOne_id (tz : TimeZone) (now : Z) (i : value) (b : BucketKey) (t : StoredTask) :
  s_id (moveOne tz now i b t) = s_id t.
Proof. unfold moveOne. destruct (negb _); [reflexivity |]. now destruct b. Qed.

(** X8. Toggling, saving an edit, bumping a priority and moving a card
    rewrite tasks where they stand: the ids of the collection, in order,
    are the same after as before, nothing is alerted and no id is
    drawn. Toggling, bumping and moving change nothing of a task with
    another id, and of a task with the id they change at most [done],
    [due] and [priority]: its title, notes, creation time, tags, project
    and subtasks stay. *)
Theorem in_place_actions_keep_ids
    (U : Unicode) (zone : TimeZone) (now : Z)
    (chronoParse : jsstring -> Z -> list ParsedResult)
    (uidStream : nat -> jsstring)
    (JSON_parse : jsstring -> JSON + jsstring) (nullReadMessage : jsstring)
    (a : action) (w : World) :
  inPlace a = true ->
  List.map s_id
    (w_tasks (fst (run U zone now chronoParse uidStream JSON_parse
                     nullReadMessage a w)))
  = List.map s_id (w_tasks w)
  /\ w_alerts (fst (run U zone now chronoParse uidStream JSON_parse
                      nullReadMessage a w)) = w_alerts w
  /\ w_uids (fst (run U zone now chronoParse uidStream JSON_parse
                    nullReadMessage a w)) = w_uids w
  /\ snd (run U zone now chronoParse uidStream JSON_parse
            nullReadMessage a w) = inl tt
  /\ Forall2
       (fun t t' =>
          (strictEq (s_id t) (targetOf a) = false -> t' = t)
          /\ (match a with UpdateTask _ => True | _ => sameContent t t' end))
       (w_tasks w)
       (w_tasks (fst (run U zone now chronoParse uidStream JSON_parse
                        nullReadMessage a w))).
Proof.
  assert (Hmap : forall (f : StoredTask -> StoredTask) (P : StoredTask -> StoredTask -> Prop)
                        (l : list StoredTask),
            (forall t, P t (f t)) -> Forall2 P l (List.map f l)).
  { intros f P l Hf. induction l as [| t l IH]; cbn; constructor; auto. }
  destruct a as [input notes | i | confirmed i | updated | i dir | i b | jsonText];
    try discriminate; intros _; cbn [run targetOf];
    (split; [| split; [reflexivity | split; [reflexivity | split; [reflexivity |]]]]).
  - cbn. rewrite map_map. apply map_ext. intros t. now destruct (strictEq _ _).
  - cbn. apply Hmap. intros t. destruct (strictEq (s_id t) i).
    + split; [discriminate |]. now repeat split.
    + split; [reflexivity |]. now repeat split.
  - cbn. rewrite map_map. apply map_ext. intros t.
    destruct (strictEq (s_id t) (s_id updated)) eqn:E; [| reflexivity].
    symmetry. now apply strictEq_eq.
  - cbn. apply Hmap. intros t. split; [| exact I].
    intros E. now rewrite E.
  - cbn. rewrite map_map. apply map_ext. intros t. apply bumpOne_id.
  - cbn. apply Hmap. intros t. unfold bumpOne.
    destruct (strictEq (s_id t) i); cbn [negb].
    + split; [discriminate |]. now repeat split.
    + split; [reflexivity |]. now repeat split.
  - cbn. rewrite map_map. apply map_ext. intros t. apply moveOne_id.
  - cbn. apply Hmap. intros t. unfold moveOne.
    destruct (strictEq (s_id t) i); cbn [negb].
    + split; [discriminate |]. destruct b; now repeat split.
    + split; [reflexivity |]. now repeat split.
Qed.

Lemma in_place_actions_keep_ids_witness :
  List.map s_id
    (w_tasks (fst (run asciiOnly (fixedOffset 60) 1700000000000 (fun _ _ => []) someIds
                     (parsesTo JNull) (str "null")
                     (MoveToBucket (VStr (str "c3")) later)
                     {| w_tasks := [epochTask; plainTask]; w_alerts := [];
                        w_uids := 0 |})))
  = [VStr (str "a1"); VStr (str "c3")].
Proof.
  apply (proj1 (@in_place_actions_keep_ids asciiOnly (fixedOffset 60) 1700000000000
                  (fun _ _ => []) someIds (parsesTo JNull) (str "null")
                  (MoveToBucket (VStr (str "c3")) later)
                  {| w_tasks := [epochTask; plainTask]; w_alerts := [];
                     w_uids := 0 |} eq_refl)).
Defined.

(** *** Adding a task *)

Lemma trimStart_blank (s : jsstring) : blank s = true -> trimStart s = [].
Proof.
  unfold blank. induction s as [| c s IH]; [reflexivity |].
  cbn. intros [Hc Hs]%andb_prop. rewrite Hc. now apply IH.
Qed.

Lemma trimStart_head (s : jsstring) :
  match trimStart s with c :: _ => isSpace c = false | [] => blank s = true end.
Proof.
  unfold blank. induction s as [| c s IH]; [reflexivity |].
  cbn. destruct (isSpace c) eqn:E; [| exact E].
  destruct (trimStart s); [exact IH | exact IH].
Qed.

Lemma trimEnd_head (c : N) (s : jsstring) :
  isSpace c = false -> exists r, trimEnd (c :: s) = c :: r.
Proof.
  intros Hc. cbn. destruct (trimEnd s) as [| x r].
  - rewrite Hc. now exists [].
  - now exists (x :: r).
Qed.

Lemma trim_blank (s : jsstring) : trim s = [] <-> blank s = true.
Proof.
  unfold trim. pose proof (trimStart_head s) as H. split.
  - intros E. destruct (trimStart s) as [| c r]; [exact H |].
    destruct (@trimEnd_head c r H) as [r' Hr]. congruence.
  - intros Hb. now rewrite (trimStart_blank _ Hb).
Qed.

Lemma parseTask_tags (U : Unicode) (now : Z)
    (chronoParse : jsstring -> Z -> list ParsedResult) (input : jsstring) :
  d_tags (parseTask U now chronoParse input) = x_tags (extractTokens U input).
Proof.
  unfold parseTask. now destruct (chronoParse _ _).
Qed.

(** X9. An input of white space only adds nothing: the collection, the
    alerts and the ids drawn are as before. Any other input adds exactly
    one task, at the front: not done, created now, with a fresh id, no
    subtasks, a title that is not empty and a priority that is one of
    the three levels; the tasks already there are untouched. *)
Theorem addTaskFromInput_effect
    (U : Unicode) (now : Z)
    (chronoParse : jsstring -> Z -> list ParsedResult)
    (uidStream : nat -> jsstring) (input notes : jsstring) (w : World) :
  (blank input = true ->
   addTaskFromInput U now chronoParse uidStream input notes w = (w, inl tt))
  /\ (blank input = false ->
      exists t ttl,
        addTaskFromInput U now chronoParse uidStream input notes w
        = ({| w_tasks := t :: w_tasks w; w_alerts := w_alerts w;
              w_uids := S (w_uids w) |}, inl tt)
        /\ s_id t = VStr (uidStream (w_uids w))
        /\ s_title t = VStr ttl /\ ttl <> []
        /\ s_createdAt t = VNum now
        /\ s_done t = false
        /\ s_subtasks t = Val (JArr [])
        /\ isLevel (s_priority t) = true
        /\ s_due t = optNum (d_due (parseTask U now chronoParse (trim input)))
        /\ s_tags t
           = Val (JArr (List.map JStr (x_tags (extractTokens U (trim input)))))
        /\ (s_notes t = Undefined /\ blank notes = true
            \/ s_notes t = VStr (trim notes) /\ blank notes = false)).
Proof.
  split.
  - intros Hb. unfold addTaskFromInput.
    now rewrite (proj2 (trim_blank input) Hb).
  - intros Hb. unfold addTaskFromInput.
    destruct (trim input) as [| c r] eqn:Et.
    { apply trim_blank in Et. congruence. }
    unfold bind, uid, setTasks. cbn [fst snd w_tasks w_alerts w_uids].
    eexists. eexists. split; [reflexivity |].
    cbn [s_id s_title s_createdAt s_done s_subtasks s_priority s_due s_tags
         s_notes].
    split; [reflexivity |]. split; [reflexivity |].
    split.
    { destruct (d_title (parseTask U now chronoParse (c :: r)));
        discriminate. }
    split; [reflexivity |]. split; [reflexivity |]. split; [reflexivity |].
    split; [apply isLevel_priorityName |].
    split; [reflexivity |]. split; [now rewrite parseTask_tags |].
    destruct (trim notes) as [| x n] eqn:En.
    + left. split; [reflexivity | now apply trim_blank].
    + right. split; [reflexivity |].
      destruct (blank notes) eqn:Eb; [| reflexivity].
      apply trim_blank in Eb. congruence.
Qed.

Lemma addTaskFromInput_effect_witness :
  addTaskFromInput asciiOnly 1700000000000 (fun _ _ => []) someIds
    (str "   ") (str "") emptyWorld
  = (emptyWorld, inl tt).
Proof.
  apply (proj1 (@addTaskFromInput_effect asciiOnly 1700000000000
                  (fun _ _ => []) someIds (str "   ") (str "") emptyWorld)).
  reflexivity.
Defined.

(** *** Import *)

Section ImportGuarantees.
Variable now : Z.
Variable uidStream : nat -> jsstring.
Variable JSON_parse : jsstring -> JSON + jsstring.
Variable nullReadMessage : jsstring.

Let normalizeIt := normalize now uidStream nullReadMessage.
Let importIt := importJSON now uidStream JSON_parse nullReadMessage.

Lemma orValue_truthy (a b : value) :
  truthy b = true -> truthy (orValue a b) = true.
Proof. unfold orValue. intros Hb. now destruct (truthy a) eqn:E. Qed.

Lemma orValue_undefined (a : value) :
  truthy (orValue a Undefined) || isUndefined (orValue a Undefined) = true.
Proof. unfold orValue. now destruct (truthy a) eqn:E; [rewrite E |]. Qed.

Lemma keepArray (a : value) :
  isArray (if isArray a then a else Val (JArr [])) = true.
Proof. now destruct (isArray a) eqn:E. Qed.

Lemma normalize_imported (t : JSON) (w : World) :
  isNull t = false ->
  exists w' r,
    normalizeIt t w = (w', inl r)
    /\ (now <> 0 -> imported r = true)
    /\ (truthy (s_id r) = true \/ exists k, s_id r = VStr (uidStream k)).
Proof.
  intros Hn.
  assert (Hc : now <> 0 -> truthy (VNum now) = true)
    by (intros Hnow; cbn; now apply negb_true_iff, Z.eqb_neq).
  destruct t; try discriminate.
  1-4: unfold normalizeIt, normalize, getProp, bind, ret, uid; cbn;
    do 2 eexists; (split; [reflexivity |]);
    (split; [intros Hnow; unfold imported; cbn;
             specialize (Hc Hnow); cbn in Hc; now rewrite Hc |]);
    right; eexists; reflexivity.
  destruct (normalize_object now uidStream nullReadMessage fields w)
    as (w' & i & E & Hi).
  exists w'. eexists. split; [exact E |]. split.
  - intros Hnow. unfold imported.
    cbn [s_title s_notes s_createdAt s_due s_tags s_project s_priority
         s_subtasks].
    rewrite !keepArray, !orValue_undefined.
    rewrite (@orValue_truthy (lookup "title" fields)) by reflexivity.
    rewrite (@orValue_truthy (lookup "priority" fields)) by reflexivity.
    rewrite (@orValue_truthy (lookup "createdAt" fields)) by now apply Hc.
    cbn [andb]. rewrite !andb_true_r.
    unfold orValue. destruct (truthy (lookup "notes" fields)) eqn:En;
      [| reflexivity]. now rewrite En.
  - cbn [s_id].
    unfold normalizeIt, normalize, getProp, bind, ret, uid in E.
    destruct (truthy (lookup "id" fields)) eqn:Hid.
    + left. destruct (Hi eq_refl) as [_ ->]. exact Hid.
    + right. cbn in E. injection E as _ Ei. subst i. eexists; reflexivity.
Qed.

Lemma normalize_null (w : World) :
  normalizeIt JNull w = (w, inr {| message := nullReadMessage |}).
Proof. reflexivity. Qed.

Lemma normalize_returns (t : JSON) (w : World) :
  isNull t = false -> exists w' r, normalizeIt t w = (w', inl r).
Proof.
  intros Hn. destruct (normalize_imported t w Hn) as (w' & r & E & _).
  now exists w', r.
Qed.

Lemma mapM_normalize_null (items : list JSON) (w : World) :
  existsb isNull items = true ->
  exists w', mapM normalizeIt items w
             = (w', inr {| message := nullReadMessage |}).
Proof.
  revert w. induction items as [| t items IH]; intros w; [discriminate |].
  cbn [existsb mapM]. unfold bind. destruct (isNull t) eqn:Et.
  - intros _. destruct t; try discriminate. rewrite normalize_null.
    now exists w.
  - cbn [orb]. intros Hn.
    destruct (normalize_returns t w Et) as (w1 & r & ->).
    destruct (IH w1 Hn) as (w2 & ->). now exists w2.
Qed.

Lemma mapM_normalize_imported (items : list JSON) (w : World) :
  existsb isNull items = false ->
  exists w' cleaned,
    mapM normalizeIt items w = (w', inl cleaned)
    /\ length cleaned = length items
    /\ (now <> 0 -> Forall (fun t => imported t = true) cleaned)
    /\ Forall (fun t => truthy (s_id t) = true
                        \/ exists k, s_id t = VStr (uidStream k)) cleaned.
Proof.
  revert w. induction items as [| t items IH]; intros w.
  - intros _. exists w, []. cbn. repeat split; constructor.
  - cbn [existsb mapM]. unfold bind. intros [Et Hn]%orb_false_elim.
    destruct (normalize_imported t w Et) as (w1 & r & E & Hr & Hi). rewrite E.
    destruct (IH w1 Hn) as (w2 & cleaned & -> & Hlen & Himp & Hid).
    exists w2, (r :: cleaned). cbn. split; [reflexivity |].
    split; [now rewrite Hlen |]. split.
    + intros Hnow. constructor; [now apply Hr | now apply Himp].
    + now constructor.
Qed.

End ImportGuarantees.

(** X10. Importing an array: when one of its elements is [null] nothing is
    stored and the user is told of the failed property read; otherwise
    the import succeeds without an alert, every element gives one task
    (the tasks held before are gone), each task has an id that is its
    own truthy one or a drawn one, and, the clock not being at the
    epoch, no stored field that is read through [||] is falsy where a
    default exists, and [tags] and [subtasks] are arrays. *)
Theorem importJSON_array
    (now : Z) (uidStream : nat -> jsstring)
    (JSON_parse : jsstring -> JSON + jsstring) (nullReadMessage : jsstring)
    (jsonText : jsstring) (items : list JSON) (w : World) :
  JSON_parse jsonText = inl (JArr items) ->
  (existsb isNull items = true ->
   w_tasks (fst (importJSON now uidStream JSON_parse nullReadMessage
                   jsonText w)) = w_tasks w
   /\ w_alerts (fst (importJSON now uidStream JSON_parse nullReadMessage
                       jsonText w))
      = (w_alerts w ++ [str "Couldn't import: " ++ nullReadMessage])%list)
  /\ (existsb isNull items = false ->
      w_alerts (fst (importJSON now uidStream JSON_parse nullReadMessage
                       jsonText w)) = w_alerts w
      /\ length (w_tasks (fst (importJSON now uidStream JSON_parse
                                 nullReadMessage jsonText w)))
         = length items
      /\ (now <> 0 ->
          Forall (fun t => imported t = true)
            (w_tasks (fst (importJSON now uidStream JSON_parse
                             nullReadMessage jsonText w))))
      /\ Forall (fun t => truthy (s_id t) = true
                          \/ exists k, s_id t = VStr (uidStream k))
           (w_tasks (fst (importJSON now uidStream JSON_parse
                            nullReadMessage jsonText w)))).
Proof.
  intros Hp. unfold importJSON, tryCatch, bind. rewrite Hp. cbn [ret].
  split; intros Hn.
  - destruct (mapM_normalize_null now uidStream nullReadMessage items w Hn)
      as (w' & E).
    rewrite E. cbn.
    destruct (mapM_normalize_frame now uidStream nullReadMessage items w E)
      as [Ht Ha].
    now rewrite Ht, Ha.
  - destruct (mapM_normalize_imported now uidStream nullReadMessage items w Hn)
      as (w' & cleaned & E & Hlen & Himp & Hid).
    rewrite E. cbn.
    destruct (mapM_normalize_frame now uidStream nullReadMessage items w E)
      as [_ Ha].
    auto.
Qed.

Lemma importJSON_array_witness :
  w_tasks (fst (importJSON 1700000000000 someIds
                  (parsesTo (JArr [JObj []; JNull])) (str "null")
                  (str "[{},null]")
                  {| w_tasks := [plainTask]; w_alerts := []; w_uids := 0 |}))
  = [plainTask].
Proof.
  apply (proj1 (proj1 (@importJSON_array 1700000000000 someIds
                         (parsesTo (JArr [JObj []; JNull])) (str "null")
                         (str "[{},null]") [JObj []; JNull]
                         {| w_tasks := [plainTask]; w_alerts := [];
                            w_uids := 0 |} eq_refl) eq_refl)).
Defined.

(** *** Importing what was exported *)

Lemma lookup_taskJSON (t : StoredTask) :
  match taskJSON t with
  | JObj fields =>
      lookup "id" fields = s_id t /\ lookup "title" fields = s_title t
      /\ lookup "notes" fields = s_notes t
      /\ lookup "createdAt" fields = s_createdAt t
      /\ lookup "due" fields = s_due t /\ lookup "tags" fields = s_tags t
      /\ lookup "project" fields = s_project t
      /\ lookup "priority" fields = s_priority t
      /\ lookup "done" fields = Val (JBool (s_done t))
      /\ lookup "subtasks" fields = s_subtasks t
  | _ => False
  end.
Proof.
  unfold taskJSON.
  repeat split;
    rewrite ?lookup_field_other by reflexivity;
    try (rewrite lookup_field_same;
         match goal with |- match ?v with _ => _ end = _ => destruct v end;
         try reflexivity);
    rewrite ?lookup_field_other by reflexivity;
    try reflexivity.
  all: cbn; destruct (s_subtasks t); reflexivity.
Qed.

Lemma normalize_imported_same (now : Z) (uidStream : nat -> jsstring)
    (nullReadMessage : jsstring) (t : StoredTask) (w : World) :
  imported t = true -> truthy (s_id t) = true ->
  normalize now uidStream nullReadMessage (taskJSON t) w = (w, inl t).
Proof.
  unfold imported. intros Hi Hid.
  repeat (apply andb_prop in Hi; destruct Hi as [Hi ?]).
  pose proof (lookup_taskJSON t) as Hl.
  destruct (taskJSON t) as [| | | | | fields]; try contradiction.
  destruct Hl as (L1 & L2 & L3 & L4 & L5 & L6 & L7 & L8 & L9 & L10).
  unfold normalize, getProp, bind, ret.
  rewrite L1, L2, L3, L4, L5, L6, L7, L8, L9, L10, Hid.
  unfold orValue.
  repeat match goal with
         | E : ?b = true |- context [if ?b then _ else _] => rewrite E
         end.
  destruct t as [i ti no cr du ta pr pri dn su]; cbn [s_id s_title s_notes
    s_createdAt s_due s_tags s_project s_priority s_done s_subtasks] in *.
  assert (En : (if truthy no then no else VStr []) = no).
  { destruct (truthy no) eqn:E; [reflexivity |].
    cbn [orb] in *. symmetry. now apply strictEq_eq. }
  assert (Ed : (if truthy du then du else Undefined) = du).
  { destruct (truthy du) eqn:E; [reflexivity |].
    destruct du; [reflexivity | cbn [orb isUndefined] in *; discriminate]. }
  assert (Ep : (if truthy pr then pr else Undefined) = pr).
  { destruct (truthy pr) eqn:E; [reflexivity |].
    destruct pr; [reflexivity | cbn [orb isUndefined] in *; discriminate]. }
  rewrite En, Ed, Ep. cbn [truthy]. reflexivity.
Qed.

Lemma mapM_normalize_imported_same (now : Z) (uidStream : nat -> jsstring)
    (nullReadMessage : jsstring) (tasks : list StoredTask) (w : World) :
  Forall (fun t => imported t = true /\ truthy (s_id t) = true) tasks ->
  mapM (normalize now uidStream nullReadMessage) (List.map taskJSON tasks) w
  = (w, inl tasks).
Proof.
  induction 1 as [| t tasks [Hi Hid] _ IH]; [reflexivity |].
  cbn [List.map mapM]. unfold bind.
  rewrite normalize_imported_same by assumption.
  rewrite IH. reflexivity.
Qed.

(** X11. What an import stores comes back from an export unchanged, on a
    run time whose [JSON.parse] reads back the exported value as
    [JSON.stringify] was given it: for every collection whose records
    have what [importJSON] guarantees of a stored record and a truthy
    id, be their fields strings, integers, booleans, arrays or objects,
    importing the exported collection stores the same collection, draws
    no id and alerts nothing. (A number that is no integer is outside
    the values modelled; an infinite one, which [JSON.parse] reads from
    a numeral such as 1e400, is written as [null] and does not come
    back.) *)
Theorem reimport_is_identity
    (now : Z) (uidStream : nat -> jsstring)
    (JSON_parse : jsstring -> JSON + jsstring)
    (JSON_stringify : JSON -> jsstring) (nullReadMessage : jsstring)
    (tasks : list StoredTask) (w : World) :
  Forall (fun t => imported t = true /\ truthy (s_id t) = true) tasks ->
  JSON_parse (JSON_stringify (exportJSON tasks)) = inl (exportJSON tasks) ->
  importJSON now uidStream JSON_parse nullReadMessage
    (exportText JSON_stringify tasks) w
  = ({| w_tasks := tasks; w_alerts := w_alerts w; w_uids := w_uids w |}, inl tt).
Proof.
  intros Hall Hparse.
  unfold importJSON, exportText, tryCatch, bind. rewrite Hparse.
  cbn [ret exportJSON].
  rewrite mapM_normalize_imported_same by assumption. reflexivity.
Qed.

Lemma reimport_is_identity_witness :
  let odd := {| s_id := VNum 7; s_title := VNum 5; s_notes := VStr [];
                   s_createdAt := VStr (str "yesterday"); s_due := Undefined;
                   s_tags := Val (JArr []); s_project := Undefined;
                   s_priority := VStr (str "urgent"); s_done := true;
                   s_subtasks := Val (JArr []) |} in
  importJSON 1700000000000 someIds (parsesTo (exportJSON [odd]))
    (str "TypeError")
    (exportText (printsAs (str "ai-tasks.json")) [odd])
    emptyWorld
  = ({| w_tasks := [odd]; w_alerts := []; w_uids := 0 |}, inl tt).
Proof.
  intros odd.
  apply (@reimport_is_identity 1700000000000 someIds
           (parsesTo (exportJSON [odd]))
           (printsAs (str "ai-tasks.json")) (str "TypeError")
           [odd] emptyWorld).
  - repeat constructor.
  - reflexivity.
Defined.

(** ** Days, columns and derived lists *)

Lemma localDay_le (tz d x : Z) :
  (d <= endOfDay (fixedOffset tz) x
   <-> localDay (fixedOffset tz) d <= localDay (fixedOffset tz) x)
  /\ (startOfDay (fixedOffset tz) x <= d
      <-> localDay (fixedOffset tz) x <= localDay (fixedOffset tz) d).
Proof.
  unfold endOfDay, startOfDay. rewrite !setHours_fixedOffset.
  rewrite !localDay_fixedOffset.
  pose proof (Z.div_mod (d + localOffset tz) msPerDay) as Hd.
  pose proof (Z.mod_pos_bound (d + localOffset tz) msPerDay) as Hdr.
  unfold msPerDay in *.
  specialize (Hd ltac:(lia)). specialize (Hdr ltac:(lia)).
  lia.
Qed.

(** X12. In a zone without clock changes, the instants from
    [startOfDay d] to [endOfDay d] are exactly those on the local day of
    [d]; the two are 23:59:59.999 apart, applying either twice changes
    nothing, and the next day starts one millisecond after
    [endOfDay d]. *)
Theorem day_interval (tz d x : Z) :
  (startOfDay (fixedOffset tz) d <= x <= endOfDay (fixedOffset tz) d
   <-> localDay (fixedOffset tz) x = localDay (fixedOffset tz) d)
  /\ startOfDay (fixedOffset tz) d <= d <= endOfDay (fixedOffset tz) d
  /\ endOfDay (fixedOffset tz) d - startOfDay (fixedOffset tz) d
     = msPerDay - 1
  /\ startOfDay (fixedOffset tz) (startOfDay (fixedOffset tz) d)
     = startOfDay (fixedOffset tz) d
  /\ endOfDay (fixedOffset tz) (endOfDay (fixedOffset tz) d)
     = endOfDay (fixedOffset tz) d
  /\ startOfDay (fixedOffset tz) (addDays (fixedOffset tz) d 1)
     = endOfDay (fixedOffset tz) d + 1.
Proof.
  destruct (localDay_le tz x d) as [H1 H2].
  destruct (day_bounds tz d) as [Hb He].
  split; [lia |]. split; [exact Hb |]. split; [lia |].
  unfold startOfDay, endOfDay. split; [| split].
  - rewrite (setHours_fixedOffset tz (setHours _ _ _ _ _ _)).
    rewrite <- localDay_fixedOffset.
    rewrite localDay_setHours by (unfold msPerDay; lia).
    reflexivity.
  - rewrite (setHours_fixedOffset tz (setHours _ _ _ _ _ _)).
    rewrite <- localDay_fixedOffset.
    rewrite localDay_setHours by (unfold msPerDay; lia).
    reflexivity.
  - rewrite !setHours_fixedOffset, <- !localDay_fixedOffset.
    rewrite localDay_addDays. unfold msPerDay. lia.
Qed.

Lemma bucket_tests (tz now d : Z) :
  ((d <=? todayEnd (fixedOffset tz) now)
   && (todayStart (fixedOffset tz) now <=? d) = true
   <-> localDay (fixedOffset tz) d = localDay (fixedOffset tz) now)
  /\ ((todayEnd (fixedOffset tz) now <? d)
      && (d <=? weekEnd (fixedOffset tz) now) = true
      <-> localDay (fixedOffset tz) now < localDay (fixedOffset tz) d
          <= localDay (fixedOffset tz) now + 7).
Proof.
  unfold todayEnd, todayStart, weekEnd.
  destruct (localDay_le tz d now) as [H1 H2].
  destruct (localDay_le tz d (addDays (fixedOffset tz) now 7)) as [H3 _].
  rewrite localDay_addDays in H3.
  rewrite !andb_true_iff, !Z.leb_le, Z.ltb_lt. lia.
Qed.

(** The chain of tests on a task of the declared type. *)
Lemma bucketOf_ofTask (C : Conversions) (zone : TimeZone) (now : Z) (t : Task) :
  bucketOf C zone now (ofTask t)
  = if done t then bdone
    else if truthyNum (due t)
            && match due t with
               | Some d => (d <=? todayEnd zone now) && (todayStart zone now <=? d)
               | None => false
               end
    then today
    else if truthyNum (due t)
            && match due t with
               | Some d => (todayEnd zone now <? d) && (d <=? weekEnd zone now)
               | None => false
               end
    then week
    else later.
Proof.
  destruct (due t) as [d |] eqn:E.
  - rewrite (@bucketOf_number C zone now (ofTask t) d)
      by (cbn; now rewrite E).
    cbn [s_done ofTask truthyNum]. now rewrite !andb_assoc.
  - rewrite bucketOf_undefined by (cbn; now rewrite E). reflexivity.
Qed.

Ltac day_case :=
  repeat match goal with
         | H : _ /\ _ |- _ => destruct H
         | H : exists _, _ |- _ => destruct H
         | H : _ \/ _ |- _ => destruct H
         | H : Some _ = Some _ |- _ => injection H as H; subst
         end;
  try discriminate; try congruence; try lia.

(** X13. In a zone without clock changes, the column of a task by the
    local date of its due instant: Done for a completed task; otherwise
    Today when it is due on today's date, This Week when it is due one
    to seven days ahead, and Later in every other case: no due date, a
    due instant of 0, a date more than seven days ahead, and also a date
    before today (an overdue task). *)
Theorem bucketOf_by_day (C : Conversions) (tz now : Z) (t : Task) :
  (bucketOf C (fixedOffset tz) now (ofTask t) = bdone <-> done t = true)
  /\ (bucketOf C (fixedOffset tz) now (ofTask t) = today
      <-> done t = false
          /\ exists d, due t = Some d /\ d <> 0
                       /\ localDay (fixedOffset tz) d
                          = localDay (fixedOffset tz) now)
  /\ (bucketOf C (fixedOffset tz) now (ofTask t) = week
      <-> done t = false
          /\ exists d, due t = Some d /\ d <> 0
                       /\ localDay (fixedOffset tz) now
                          < localDay (fixedOffset tz) d
                          <= localDay (fixedOffset tz) now + 7)
  /\ (bucketOf C (fixedOffset tz) now (ofTask t) = later
      <-> done t = false
          /\ (due t = None \/ due t = Some 0
              \/ exists d, due t = Some d
                           /\ (localDay (fixedOffset tz) d
                               < localDay (fixedOffset tz) now
                               \/ localDay (fixedOffset tz) now + 7
                                  < localDay (fixedOffset tz) d))).
Proof.
  rewrite bucketOf_ofTask. destruct (done t).
  { split; [| split; [| split]];
      (split; [intros Hk; try discriminate Hk | intros Hr; try reflexivity]);
      try (exfalso; solve [day_case]).
    reflexivity. }
  destruct (due t) as [d |]; cbn [truthyNum andb].
  2: { split; [| split; [| split]];
         (split; [intros Hk; try discriminate Hk | intros Hr; try reflexivity]);
         try (exfalso; solve [day_case]).
       split; [reflexivity | now left]. }
  destruct (bucket_tests tz now d) as [Ht Hw].
  destruct (d =? 0) eqn:E0; cbn [negb andb].
  { apply Z.eqb_eq in E0. subst d.
    split; [| split; [| split]];
      (split; [intros Hk; try discriminate Hk | intros Hr; try reflexivity]);
      try (exfalso; solve [day_case]).
    split; [reflexivity | now right; left]. }
  apply Z.eqb_neq in E0.
  destruct ((d <=? todayEnd (fixedOffset tz) now)
            && (todayStart (fixedOffset tz) now <=? d)) eqn:E1.
  { assert (localDay (fixedOffset tz) d = localDay (fixedOffset tz) now)
      by now apply Ht.
    split; [| split; [| split]];
      (split; [intros Hk; try discriminate Hk | intros Hr; try reflexivity]);
      try (exfalso; solve [day_case]).
    split; [reflexivity |]. now exists d. }
  assert (Hnt : localDay (fixedOffset tz) d <> localDay (fixedOffset tz) now).
  { intros H. apply Ht in H. congruence. }
  destruct ((todayEnd (fixedOffset tz) now <? d)
            && (d <=? weekEnd (fixedOffset tz) now)) eqn:E2.
  { assert (localDay (fixedOffset tz) now < localDay (fixedOffset tz) d
            <= localDay (fixedOffset tz) now + 7)
      by now apply Hw.
    split; [| split; [| split]];
      (split; [intros Hk; try discriminate Hk | intros Hr; try reflexivity]);
      try (exfalso; solve [day_case]).
    split; [reflexivity |]. now exists d. }
  assert (Hnw : ~ (localDay (fixedOffset tz) now < localDay (fixedOffset tz) d
                   <= localDay (fixedOffset tz) now + 7)).
  { intros H. apply Hw in H. congruence. }
  split; [| split; [| split]];
    (split; [intros Hk; try discriminate Hk | intros Hr; try reflexivity]);
    try (exfalso; solve [day_case]).
  split; [reflexivity |]. right; right. exists d. split; [reflexivity | lia].
Qed.

(** *** The columns of the board *)

Lemma column_lengths (C : Conversions) (zone : TimeZone) (now : Z)
    (l : list StoredTask) :
  (length (filter (fun t => BucketKey_eqb (bucketOf C zone now t) today) l)
   + length (filter (fun t => BucketKey_eqb (bucketOf C zone now t) week) l)
   + length (filter (fun t => BucketKey_eqb (bucketOf C zone now t) later) l)
   + length (filter (fun t => BucketKey_eqb (bucketOf C zone now t) bdone) l)
   = length l)%nat.
Proof.
  induction l as [| t l IH]; [reflexivity |].
  cbn [filter]. destruct (bucketOf C zone now t); cbn [BucketKey_eqb length]; lia.
Qed.

Lemma filter_Forall (A : Type) (P : A -> Prop) (f : A -> bool) (l : list A) :
  Forall P l -> Forall P (filter f l).
Proof.
  intros H. apply Forall_forall. intros x [Hx _]%filter_In.
  rewrite Forall_forall in H. now apply H.
Qed.


(** *** A card moved to a column is shown in that column *)

Lemma startOfDay_pos (tz now : Z) :
  msPerDay <= now -> 0 < startOfDay (fixedOffset tz) now.
Proof.
  intros H. destruct (day_bounds tz now) as [[_ Hb] He]. unfold msPerDay in *.
  lia.
Qed.

(** X15. Moving a card puts it into the column it was moved to: in a zone
    without clock changes and with the clock at least one day after the
    epoch, the task that [moveToBucket] writes for a target column is
    bucketed into that column by every rendering on the same local
    day. *)
Theorem moveToBucket_lands
    (C : Conversions) (tz now now' : Z) (t : Task) (b : BucketKey) :
  msPerDay <= now ->
  localDay (fixedOffset tz) now' = localDay (fixedOffset tz) now ->
  exists t',
    moveOne (fixedOffset tz) now (VStr (id t)) b (ofTask t) = ofTask t'
    /\ bucketOf C (fixedOffset tz) now' (ofTask t') = b
    /\ setDueDone t' (due t) (done t) = t.
Proof.
  intros Hnow Hday.
  pose proof (startOfDay_pos tz Hnow) as Hpos.
  assert (Hid : strictEq (s_id (ofTask t)) (VStr (id t)) = true)
    by apply jsstring_eqb_refl.
  unfold moveOne. rewrite Hid. cbn [negb].
  destruct b.
  - exists (setDueDone t (Some (setHours (fixedOffset tz) now 17 0 0 0)) false).
    split; [reflexivity |]. split; [| now destruct t].
    rewrite bucketOf_ofTask. cbn [done due setDueDone truthyNum].
    destruct (bucket_tests tz now' (setHours (fixedOffset tz) now 17 0 0 0))
      as [Ht _].
    rewrite (proj2 Ht)
      by (rewrite localDay_setHours by (unfold msPerDay; lia); congruence).
    replace (setHours (fixedOffset tz) now 17 0 0 0 =? 0) with false;
      [reflexivity |].
    symmetry. apply Z.eqb_neq. unfold startOfDay in Hpos.
    rewrite setHours_fixedOffset in *. lia.
  - exists (setDueDone t
              (Some (setHours (fixedOffset tz)
                       (addDays (fixedOffset tz) now 3) 9 0 0 0)) false).
    split; [reflexivity |]. split; [| now destruct t].
    rewrite bucketOf_ofTask. cbn [done due setDueDone truthyNum].
    set (d := setHours (fixedOffset tz) (addDays (fixedOffset tz) now 3) 9 0 0 0).
    destruct (bucket_tests tz now' d) as [Ht Hw].
    assert (Hd : localDay (fixedOffset tz) d = localDay (fixedOffset tz) now + 3).
    { unfold d. rewrite localDay_setHours by (unfold msPerDay; lia).
      apply localDay_addDays. }
    rewrite (proj2 Hw) by lia.
    assert (E : (d <=? todayEnd (fixedOffset tz) now')
                && (todayStart (fixedOffset tz) now' <=? d) = false).
    { apply not_true_iff_false. intros E. apply Ht in E. lia. }
    rewrite E.
    replace (d =? 0) with false; [reflexivity |].
    symmetry. apply Z.eqb_neq. unfold d, startOfDay in *.
    rewrite setHours_fixedOffset in *. rewrite <- localDay_fixedOffset in *.
    rewrite localDay_addDays. unfold msPerDay in *. lia.
  - exists (setDueDone t None false).
    split; [reflexivity |]. split; [reflexivity | now destruct t].
  - exists (setDueDone t (due t) true).
    split; [now destruct t |]. split; [| now destruct t].
    rewrite bucketOf_ofTask. reflexivity.
Qed.

Lemma moveToBucket_lands_witness :
  let t := {| id := str "a"; title := str "report"; notes := None;
              createdAt := 1699000000000; due := None; tags := [];
              project := None; priority := medium; done := true;
              subtasks := None |} in
  localDay (fixedOffset 60) 1700000600000 = localDay (fixedOffset 60) 1700000000000
  /\ forall C,
       exists t',
         moveOne (fixedOffset 60) 1700000000000 (VStr (str "a")) week (ofTask t)
         = ofTask t'
         /\ bucketOf C (fixedOffset 60) 1700000600000 (ofTask t') = week
         /\ setDueDone t' None true = t.
Proof.
  intros t. split; [reflexivity |]. intros C.
  apply (@moveToBucket_lands C 60 1700000000000 1700000600000 t week).
  - unfold msPerDay. lia.
  - reflexivity.
Defined.

(** *** Filtering *)

Lemma bucketOf_done (C : Conversions) (zone : TimeZone) (now : Z)
    (t : StoredTask) :
  bucketOf C zone now t = bdone <-> s_done t = true.
Proof.
  unfold bucketOf. destruct (s_done t); [tauto |].
  destruct (_ && _); [split; discriminate |].
  destruct (_ && _); split; discriminate.
Qed.

(** X16. With "show completed" off no completed task passes the filter, so
    none is in the list view and the Done column of the board is empty;
    with it on, no tag, no project and an empty search text, every task
    passes. The filter only ever drops tasks. *)
Theorem filtered_hides_done
    (U : Unicode) (C : Conversions) (zone : TimeZone) (now : Z)
    (tasks : list Task) (text : jsstring) (tag proj : option jsstring) :
  filtered U tasks true [] None None = tasks
  /\ Forall (fun t => done t = false) (filtered U tasks false text tag proj)
  /\ Forall (fun t => s_done t = false)
       (visible C (List.map ofTask (filtered U tasks false text tag proj)))
  /\ out_done (buckets C zone now
                 (List.map ofTask (filtered U tasks false text tag proj))) = []
  /\ (forall showDone t,
        In t (filtered U tasks showDone text tag proj) -> In t tasks).
Proof.
  assert (Hall : forall (f : Task -> bool) (l : list Task),
            (forall x, f x = true) -> filter f l = l).
  { intros f l Hf. induction l as [| x l IH]; cbn; [| rewrite Hf]; congruence. }
  assert (Hd : Forall (fun t => done t = false)
                 (filtered U tasks false text tag proj)).
  { apply Forall_forall. intros t Ht. unfold filtered in Ht.
    do 3 (apply filter_In in Ht; apply proj1 in Ht).
    apply filter_In in Ht as [_ Ht]. now apply negb_true_iff. }
  assert (Hs : Forall (fun t => s_done t = false)
                 (List.map ofTask (filtered U tasks false text tag proj))).
  { apply Forall_map. revert Hd. now apply Forall_impl. }
  split; [| split; [exact Hd | split; [| split]]].
  - unfold filtered. rewrite !Hall; try reflexivity.
    intros t. cbn [toLowerCase forallb List.map]. now destruct (toLowerCase U _).
  - eapply Permutation_Forall; [| exact Hs].
    symmetry. apply sort_perm.
  - change (out_done ?b) with (bucket bdone b).
    rewrite bucket_buckets.
    replace (filter _ (List.map ofTask _)) with (@nil StoredTask);
      [reflexivity |].
    symmetry. induction Hs as [| t l Ht Hl IH]; [reflexivity |].
    cbn [filter]. destruct (BucketKey_eqb (bucketOf C zone now t) bdone) eqn:E;
      [| exact IH].
    apply BucketKey_eqb_eq, bucketOf_done in E. congruence.
  - intros showDone t Ht. unfold filtered in Ht.
    now do 4 (apply filter_In in Ht; apply proj1 in Ht).
Qed.

(** X30. The search ignores the case of ASCII letters: with "show
    completed" on and no tag or project filter, an ASCII search text
    and tasks whose text is ASCII, the tasks that pass are exactly those
    whose title, notes and tags, joined by spaces, contain the search
    text once the capitals of both are put in lower case. *)
Theorem search_ignores_case
    (U : Unicode) (tasks : list Task) (text : jsstring) :
  forallb isAscii text = true ->
  Forall (fun t => forallb isAscii (haystack t) = true) tasks ->
  forall t,
    In t (filtered U tasks true text None None)
    <-> In t tasks
        /\ includes (asciiLower text) (asciiLower (haystack t)) = true.
Proof.
  intros Hf Hall t. unfold filtered.
  rewrite !filter_In.
  assert (Hh : (title t ++ str " "
                ++ match notes t with Some ((_ :: _) as n) => n | _ => [] end
                ++ str " " ++ join (str " ") (tags t))%list = haystack t).
  { unfold haystack. now destruct (notes t) as [[| c n] |]. }
  rewrite Hh.
  assert (Hl : forall s, forallb isAscii s = true -> toLowerCase U s = asciiLower s).
  { intros s Hs. unfold toLowerCase. now rewrite Hs. }
  rewrite (Hl _ Hf). split.
  - intros [[[[Ht _] _] _] Hin]. split; [exact Ht |].
    rewrite Forall_forall in Hall. now rewrite <- (Hl _ (Hall t Ht)).
  - intros [Ht Hin]. rewrite Forall_forall in Hall.
    rewrite (Hl _ (Hall t Ht)). tauto.
Qed.

Lemma search_ignores_case_witness :
  let t := {| id := str "a"; title := str "Buy MILK"; notes := Some (str "2 l");
              createdAt := 1; due := None; tags := [str "home"];
              project := None; priority := low; done := true;
              subtasks := None |} in
  In t (filtered asciiOnly [t] true (str "Milk 2") None None).
Proof.
  intros t.
  apply (proj2 (@search_ignores_case asciiOnly [t] (str "Milk 2") eq_refl
                  (Forall_cons t eq_refl (Forall_nil _)) t)).
  split; [now left | reflexivity].
Defined.

(** *** The Focus card *)


(** *** The tag and project menus *)

Lemma ltString_irrefl (a : jsstring) : ltString a a = false.
Proof.
  induction a as [| x a IH]; [reflexivity |].
  cbn. now rewrite N.ltb_irrefl, N.eqb_refl, IH.
Qed.

Lemma ltString_trans (a b c : jsstring) :
  ltString a b = true -> ltString b c = true -> ltString a c = true.
Proof.
  revert b c. induction a as [| x a IH]; intros [| y b] [| z c]; cbn;
    try discriminate; try reflexivity.
  rewrite !orb_true_iff, !andb_true_iff, !N.ltb_lt, !N.eqb_eq.
  intros [H1 | [H1 H1']] [H2 | [H2 H2']].
  - left. lia.
  - left. lia.
  - left. lia.
  - right. split; [lia |]. now apply (IH b c).
Qed.

Lemma ltString_total (a b : jsstring) :
  ltString a b = false -> ltString b a = false -> a = b.
Proof.
  revert b. induction a as [| x a IH]; intros [| y b]; cbn;
    try discriminate; try reflexivity.
  rewrite !orb_false_iff, !andb_false_iff, !N.ltb_ge, !N.eqb_neq.
  intros [H1 H1'] [H2 H2'].
  assert (x = y) by lia. subst y. f_equal. apply IH; tauto.
Qed.

Lemma ltString_asym (a b : jsstring) :
  ltString a b = true -> ltString b a = false.
Proof.
  intros H. destruct (ltString b a) eqn:E; [| reflexivity].
  pose proof (ltString_trans _ _ _ H E) as K.
  now rewrite ltString_irrefl in K.
Qed.

Lemma defaultCompare_after (a b : jsstring) :
  positive (defaultCompare a b) = true <-> ltString b a = true.
Proof.
  unfold defaultCompare. destruct (ltString a b) eqn:E.
  - rewrite (ltString_asym _ _ E). cbn. split; discriminate.
  - destruct (ltString b a); cbn; tauto.
Qed.

Lemma defaultCompare_asym (a b : jsstring) :
  positive (defaultCompare a b) = true -> positive (defaultCompare b a) = false.
Proof.
  rewrite (not_true_false (defaultCompare_after b a)), defaultCompare_after.
  intros H. rewrite (ltString_asym _ _ H). discriminate.
Qed.

Lemma defaultCompare_trans (a b c : jsstring) :
  positive (defaultCompare a b) = false ->
  positive (defaultCompare b c) = false ->
  positive (defaultCompare a c) = false.
Proof.
  rewrite !(not_true_false (defaultCompare_after _ _)).
  intros H1 H2 H3. apply not_true_iff_false in H1, H2.
  destruct (ltString a b) eqn:E.
  - apply H2 || (rewrite (ltString_trans _ _ _ H3 E) in H2; discriminate).
  - rewrite (ltString_total _ _ E H1) in H3. congruence.
Qed.

Lemma sorted_set (xs : list jsstring) :
  StronglySorted (fun a b => ltString a b = true)
    (sort defaultCompare (arrayFromSet xs))
  /\ NoDup (sort defaultCompare (arrayFromSet xs))
  /\ forall x, In x (sort defaultCompare (arrayFromSet xs)) <-> In x xs.
Proof.
  pose proof (sort_perm defaultCompare (arrayFromSet xs)) as Hp.
  destruct (uniqueHelper_spec [] xs) as [Hn Hin].
  fold (arrayFromSet xs) in Hn, Hin.
  assert (Hnd : NoDup (sort defaultCompare (arrayFromSet xs))).
  { eapply Permutation_NoDup; [symmetry; exact Hp | exact Hn]. }
  split; [| split; [exact Hnd |]].
  - pose proof (@sort_sorted _ defaultCompare (fun _ => True)
                  (fun a b _ _ => defaultCompare_asym a b)
                  (fun a b c _ _ _ => defaultCompare_trans a b c)
                  (arrayFromSet xs)
                  (proj2 (Forall_forall _ _) (fun _ _ => I))) as Hs.
    revert Hnd Hs. generalize (sort defaultCompare (arrayFromSet xs)).
    intros l Hnd Hs.
    induction Hs as [| a l Hs IH Hf]; constructor.
    + apply IH. now inversion Hnd.
    + inversion Hnd as [| ? ? Ha Hl]; subst.
      rewrite Forall_forall in *. intros b Hb.
      specialize (Hf b Hb).
      apply (not_true_false (defaultCompare_after a b)) in Hf.
      apply not_true_iff_false in Hf.
      destruct (ltString a b) eqn:E; [reflexivity |].
      rewrite (ltString_total _ _ E Hf) in Ha. contradiction.
  - intros x. split.
    + intros H. apply (Permutation_in _ Hp) in H. apply Hin in H. tauto.
    + intros H. apply (Permutation_in _ (Permutation_sym Hp)).
      apply Hin. split; [exact H | intros []].
Qed.



Local Open Scope N_scope.

(** ** Cleaned text is tidy *)

Lemma noSpacePair_tail (c : N) (s : jsstring) :
  noSpacePair (c :: s) = true -> noSpacePair s = true.
Proof.
  cbn. destruct s; [reflexivity |]. now intros [_ H]%andb_prop.
Qed.

Lemma noSpacePair_cons (c : N) (s : jsstring) :
  noSpacePair s = true ->
  isSpace c && isSpaceAt (hd_error s) = false ->
  noSpacePair (c :: s) = true.
Proof.
  intros Hs Hc. cbn. destruct s as [| b s]; [reflexivity |].
  cbn in Hc. now rewrite Hc, Hs.
Qed.

Lemma classRun_stop (p : N -> bool) (s : jsstring) :
  match hd_error (skipn (classRun p s) s) with
  | Some c => p c = false
  | None => True
  end.
Proof.
  induction s as [| c s IH]; [exact I |].
  cbn [classRun]. destruct (p c) eqn:E; [exact IH | exact E].
Qed.

Section Tidy.
Variable U : Unicode.

Lemma collapseSpaces_head (s : jsstring) :
  isSpaceAt (hd_error (collapseSpaces U s)) = isSpaceAt (hd_error s).
Proof.
  destruct s as [| c s]; [now rewrite collapseSpaces_nil |].
  rewrite collapseSpaces_cons.
  destruct (spacesLen (c :: s)) as [n |] eqn:E; [| reflexivity].
  unfold spacesLen in E. cbn [classRun] in E. cbn [hd_error isSpaceAt].
  destruct (isSpace c); [reflexivity | discriminate].
Qed.

Lemma collapseSpaces_noSpacePair (s : jsstring) :
  noSpacePair (collapseSpaces U s) = true.
Proof.
  remember (length s) as m eqn:Hm. revert s Hm.
  induction m as [m IH] using lt_wf_ind. intros s Hm.
  destruct s as [| c s]; [now rewrite collapseSpaces_nil |].
  rewrite collapseSpaces_cons.
  destruct (spacesLen (c :: s)) as [n |] eqn:E.
  - pose proof (spacesLen_bounds _ E) as Hn.
    apply noSpacePair_cons.
    + apply (IH (length (skipn n (c :: s)))); [| reflexivity].
      rewrite length_skipn. subst m. lia.
    + rewrite collapseSpaces_head.
      unfold spacesLen in E.
      destruct (Nat.leb 2 (classRun isSpace (c :: s))); [| discriminate].
      injection E as <-.
      pose proof (classRun_stop isSpace (c :: s)) as Hs.
      destruct (hd_error _); cbn; [now rewrite Hs | reflexivity].
  - apply noSpacePair_cons.
    + apply (IH (length s)); [subst m; cbn; lia | reflexivity].
    + rewrite collapseSpaces_head.
      unfold spacesLen in E. cbn [classRun] in E.
      destruct (isSpace c); [| reflexivity].
      destruct s as [| b s]; [reflexivity |].
      cbn [classRun] in E. cbn. destruct (isSpace b); [discriminate | reflexivity].
Qed.
End Tidy.

Lemma trimStart_suffix (s : jsstring) : exists w, s = (w ++ trimStart s)%list.
Proof.
  induction s as [| c s [w IH]]; [now exists [] |].
  cbn. destruct (isSpace c); [| now exists []].
  exists (c :: w). cbn. now f_equal.
Qed.

Lemma noSpacePair_trimStart (s : jsstring) :
  noSpacePair s = true -> noSpacePair (trimStart s) = true.
Proof.
  induction s as [| c s IH]; [reflexivity |].
  intros H. cbn [trimStart]. destruct (isSpace c); [| exact H].
  apply IH. now apply noSpacePair_tail in H.
Qed.

Lemma trimEnd_cons (c : N) (s : jsstring) :
  trimEnd (c :: s)
  = match trimEnd s with
    | [] => if isSpace c then [] else [c]
    | r' => c :: r'
    end.
Proof. reflexivity. Qed.

Lemma trimEnd_same_head (s : jsstring) (x : N) (r : jsstring) :
  trimEnd s = x :: r -> hd_error s = Some x.
Proof.
  intros E. destruct (trimEnd_prefix s) as [w Hw]. rewrite E in Hw.
  now rewrite Hw.
Qed.

Lemma noSpacePair_trimEnd (s : jsstring) :
  noSpacePair s = true -> noSpacePair (trimEnd s) = true.
Proof.
  induction s as [| c s IH]; [reflexivity |].
  intros H. rewrite trimEnd_cons.
  destruct (trimEnd s) as [| x r] eqn:E.
  - now destruct (isSpace c).
  - apply noSpacePair_cons.
    + apply IH. now apply noSpacePair_tail in H.
    + cbn [hd_error isSpaceAt]. apply trimEnd_same_head in E.
      destruct s as [| b s]; [discriminate |]. cbn in E. injection E as ->.
      cbn in H. apply andb_prop in H as [H _]. now apply negb_true_iff in H.
Qed.

Lemma trimEnd_last (s : jsstring) :
  isSpaceAt (lastOf None (trimEnd s)) = false.
Proof.
  induction s as [| c s IH]; [reflexivity |].
  rewrite trimEnd_cons. destruct (trimEnd s) as [| x r] eqn:E.
  - destruct (isSpace c) eqn:Ec; [reflexivity | cbn; exact Ec].
  - rewrite lastOf_cons, lastOf_nonempty by discriminate. exact IH.
Qed.

Lemma trim_tidy (s : jsstring) :
  noSpacePair s = true -> tidy (trim s) = true.
Proof.
  intros H. unfold tidy, trim.
  rewrite noSpacePair_trimEnd by now apply noSpacePair_trimStart.
  rewrite trimEnd_last. cbn [negb andb]. rewrite andb_true_r.
  pose proof (trimStart_head s) as Hh.
  destruct (trimStart s) as [| c r]; [reflexivity |].
  destruct (@trimEnd_head c r Hh) as [r' ->]. cbn. now rewrite Hh.
Qed.

(** X20. The cleaned text and the title of the draft never start or end with
    white space and never hold two white-space characters side by side,
    whatever the input and whatever the date resolver cuts out; and the
    title is empty only when the cleaned text is. *)
Theorem cleaned_tidy
    (U : Unicode) (now : Z)
    (chronoParse : jsstring -> Z -> list ParsedResult) (input : jsstring) :
  tidy (cleaned (extractTokens U input)) = true
  /\ tidy (d_title (parseTask U now chronoParse input)) = true
  /\ (d_title (parseTask U now chronoParse input) = [] ->
      cleaned (extractTokens U input) = []).
Proof.
  assert (Hc : tidy (cleaned (extractTokens U input)) = true).
  { unfold extractTokens. cbn [cleaned]. apply trim_tidy.
    apply collapseSpaces_noSpacePair. }
  split; [exact Hc |].
  unfold parseTask.
  destruct (chronoParse (cleaned (extractTokens U input)) now) as [| first rest];
    cbn [d_title].
  - split; [now destruct (cleaned (extractTokens U input)) |].
    now destruct (cleaned (extractTokens U input)).
  - match goal with
    | |- context [trim ?x] =>
        pose proof (@trim_tidy x (collapseSpaces_noSpacePair U _)) as Ht;
        destruct (trim x)
    end.
    + split; [exact Hc | auto].
    + split; [exact Ht | discriminate].
Qed.

(** ** Text without tokens *)

Section Plain.
Variable U : Unicode.

Lemma noMatch_without (len : jsstring -> option nat) (x : N) (s : jsstring) :
  len [] = None ->
  (forall c r, (c =? x) = false -> len (c :: r) = None) ->
  ~ In x s -> noMatch len s.
Proof.
  intros Hnil Hlen. induction s as [| c s IH]; intros Hin.
  - now split.
  - split.
    + apply Hlen. apply N.eqb_neq. intros ->. apply Hin. now left.
    + apply IH. intros H. apply Hin. now right.
Qed.

Lemma removeTags_same (s : jsstring) :
  noMatch (tagLen U) s -> removeTags U s = s.
Proof.
  induction s as [| c s IH]; intros [Hs Hr]; [apply removeTags_nil |].
  rewrite removeTags_cons, Hs. f_equal. now apply IH.
Qed.

Lemma removeMarkers_same (s : jsstring) :
  noMatch (prLen U) s -> removeMarkers U s = s.
Proof.
  induction s as [| c s IH]; intros [Hs Hr]; [apply removeMarkers_nil |].
  rewrite removeMarkers_cons, Hs. f_equal. now apply IH.
Qed.

Lemma matchAll_tags_none (s : jsstring) :
  noMatch (tagLen U) s -> matchAll U flag_u (tagRe U) s = [].
Proof.
  intros H. unfold matchAll.
  apply (@matchAllFrom_none U flag_u (tagRe U) (tagLen U)); [| exact H].
  intros prev s'. apply matchAt_tagLen.
Qed.

Lemma stringMatch_pr_none (s : jsstring) :
  noMatch (prLen U) s -> stringMatch U flag_i prRe s = None.
Proof.
  intros H. unfold stringMatch.
  rewrite (@searchFrom_none U flag_i prRe (prLen U)); [reflexivity | | exact H].
  intros prev s'. apply matchAt_prLen.
Qed.
End Plain.

(** X21. A text without [#] has no tags and a text without [!] has no
    explicit priority; with neither, extraction only tidies the white
    space: the cleaned text is the input with every run of two or more
    white-space characters replaced by one space, trimmed. *)
Theorem extractTokens_plain (U : Unicode) (text : jsstring) :
  (~ In (ch "#") text -> x_tags (extractTokens U text) = [])
  /\ (~ In (ch "!") text -> x_priority (extractTokens U text) = None)
  /\ (~ In (ch "#") text -> ~ In (ch "!") text ->
      cleaned (extractTokens U text) = trim (collapseSpaces U text)).
Proof.
  assert (Ht : ~ In (ch "#") text -> noMatch (tagLen U) text).
  { apply noMatch_without; [reflexivity |]. intros c r Hc.
    now apply tagLen_not_hash. }
  assert (Hp : ~ In (ch "!") text -> noMatch (prLen U) text).
  { apply noMatch_without; [reflexivity |]. intros c r Hc.
    now apply prLen_not_bang. }
  split; [| split].
  - intros H. unfold extractTokens. cbn [x_tags].
    now rewrite matchAll_tags_none by auto.
  - intros H. unfold extractTokens. cbn [x_priority].
    now rewrite stringMatch_pr_none by auto.
  - intros H1 H2. unfold extractTokens. cbn [cleaned].
    fold (removeTags U text). rewrite removeTags_same by auto.
    fold (removeMarkers U text). rewrite removeMarkers_same by auto.
    reflexivity.
Qed.

Lemma extractTokens_plain_witness :
  cleaned (extractTokens asciiOnly (str "  Call   the bank "))
  = trim (collapseSpaces asciiOnly (str "  Call   the bank ")).
Proof.
  apply (proj2 (proj2 (@extractTokens_plain asciiOnly
                         (str "  Call   the bank ")))).
  - intros H. cbn in H.
    repeat (destruct H as [H | H]; [discriminate H |]). exact H.
  - intros H. cbn in H.
    repeat (destruct H as [H | H]; [discriminate H |]). exact H.
Defined.

(** ** The tags field of the edit dialog *)

Section Field.
Variable U : Unicode.

Lemma matchAllFrom_tags_skip (prev : option N) (s : jsstring) (skip : nat) :
  (skip <= length s)%nat ->
  matchAllFrom U flag_u (tagRe U) prev s skip
  = matchAllFrom U flag_u (tagRe U) None (skipn skip s) 0.
Proof.
  revert prev skip. induction s as [| c s IH]; intros prev skip Hs.
  - assert (skip = O) as -> by (cbn in Hs; lia). cbn [skipn matchAllFrom].
    now rewrite !matchAt_tagRe.
  - destruct skip as [| skip].
    + cbn [skipn matchAllFrom]. now rewrite !matchAt_tagRe.
    + cbn [skipn matchAllFrom]. apply IH. cbn in Hs. lia.
Qed.

Lemma matchAll_tags_nil : matchAll U flag_u (tagRe U) [] = [].
Proof. unfold matchAll. cbn [matchAllFrom]. now rewrite matchAt_tagRe. Qed.

(** The matches of the tag pattern, read from the head of the text. *)
Lemma matchAll_tags_cons (c : N) (s : jsstring) :
  matchAll U flag_u (tagRe U) (c :: s)
  = match tagLen U (c :: s) with
    | Some n =>
        [firstn (n - 1) s] :: matchAll U flag_u (tagRe U) (skipn n (c :: s))
    | None => matchAll U flag_u (tagRe U) s
    end.
Proof.
  unfold matchAll. cbn [matchAllFrom]. rewrite matchAt_tagRe.
  destruct (tagLen U (c :: s)) as [n |] eqn:E.
  - apply tagLen_bounds in E. destruct n as [| n]; [lia |].
    cbn [tl Nat.pred skipn]. f_equal.
    apply matchAllFrom_tags_skip. cbn in E. lia.
  - now rewrite matchAllFrom_tags_skip with (skip := O) by lia.
Qed.

Lemma tagRun_app (t rest : jsstring) :
  classRunU (tagClass U) t = length t ->
  tagStart U rest = false ->
  classRunU (tagClass U) (t ++ rest) = length t.
Proof.
  remember (length t) as m eqn:Hm. revert t Hm.
  induction m as [m IH] using lt_wf_ind. intros t Hm Ht Hr.
  destruct t as [| c t].
  - cbn [app]. unfold tagStart in Hr. subst m.
    now destruct (classRunU (tagClass U) rest).
  - cbn [app]. destruct (isHighSurrogate c) eqn:Hc.
    + rewrite tagRun_high in Ht |- * by exact Hc.
      destruct t as [| lo t]; [subst m; discriminate |]. cbn [app].
      destruct (isLowSurrogate lo && tagClass U (codePointOfPair c lo));
        [| subst m; discriminate].
      subst m. cbn [length] in *. f_equal. f_equal.
      apply (IH (length t)); [lia | reflexivity | lia | exact Hr].
    + rewrite tagRun_plain in Ht |- * by exact Hc.
      destruct (tagClass U c); [| subst m; discriminate].
      subst m. cbn [length] in *. f_equal.
      apply (IH (length t)); [lia | reflexivity | lia | exact Hr].
Qed.

Lemma isTag_run (t : jsstring) :
  isTag U t = true ->
  classRunU (tagClass U) t = length t /\ (0 < length t)%nat.
Proof.
  unfold isTag. destruct (classRunU (tagClass U) t) as [| n] eqn:E;
    [discriminate |].
  intros H. apply Nat.eqb_eq in H. lia.
Qed.

Lemma tagStart_space (w : jsstring) : tagStart U (ch " " :: w) = false.
Proof.
  rewrite tagStart_plain by reflexivity. now apply tagClass_space.
Qed.

Lemma tag_at_head (t rest : jsstring) :
  isTag U t = true -> tagStart U rest = false ->
  tagLen U (ch "#" :: t ++ rest) = Some (S (length t)).
Proof.
  intros Ht Hr. apply isTag_run in Ht as [Hrun Hlen].
  rewrite tagLen_cons. cbn [N.eqb andb].
  pose proof (@tagRun_app t rest Hrun Hr) as E.
  unfold tagStart. rewrite E.
  replace ((ch "#" =? ch "#")%N) with true by reflexivity. cbn [andb].
  destruct (length t); [lia | reflexivity].
Qed.

Lemma field_matches (tags : list jsstring) :
  Forall (fun t => isTag U t = true) tags ->
  matchAll U flag_u (tagRe U) (tagsField tags)
  = List.map (fun t => [t]) tags.
Proof.
  unfold tagsField. induction 1 as [| t ts Ht Hts IH].
  - apply matchAll_tags_nil.
  - cbn [List.map join].
    destruct (List.map (fun t => ch "#" :: t) ts) as [| x r] eqn:E.
    + destruct ts; [| discriminate]. cbn [List.map].
      rewrite matchAll_tags_cons.
      pose proof (@tag_at_head t [] Ht (tagStart_nil U)) as E1.
      rewrite app_nil_r in E1. rewrite E1.
      cbn [Nat.sub]. rewrite Nat.sub_0_r.
      rewrite firstn_all.
      replace (skipn (S (length t)) (ch "#" :: t)) with (@nil N)
        by (cbn [skipn]; now rewrite skipn_all).
      now rewrite matchAll_tags_nil.
    + cbn [app]. rewrite matchAll_tags_cons.
      change (str " " ++ join (str " ") (x :: r))%list
        with (ch " " :: join (str " ") (x :: r)).
      rewrite tag_at_head by (auto using tagStart_space).
      cbn [Nat.sub]. rewrite Nat.sub_0_r.
      rewrite firstn_app, firstn_all, Nat.sub_diag. cbn [firstn].
      rewrite app_nil_r. cbn [skipn].
      rewrite skipn_app, skipn_all, Nat.sub_diag. cbn [skipn app].
      rewrite matchAll_tags_cons, tagLen_not_hash by reflexivity.
      now rewrite IH.
Qed.

Lemma uniqueHelper_nodup (seen xs : list jsstring) :
  NoDup xs -> (forall x, In x xs -> ~ In x seen) ->
  uniqueHelper seen xs = xs.
Proof.
  intros Hn. revert seen. induction Hn as [| x xs Hx Hn IH]; intros seen Hs.
  - reflexivity.
  - cbn [uniqueHelper].
    destruct (existsb (jsstring_eqb x) seen) eqn:E.
    + apply existsb_exists in E as (y & Hy & E).
      apply jsstring_eqb_eq in E. subst y.
      exfalso. apply (Hs x); [now left | exact Hy].
    + f_equal. apply IH. intros y Hy [<- | Hin]; [contradiction |].
      apply (Hs y); [now right | exact Hin].
Qed.

Lemma field_round_trip (tags : list jsstring) :
  Forall (fun t => isTag U t = true /\ toLowerCase U t = t) tags ->
  NoDup tags ->
  tagsOfField U (tagsField tags) = tags.
Proof.
  intros Hf Hn. unfold tagsOfField.
  rewrite field_matches
    by (revert Hf; apply Forall_impl; intros t [H _]; exact H).
  rewrite map_map. cbn [nth].
  assert (E : List.map (fun t => toLowerCase U t) tags = tags).
  { induction Hf as [| t ts [_ Ht] Hts IH]; [reflexivity |].
    cbn [List.map]. rewrite Ht. f_equal. apply IH. now inversion Hn. }
  rewrite E. apply uniqueHelper_nodup; [exact Hn | intros x _ []].
Qed.
End Field.

Section AsciiTags.
Variable U : Unicode.

Let asciiTag (c : N) : bool := isAscii c && tagClass U c.
Let lowerAZ (c : N) : N := if isUpperAZ c then c + 32 else c.

Lemma classRunU_ascii (p : N -> bool) (s : jsstring) :
  forallb isAscii s = true -> classRunU p s = classRun p s.
Proof.
  induction s as [| c s IH]; [reflexivity |].
  cbn [forallb]. intros [Hc Hs]%andb_prop. cbn [classRunU classRun].
  assert (E : isHighSurrogate c = false) by char_false.
  rewrite E, IH by exact Hs. reflexivity.
Qed.

Lemma classRun_firstn (p : N -> bool) (s : jsstring) :
  forallb p (firstn (classRun p s) s) = true.
Proof.
  induction s as [| c s IH]; [reflexivity |].
  cbn [classRun]. destruct (p c) eqn:E; [| reflexivity].
  cbn [firstn forallb]. now rewrite E.
Qed.

Lemma forallb_firstn (p : N -> bool) (n : nat) (s : jsstring) :
  forallb p s = true -> forallb p (firstn n s) = true.
Proof.
  revert n. induction s as [| c s IH]; intros [| n]; try reflexivity.
  cbn [forallb firstn]. intros [Hc Hs]%andb_prop. rewrite Hc. now apply IH.
Qed.

Lemma forallb_skipn (p : N -> bool) (n : nat) (s : jsstring) :
  forallb p s = true -> forallb p (skipn n s) = true.
Proof.
  revert n. induction s as [| c s IH]; intros [| n]; try reflexivity.
  - now intros H.
  - cbn [forallb skipn]. intros [Hc Hs]%andb_prop. now apply IH.
Qed.

Lemma asciiTag_isTag (t : jsstring) :
  forallb asciiTag t = true -> t <> [] -> isTag U t = true.
Proof.
  intros Ht Hne. unfold isTag.
  assert (Ha : forallb isAscii t = true).
  { clear Hne. induction t as [| c t IH]; [reflexivity |].
    cbn [forallb] in *. apply andb_prop in Ht as [Hc Ht].
    apply andb_prop in Hc as [Hc _]. rewrite Hc. now apply IH. }
  rewrite classRunU_ascii by exact Ha.
  assert (E : classRun (tagClass U) t = length t).
  { clear Hne Ha. induction t as [| c t IH]; [reflexivity |].
    cbn [forallb] in Ht. apply andb_prop in Ht as [Hc Ht].
    apply andb_prop in Hc as [_ Hc]. cbn [classRun length].
    rewrite Hc. f_equal. now apply IH. }
  rewrite E. destruct t; [contradiction |]. cbn [length].
  apply Nat.eqb_refl.
Qed.

Lemma lowerAZ_tag (c : N) : asciiTag c = true -> asciiTag (lowerAZ c) = true.
Proof.
  unfold asciiTag, lowerAZ. intros H.
  destruct (isUpperAZ c) eqn:Eu; [| exact H].
  assert (Ha : isAscii (c + 32) = true) by char_true.
  assert (Hl : isLowerAZ (c + 32) = true) by char_true.
  rewrite Ha. unfold tagClass, isL. rewrite Ha, Hl.
  now rewrite orb_true_r.
Qed.

Lemma lowerAZ_twice (c : N) : lowerAZ (lowerAZ c) = lowerAZ c.
Proof.
  unfold lowerAZ. destruct (isUpperAZ c) eqn:Eu; [| now rewrite Eu].
  assert (E : isUpperAZ (c + 32) = false) by char_false.
  now rewrite E.
Qed.

Lemma asciiTag_lower (t : jsstring) :
  forallb asciiTag t = true ->
  toLowerCase U t = List.map lowerAZ t
  /\ forallb asciiTag (List.map lowerAZ t) = true
  /\ toLowerCase U (List.map lowerAZ t) = List.map lowerAZ t.
Proof.
  intros Ht.
  assert (Ha : forall l, forallb asciiTag l = true -> forallb isAscii l = true).
  { induction l as [| c l IH]; [reflexivity |].
    cbn [forallb]. intros [Hc Hl]%andb_prop.
    apply andb_prop in Hc as [Hc _]. rewrite Hc. now apply IH. }
  assert (Hm : forallb asciiTag (List.map lowerAZ t) = true).
  { induction t as [| c t IH]; [reflexivity |].
    cbn [forallb List.map] in *. apply andb_prop in Ht as [Hc Ht].
    rewrite (lowerAZ_tag _ Hc). now apply IH. }
  split; [| split; [exact Hm |]].
  - unfold toLowerCase. now rewrite (Ha _ Ht).
  - unfold toLowerCase. rewrite (Ha _ Hm). rewrite map_map.
    apply map_ext. intros c. apply lowerAZ_twice.
Qed.

Lemma ascii_captures (text : jsstring) :
  forallb isAscii text = true ->
  forall m : list (list N),
    In m (matchAll U flag_u (tagRe U) text) ->
    forallb asciiTag (nth 0 m (@nil N)) = true /\ nth 0 m (@nil N) <> [].
Proof.
  remember (length text) as k eqn:Hk. revert text Hk.
  induction k as [k IH] using lt_wf_ind. intros text Hk Ha m Hm.
  destruct text as [| c s].
  { rewrite matchAll_tags_nil in Hm. contradiction. }
  rewrite matchAll_tags_cons in Hm.
  cbn [forallb] in Ha. apply andb_prop in Ha as [Hc Hs].
  destruct (tagLen U (c :: s)) as [n |] eqn:E.
  - pose proof (tagLen_bounds _ _ E) as Hn.
    destruct Hm as [<- | Hm].
    + cbn [nth]. rewrite tagLen_cons in E.
      destruct ((c =? ch "#") && tagStart U s) eqn:Eh; [| discriminate].
      injection E as <-. cbn [Nat.sub]. rewrite Nat.sub_0_r.
      apply andb_prop in Eh as [_ Eh]. unfold tagStart in Eh.
      rewrite classRunU_ascii in Eh |- * by exact Hs.
      split.
      * unfold asciiTag.
        rewrite forallb_forall. intros x Hx. apply andb_true_intro. split.
        -- pose proof (forallb_firstn isAscii (classRun (tagClass U) s) _ Hs)
             as H1.
           rewrite forallb_forall in H1. now apply H1.
        -- pose proof (classRun_firstn (tagClass U) s) as H1.
           rewrite forallb_forall in H1. now apply H1.
      * destruct s as [| x s]; [discriminate |]. cbn [classRun] in *.
        destruct (tagClass U x); [discriminate | discriminate].
    + apply (IH (length (skipn n (c :: s)))) with (text := skipn n (c :: s));
        try reflexivity; try exact Hm.
      * rewrite length_skipn. subst k. lia.
      * apply forallb_skipn. cbn [forallb]. now rewrite Hc, Hs.
  - apply (IH (length s)) with (text := s); try reflexivity; try assumption.
    subst k. cbn. lia.
Qed.

Lemma ascii_tags (text : jsstring) :
  forallb isAscii text = true ->
  Forall (fun t => isTag U t = true /\ toLowerCase U t = t)
    (x_tags (extractTokens U text))
  /\ NoDup (x_tags (extractTokens U text))
  /\ Forall (fun t => List.map lowerAZ t = t) (x_tags (extractTokens U text)).
Proof.
  intros Ha. unfold extractTokens. cbn [x_tags]. unfold arrayFromSet.
  destruct (uniqueHelper_spec []
              (List.map (fun m => toLowerCase U (nth 0 m []))
                        (matchAll U flag_u (tagRe U) text))) as [Hn Hin].
  assert (Hall : forall t,
            In t (uniqueHelper []
                    (List.map (fun m => toLowerCase U (nth 0 m []))
                              (matchAll U flag_u (tagRe U) text))) ->
            (isTag U t = true /\ toLowerCase U t = t)
            /\ List.map lowerAZ t = t).
  { intros t Ht. apply Hin in Ht as [Ht _].
    apply in_map_iff in Ht as (m & <- & Hm).
    destruct (ascii_captures text Ha m Hm) as [Hc Hne].
    destruct (asciiTag_lower _ Hc) as (E1 & E2 & E3).
    cbv beta. rewrite E1. split; [split; [| exact E3] |].
    - apply asciiTag_isTag; [exact E2 |].
      destruct (nth 0 m []); [contradiction | discriminate].
    - rewrite map_map. apply map_ext. intros c. apply lowerAZ_twice. }
  split; [| split; [exact Hn |]]; apply Forall_forall; intros t Ht;
    now apply Hall.
Qed.
End AsciiTags.

(** X22. Tags survive the tags field of the edit dialog. Shown as [#a #b ...]
    and read back when the field loses focus, a list of tags comes back
    unchanged when the tags are distinct, in lower case already, not
    empty and made of tag characters only; the tags extracted from an
    ASCII input always are. *)
Theorem tags_field_round_trip (U : Unicode) :
  (forall tags,
     Forall (fun t => isTag U t = true /\ toLowerCase U t = t) tags ->
     NoDup tags ->
     tagsOfField U (tagsField tags) = tags)
  /\ (forall text,
        forallb isAscii text = true ->
        tagsOfField U (tagsField (x_tags (extractTokens U text)))
        = x_tags (extractTokens U text)).
Proof.
  split.
  - intros tags Hf Hn. now apply field_round_trip.
  - intros text Ha. destruct (ascii_tags U text Ha) as (Hf & Hn & _).
    now apply field_round_trip.
Qed.

Lemma tags_field_round_trip_witness :
  tagsOfField asciiOnly
    (tagsField (x_tags (extractTokens asciiOnly
                          (str "Fix login #Web #proj:site !high"))))
  = [str "web"; str "proj:site"].
Proof.
  rewrite (proj2 (@tags_field_round_trip asciiOnly)
             (str "Fix login #Web #proj:site !high") eq_refl).
  vm_compute. reflexivity.
Defined.

(** ** A task that is only a date *)

(** X23. When the date the resolver finds is the whole cleaned text, cutting
    it out leaves nothing, and the title falls back to the cleaned text:
    the task is titled with its own date text and is due at that date. *)
Theorem parseTask_date_only
    (U : Unicode) (now : Z)
    (chronoParse : jsstring -> Z -> list ParsedResult)
    (input : jsstring) (first : ParsedResult) (rest : list ParsedResult) :
  chronoParse (cleaned (extractTokens U input)) now = first :: rest ->
  match pr_index first with Some i => i | None => O end = O ->
  pr_text first = Some (cleaned (extractTokens U input)) ->
  d_title (parseTask U now chronoParse input) = cleaned (extractTokens U input)
  /\ d_due (parseTask U now chronoParse input) = Some (pr_date first).
Proof.
  intros Hp Hi Ht. unfold parseTask. rewrite Hp, Hi, Ht.
  cbn [Nat.add firstn app d_title d_due].
  rewrite skipn_all. cbn [app].
  fold (collapseSpaces U (str " ")).
  replace (collapseSpaces U (str " ")) with (str " ").
  - split; [| reflexivity]. cbn. now destruct (cleaned (extractTokens U input)).
  - change (str " ") with [32]. rewrite collapseSpaces_cons.
    change (spacesLen [32]) with (@None nat). now rewrite collapseSpaces_nil.
Qed.

Lemma parseTask_date_only_witness :
  d_title (parseTask asciiOnly 1700000000000%Z
             (fun _ _ => [{| pr_index := Some O;
                             pr_text := Some (str "tomorrow 3pm");
                             pr_date := 1700060400000%Z |}])
             (str "tomorrow 3pm #errands"))
  = str "tomorrow 3pm".
Proof.
  apply (proj1 (@parseTask_date_only asciiOnly 1700000000000%Z
                  (fun _ _ => [{| pr_index := Some O;
                                  pr_text := Some (str "tomorrow 3pm");
                                  pr_date := 1700060400000%Z |}])
                  (str "tomorrow 3pm #errands")
                  {| pr_index := Some O;
                     pr_text := Some (str "tomorrow 3pm");
                     pr_date := 1700060400000%Z |} []
                  eq_refl eq_refl eq_refl)).
Defined.

Local Open Scope Z_scope.

(** ** The edit dialog *)

Section EditFacts.
Variable U : Unicode.
Variable now : Z.
Variable chronoParse : jsstring -> Z -> list ParsedResult.

Let session := editSession U now chronoParse.

Lemma applyEdit_keeps (e : edit) (t : Task) :
  id (applyEdit U now chronoParse e t) = id t
  /\ createdAt (applyEdit U now chronoParse e t) = createdAt t
  /\ done (applyEdit U now chronoParse e t) = done t
  /\ subtasks (applyEdit U now chronoParse e t) = subtasks t.
Proof. destruct e; repeat split. Qed.

Lemma session_keeps (edits : list edit) (t : Task) :
  id (session edits t) = id t
  /\ createdAt (session edits t) = createdAt t
  /\ done (session edits t) = done t
  /\ subtasks (session edits t) = subtasks t.
Proof.
  unfold session, editSession. revert t.
  induction edits as [| e edits IH]; intros t; [repeat split |].
  cbn [fold_left].
  destruct (IH (applyEdit U now chronoParse e t)) as (H1 & H2 & H3 & H4).
  destruct (applyEdit_keeps e t) as (K1 & K2 & K3 & K4).
  repeat split; congruence.
Qed.

Lemma forallb_trim (p : N -> bool) (s : jsstring) :
  forallb p s = true -> forallb p (trim s) = true.
Proof.
  intros H. unfold trim.
  destruct (trimStart_suffix s) as [w Hw].
  destruct (trimEnd_prefix (trimStart s)) as [v Hv].
  rewrite Hw, forallb_app in H. apply andb_prop in H as [_ H].
  rewrite Hv, forallb_app in H. now apply andb_prop in H as [H _].
Qed.
End EditFacts.

(** X24. No sequence of edits in the dialog changes the id, the creation
    time, the completion or the subtasks of the task being edited, and
    saving stores the edited task in place of every task with its id,
    the ids of the collection staying as they were. Pressing Enter in
    the due-date input with a text in which the resolver finds no date
    removes the due date. *)
Theorem edit_session_keeps
    (U : Unicode) (now : Z)
    (chronoParse : jsstring -> Z -> list ParsedResult)
    (edits : list edit) (t : Task) (w : World) :
  (id (editSession U now chronoParse edits t) = id t
   /\ createdAt (editSession U now chronoParse edits t) = createdAt t
   /\ done (editSession U now chronoParse edits t) = done t
   /\ subtasks (editSession U now chronoParse edits t) = subtasks t)
  /\ List.map s_id
       (w_tasks (fst (saveEdit (editSession U now chronoParse edits t) w)))
     = List.map s_id (w_tasks w)
  /\ Forall2
       (fun u u' =>
          u' = (if strictEq (s_id u) (VStr (id t))
                then ofTask (editSession U now chronoParse edits t) else u))
       (w_tasks w)
       (w_tasks (fst (saveEdit (editSession U now chronoParse edits t) w)))
  /\ (forall v,
        chronoParse (cleaned (extractTokens U v)) now = [] ->
        due (applyEdit U now chronoParse (EnterDue v) t) = None).
Proof.
  pose proof (session_keeps U now chronoParse edits t) as Hk.
  split; [exact Hk |]. destruct Hk as (Hid & _).
  split; [| split].
  - cbn. rewrite map_map. apply map_ext. intros u.
    destruct (strictEq (s_id u) _) eqn:E; [| reflexivity].
    symmetry. now apply strictEq_eq.
  - cbn. rewrite Hid.
    induction (w_tasks w) as [| u l IH]; cbn; constructor; auto.
  - intros v Hv. cbn [applyEdit due]. unfold parseTask. now rewrite Hv.
Qed.

(** X25. A task added from an ASCII input can pass through the tags field of
    the edit dialog untouched: when the field, showing the task's tags,
    loses focus, the tags and the project read back are the ones the
    task was stored with. The project of such a task, when it has one,
    is the rest of one of its tags after [proj:], and it has no ASCII
    capital: the name typed after [#proj:] is stored in lower case. *)
Theorem leaving_tags_untouched
    (U : Unicode) (now : Z)
    (chronoParse : jsstring -> Z -> list ParsedResult)
    (uidStream : nat -> jsstring) (input noteText : jsstring) (w : World) :
  forallb isAscii input = true ->
  blank input = false ->
  exists t : Task,
    addTaskFromInput U now chronoParse uidStream input noteText w
    = ({| w_tasks := ofTask t :: w_tasks w; w_alerts := w_alerts w;
          w_uids := S (w_uids w) |}, inl tt)
    /\ tags t = x_tags (extractTokens U (trim input))
    /\ project t = projectOfTags (tags t)
    /\ applyEdit U now chronoParse (LeaveTags (tagsField (tags t))) t = t
    /\ (forall p, project t = Some p ->
                  In (str "proj:" ++ p)%list (tags t) /\ asciiLower p = p).
Proof.
  intros Ha Hb. unfold addTaskFromInput.
  destruct (trim input) as [| c r] eqn:Et.
  { apply trim_blank in Et. congruence. }
  pose proof (forallb_trim isAscii input Ha) as Hta. rewrite Et in Hta.
  set (base := parseTask U now chronoParse (c :: r)).
  exists {| id := uidStream (w_uids w);
            title := match d_title base with [] => c :: r | x => x end;
            notes := match trim noteText with [] => None | n => Some n end;
            createdAt := now;
            due := d_due base;
            tags := d_tags base;
            project := projectOfTags (d_tags base);
            priority := d_priority base;
            done := false;
            subtasks := Some [] |}.
  cbn [tags project].
  assert (Htags : d_tags base = x_tags (extractTokens U (c :: r)))
    by apply parseTask_tags.
  destruct (ascii_tags U (c :: r) Hta) as (Hf & Hn & Hl).
  split; [| split; [exact Htags | split; [reflexivity | split]]].
  - unfold bind, uid, setTasks, ofTask, projectOfTags, optStr.
    cbn [fst snd w_tasks w_alerts w_uids id title notes createdAt due tags
         project priority done subtasks List.map].
    f_equal. f_equal. f_equal. f_equal.
    + now destruct (trim noteText).
    + now destruct (find _ _).
  - cbn [applyEdit id title notes createdAt due tags project priority done
         subtasks].
    rewrite Htags. now rewrite (@field_round_trip U _ Hf Hn).
  - intros p. unfold projectOfTags. rewrite Htags.
    destruct (find _ _) as [x |] eqn:Ef; [| discriminate].
    intros Hp. assert (Ep : p = skipn 5 x) by congruence. clear Hp. subst p.
    apply find_some in Ef as [Hin Hs].
    split.
    + apply startsWith_spec in Hs as [post ->].
      change (skipn 5 (str "proj:" ++ post)%list) with post. exact Hin.
    + rewrite Forall_forall in Hl. specialize (Hl x Hin).
      unfold asciiLower. rewrite <- skipn_map. now rewrite Hl.
Qed.

Lemma leaving_tags_untouched_witness :
  exists t : Task,
    addTaskFromInput asciiOnly 1700000000000 (fun _ _ => []) someIds
      (str "Fix login #Web #proj:site") (str "") emptyWorld
    = ({| w_tasks := ofTask t :: w_tasks emptyWorld;
          w_alerts := w_alerts emptyWorld;
          w_uids := S (w_uids emptyWorld) |}, inl tt)
    /\ tags t = x_tags (extractTokens asciiOnly
                          (trim (str "Fix login #Web #proj:site")))
    /\ project t = projectOfTags (tags t)
    /\ applyEdit asciiOnly 1700000000000 (fun _ _ => [])
         (LeaveTags (tagsField (tags t))) t = t
    /\ (forall p, project t = Some p ->
                  In (str "proj:" ++ p)%list (tags t) /\ asciiLower p = p).
Proof.
  apply (@leaving_tags_untouched asciiOnly 1700000000000 (fun _ _ => [])
           someIds (str "Fix login #Web #proj:site") (str "") emptyWorld);
    reflexivity.
Defined.

(** X26. Ticking the checkbox of a subtask sets the [done] flag of the
    subtasks with that id, of that task, to the state of the checkbox
    and changes nothing else: the subtasks keep their number, order,
    ids and titles, the task keeps every other field, tasks with
    another id are untouched, and ticking again changes nothing
    more. *)
Theorem checkSubtask_effect
    (undefinedReadMessage : jsstring) (t : Task) (subs : list Subtask)
    (sid : jsstring) (checked : bool) (w : World) :
  subtasks t = Some subs ->
  exists subs',
    checkSubtask undefinedReadMessage t sid checked w
    = ({| w_tasks :=
            List.map (fun u => if strictEq (s_id u) (VStr (id t))
                               then ofTask (setSubtasks t subs') else u)
                     (w_tasks w);
          w_alerts := w_alerts w; w_uids := w_uids w |}, inl tt)
    /\ Forall2
         (fun x x' =>
            sub_id x' = sub_id x /\ sub_title x' = sub_title x
            /\ sub_done x'
               = (if jsstring_eqb (sub_id x) sid then checked else sub_done x))
         subs subs'
    /\ List.map (checkOne sid checked) subs' = subs'.
Proof.
  intros Hs. exists (List.map (checkOne sid checked) subs).
  split; [| split].
  - unfold checkSubtask. now rewrite Hs.
  - clear Hs. induction subs as [| x l IH]; cbn; constructor; [| exact IH].
    unfold checkOne. now destruct (jsstring_eqb (sub_id x) sid).
  - rewrite map_map. apply map_ext. intros x. unfold checkOne.
    destruct (jsstring_eqb (sub_id x) sid) eqn:E; cbn [sub_id]; now rewrite E.
Qed.

Lemma checkSubtask_effect_witness :
  exists subs',
    checkSubtask (str "TypeError")
      {| id := str "a"; title := str "report"; notes := None;
         createdAt := 1699000000000; due := None; tags := [];
         project := None; priority := medium; done := false;
         subtasks := Some [{| sub_id := str "s1"; sub_title := str "draft";
                              sub_done := false |}] |}
      (str "s1") true emptyWorld
    = ({| w_tasks := []; w_alerts := []; w_uids := 0 |}, inl tt)
    /\ Forall2
         (fun x x' =>
            sub_id x' = sub_id x /\ sub_title x' = sub_title x
            /\ sub_done x'
               = (if jsstring_eqb (sub_id x) (str "s1") then true
                  else sub_done x))
         [{| sub_id := str "s1"; sub_title := str "draft"; sub_done := false |}]
         subs'
    /\ List.map (checkOne (str "s1") true) subs' = subs'.
Proof.
  apply (@checkSubtask_effect (str "TypeError")
           {| id := str "a"; title := str "report"; notes := None;
              createdAt := 1699000000000; due := None; tags := [];
              project := None; priority := medium; done := false;
              subtasks := Some [{| sub_id := str "s1"; sub_title := str "draft";
                                   sub_done := false |}] |}
           [{| sub_id := str "s1"; sub_title := str "draft"; sub_done := false |}]
           (str "s1") true emptyWorld eq_refl).
Defined.

(** ** The assistant *)

Section CaseFolding.
Variable U : Unicode.

(** Matching a character of a pattern that is ASCII and not a capital,
    ignoring case: the character read is that one, or its capital. *)
Lemma sameChar_fold (a x : N) :
  isAscii a = true -> isUpperAZ a = false ->
  sameChar U flag_i a x
  = ((if isUpperAZ x then x + 32 else x) =? a)%N.
Proof.
  intros Ha Hu. unfold sameChar, canonicalize. cbn [ignoreCase flag_i].
  rewrite Ha.
  destruct (isAscii x) eqn:Hx.
  - destruct (isLowerAZ a) eqn:Hla, (isLowerAZ x) eqn:Hlx,
      (isUpperAZ x) eqn:Hux;
      match goal with
      | |- (?p =? ?q)%N = (?r =? ?s)%N =>
          destruct (p =? q)%N eqn:E1, (r =? s)%N eqn:E2;
          try reflexivity; exfalso; char_facts; lia
      end.
  - assert (Hux : isUpperAZ x = false) by char_false.
    rewrite Hux.
    assert (E2 : (x =? a)%N = false) by char_false.
    rewrite E2.
    destruct (isAscii (uniUpperUnit U x)) eqn:Hc.
    + destruct (isLowerAZ a); char_false.
    + destruct (isLowerAZ a); char_false.
Qed.
End CaseFolding.

Section Folding.
Variable U : Unicode.

Lemma prefixBy_fold (w s : jsstring) :
  forallb (fun a => isAscii a && negb (isUpperAZ a)) w = true ->
  prefixBy (sameChar U flag_i) w s = startsWith w (asciiLower s).
Proof.
  revert s. induction w as [| a w IH]; intros s Hw; [reflexivity |].
  cbn [forallb] in Hw. apply andb_prop in Hw as [Ha Hw].
  apply andb_prop in Ha as [Ha Hu]. apply negb_true_iff in Hu.
  destruct s as [| x s]; [reflexivity |].
  cbn [prefixBy asciiLower List.map startsWith].
  rewrite sameChar_fold by assumption. rewrite IH by exact Hw.
  f_equal. apply N.eqb_sym.
Qed.

Lemma includes_fold (w : jsstring) (prev : option N) (s : jsstring) :
  existsFrom (fun _ x => startsWith w (asciiLower x)) prev s
  = includes w (asciiLower s).
Proof.
  revert prev. induction s as [| c s IH]; intros prev; [reflexivity |].
  cbn [existsFrom asciiLower List.map includes]. now rewrite IH.
Qed.

(** A case-insensitive literal pattern finds its text exactly when the
    subject, its ASCII capitals in lower case, contains it. *)
Lemma test_lit_fold (w s : jsstring) :
  forallb (fun a => isAscii a && negb (isUpperAZ a)) w = true ->
  test U flag_i (lit w) s = includes w (asciiLower s).
Proof.
  intros Hw.
  rewrite (@test_existsFrom U flag_i (lit w)
             (fun _ x => startsWith w (asciiLower x))).
  - apply includes_fold.
  - intros prev s'. unfold matchAt. rewrite exec_lit by reflexivity.
    rewrite prefixBy_fold by exact Hw.
    now destruct (startsWith w (asciiLower s')).
Qed.
End Folding.

Lemma asciiLower_app (a b : jsstring) :
  asciiLower (a ++ b) = (asciiLower a ++ asciiLower b)%list.
Proof. apply map_app. Qed.

Lemma startsWith_no_straddle (w s b : jsstring) (q : N) :
  ~ In q w -> startsWith w (s ++ q :: b) = startsWith w s.
Proof.
  revert s. induction w as [| a w IH]; intros s Hq; [now destruct s |].
  destruct s as [| x s]; cbn [app startsWith].
  - destruct (a =? q)%N eqn:E; [| reflexivity].
    apply N.eqb_eq in E. exfalso. apply Hq. now left.
  - f_equal. apply IH. intros H. apply Hq. now right.
Qed.

(** A word that does not hold the character [q] is found in
    [s ++ q :: b] exactly when it is found in [s] or in [b]. *)
Lemma includes_no_straddle (w s b : jsstring) (q : N) :
  w <> [] -> ~ In q w ->
  includes w (s ++ q :: b) = includes w s || includes w b.
Proof.
  intros Hw Hq. induction s as [| x s IH].
  - cbn [app includes]. destruct w as [| a w]; [contradiction |].
    cbn [startsWith].
    destruct (a =? q)%N eqn:E.
    + apply N.eqb_eq in E. exfalso. apply Hq. now left.
    + reflexivity.
  - cbn [app includes].
    pose proof (@startsWith_no_straddle w (x :: s) b q Hq) as E.
    cbn [app] in E. rewrite E, IH. now rewrite orb_assoc.
Qed.

Section AssistantFacts.
Variable U : Unicode.
Variable zone : TimeZone.
Variable now : Z.
Variable fetchJSON : jsstring -> jsstring -> JSON + exn.
Variable notAFunctionMessage : jsstring.
Variable invalidTimeMessage : jsstring.
Variable toLocaleTimeString : Z -> jsstring.
Variable toISOString : Z -> jsstring.

Let callHere := callLLM U fetchJSON notAFunctionMessage.

Lemma callLLM_mock (prompt : jsstring) (apiKey : option jsstring) (w : World) :
  apiKey = None \/ apiKey = Some [] ->
  callHere prompt apiKey w
  = (w, inl (if includes (str "summarize") (asciiLower prompt) then mockPlan
             else if includes (str "break down") (asciiLower prompt)
                  then mockSubtasks
                  else mockAdvice)).
Proof.
  intros Hk. unfold callHere, callLLM, summarizeRe, breakDownRe.
  rewrite !test_lit_fold by reflexivity.
  destruct Hk as [-> | ->];
    destruct (includes (str "summarize") _);
    try destruct (includes (str "break down") _); reflexivity.
Qed.

Lemma summarize_in_prompt (tasks : list Task) :
  includes (str "summarize")
    (asciiLower (summarizePrompt zone now toLocaleTimeString tasks))
  = true.
Proof.
  unfold summarizePrompt. rewrite asciiLower_app.
  apply includes_here. apply startsWith_spec. eexists.
  match goal with
  | |- (asciiLower ?p ++ ?r)%list = _ =>
      let v := eval vm_compute in (asciiLower p) in
      change (asciiLower p) with v
  end.
  cbn [app]. reflexivity.
Qed.
End AssistantFacts.

Lemma breakDownPrompt_shape (taskTitle dueText : jsstring) :
  asciiLower (breakDownPrompt taskTitle dueText)
  = (str "break down this task into 3-6 clear subtasks with verbs: "
     ++ 34%N :: asciiLower taskTitle
     ++ 34%N :: str ". consider due date:"
     ++ 32%N :: asciiLower dueText
     ++ 46%N :: str " return a simple list.")%list.
Proof.
  unfold breakDownPrompt. rewrite !asciiLower_app. reflexivity.
Qed.

Lemma summarize_in_breakDownPrompt (taskTitle dueText : jsstring) :
  includes (str "summarize") (asciiLower (breakDownPrompt taskTitle dueText))
  = includes (str "summarize") (asciiLower taskTitle)
    || includes (str "summarize") (asciiLower dueText).
Proof.
  assert (Hq : forall q, isLowerAZ q = false -> ~ In q (str "summarize")).
  { intros q Hq Hin. cbn in Hin.
    repeat (destruct Hin as [<- | Hin]; [discriminate Hq |]). exact Hin. }
  rewrite breakDownPrompt_shape.
  rewrite !includes_no_straddle by (try discriminate; now apply Hq).
  replace (includes (str "summarize")
             (str "break down this task into 3-6 clear subtasks with verbs: "))
    with false by (vm_compute; reflexivity).
  replace (includes (str "summarize") (str ". consider due date:"))
    with false by (vm_compute; reflexivity).
  replace (includes (str "summarize") (str " return a simple list."))
    with false by (vm_compute; reflexivity).
  cbn [orb]. now rewrite orb_false_r.
Qed.

Lemma breakDown_in_prompt (taskTitle dueText : jsstring) :
  includes (str "break down") (asciiLower (breakDownPrompt taskTitle dueText))
  = true.
Proof.
  rewrite breakDownPrompt_shape. apply includes_here. reflexivity.
Qed.

(** X27. [callLLM] always answers: it returns normally, leaves the store as
    it is, and its answer is never the empty text. With a key, the
    answer is the trimmed [choices[0].message.content] of the response
    when that is a text with more than white space, the "no response"
    text when it is a text of white space only, and the "failed" text
    when the request or the reading of the response fails. *)
Theorem callLLM_answers
    (U : Unicode) (fetchJSON : jsstring -> jsstring -> JSON + exn)
    (notAFunctionMessage prompt : jsstring) (apiKey : option jsstring)
    (w : World) :
  exists text,
    callLLM U fetchJSON notAFunctionMessage prompt apiKey w = (w, inl text)
    /\ text <> []
    /\ (forall key json s,
          apiKey = Some key -> key <> [] ->
          fetchJSON key prompt = inl json ->
          optGet (optGet (optFirst (optGet (Val json) "choices")) "message")
                 "content" = VStr s ->
          text = match trim s with
                 | [] => str "No response from the model."
                 | t => t
                 end)
    /\ (forall key e,
          apiKey = Some key -> key <> [] ->
          fetchJSON key prompt = inr e ->
          text = str "AI call failed. Using local heuristic instead.").
Proof.
  unfold callLLM.
  destruct apiKey as [[| c key] |].
  1, 3: destruct (test U flag_i summarizeRe prompt);
    [| destruct (test U flag_i breakDownRe prompt)];
    eexists; (split; [reflexivity |]); (split; [discriminate |]);
    split; intros; congruence.
  unfold tryCatch, bind.
  destruct (fetchJSON (c :: key) prompt) as [json | e] eqn:Ef.
  - destruct (optGet (optGet (optFirst (optGet (Val json) "choices")) "message")
                     "content") as [| [| b | n | s | l | fs]] eqn:Ec;
      cbn [optTrim ret throw];
      try destruct (trim s) as [| x t] eqn:Et;
      (eexists; split; [reflexivity |]; split; [discriminate |]; split;
       [ intros key0 json0 s0 Hk _ Hf Hc; injection Hk as <-;
         rewrite Ef in Hf; injection Hf as <-; rewrite Ec in Hc;
         try discriminate Hc; injection Hc as <-; now rewrite Et
       | intros key0 e Hk _ Hf; injection Hk as <-;
         rewrite Ef in Hf; discriminate Hf ]).
  - eexists. split; [reflexivity |]. split; [discriminate |].
    split.
    + intros key0 json0 s0 Hk _ Hf Hc. injection Hk as <-.
      rewrite Ef in Hf. discriminate Hf.
    + reflexivity.
Qed.

(** X28. Without an API key (none, or the empty text) [callLLM] makes no
    request: its answer does not depend on the network and is one of
    three fixed texts, chosen by the prompt alone. The plan when the
    prompt holds "summarize" in any letter case, else the subtask list
    when it holds "break down", else the general advice. *)
Theorem callLLM_without_key
    (U : Unicode) (fetchJSON fetchJSON' : jsstring -> jsstring -> JSON + exn)
    (notAFunctionMessage notAFunctionMessage' prompt : jsstring)
    (apiKey : option jsstring) (w : World) :
  apiKey = None \/ apiKey = Some [] ->
  callLLM U fetchJSON notAFunctionMessage prompt apiKey w
  = (w, inl (if includes (str "summarize") (asciiLower prompt) then mockPlan
             else if includes (str "break down") (asciiLower prompt)
                  then mockSubtasks
                  else mockAdvice))
  /\ callLLM U fetchJSON' notAFunctionMessage' prompt apiKey w
     = callLLM U fetchJSON notAFunctionMessage prompt apiKey w.
Proof.
  intros Hk. split; [now apply callLLM_mock |].
  now rewrite !callLLM_mock by exact Hk.
Qed.

Lemma callLLM_without_key_witness :
  callLLM asciiOnly (fun _ _ => inl JNull) (str "x")
    (str "Please SUMMARIZE and break down my week") (Some []) emptyWorld
  = (emptyWorld, inl mockPlan).
Proof.
  apply (proj1 (@callLLM_without_key asciiOnly (fun _ _ => inl JNull)
                  (fun _ _ => inl JNull) (str "x") (str "x")
                  (str "Please SUMMARIZE and break down my week") (Some [])
                  emptyWorld (or_intror eq_refl))).
Defined.

(** X29. Without an API key "Summarize my day" always shows the same plan,
    whatever the tasks are, and "Break down" shows the same subtask list
    for every task, except that it shows the plan when the title (or the
    text of the due date) holds "summarize" in any letter case. A due
    instant outside the range of dates makes [breakDownTask] throw
    before it calls the assistant, with or without a key. *)
Theorem assistant_without_key
    (U : Unicode) (zone : TimeZone) (now : Z)
    (fetchJSON : jsstring -> jsstring -> JSON + exn)
    (notAFunctionMessage invalidTimeMessage : jsstring)
    (toLocaleTimeString toISOString : Z -> jsstring)
    (tasks : list Task) (task : Task) (w : World) :
  summarizeDay U zone now fetchJSON notAFunctionMessage
    toLocaleTimeString tasks [] w
  = (w, inl mockPlan)
  /\ (forall taskTitle dueText,
        callLLM U fetchJSON notAFunctionMessage
          (breakDownPrompt taskTitle dueText) None w
        = (w, inl (if includes (str "summarize") (asciiLower taskTitle)
                      || includes (str "summarize") (asciiLower dueText)
                   then mockPlan else mockSubtasks)))
  /\ (truthyNum (due task) = false ->
      breakDownTask U fetchJSON notAFunctionMessage invalidTimeMessage
        toISOString task [] w
      = (w, inl (if includes (str "summarize") (asciiLower (title task))
                 then mockPlan else mockSubtasks)))
  /\ (forall d aiKey,
        due task = Some d -> 8640000000000000 < Z.abs d ->
        breakDownTask U fetchJSON notAFunctionMessage invalidTimeMessage
          toISOString task aiKey w
        = (w, inr {| message := invalidTimeMessage |})).
Proof.
  assert (Hb : forall taskTitle dueText,
            callLLM U fetchJSON notAFunctionMessage
              (breakDownPrompt taskTitle dueText) None w
            = (w, inl (if includes (str "summarize") (asciiLower taskTitle)
                          || includes (str "summarize") (asciiLower dueText)
                       then mockPlan else mockSubtasks))).
  { intros taskTitle dueText. rewrite callLLM_mock by now left.
    now rewrite summarize_in_breakDownPrompt, breakDown_in_prompt. }
  split; [| split; [exact Hb | split]].
  - unfold summarizeDay. cbn [keyOrUndefined].
    rewrite callLLM_mock by now left.
    now rewrite summarize_in_prompt.
  - intros Hd. unfold breakDownTask, bind. cbn [keyOrUndefined].
    assert (E : match due task with
                | Some d => if truthyNum (due task)
                            then isoText invalidTimeMessage toISOString d
                            else ret (str "none")
                | None => ret (str "none")
                end w = (w, inl (str "none"))).
    { destruct (due task); [now rewrite Hd | reflexivity]. }
    rewrite E, Hb.
    replace (includes (str "summarize") (asciiLower (str "none")))
      with false by (vm_compute; reflexivity).
    now rewrite orb_false_r.
  - intros d aiKey Hd Hr. unfold breakDownTask, bind. rewrite Hd.
    assert (E0 : truthyNum (Some d) = true).
    { cbn. apply negb_true_iff, Z.eqb_neq. lia. }
    rewrite E0. unfold isoText.
    replace (Z.abs d <=? 8640000000000000) with false
      by (symmetry; apply Z.leb_gt; lia).
    reflexivity.
Qed.
